(** * golfbot64: rating, replay, verification queue and difficulty indices

    A shallow embedding of the score-keeping core of the bot
    ([src/bot_commands.py], [src/db_helper.py], [src/bot.py]) and of the
    script [src/get_scores_from_players_with_n_rounds.py].

    Conventions of the model.
    - Python [int] is [Z]; Python [float] is idealised as an exact rational
      [Q] (no rounding); equalities between independently computed rationals
      are stated with [==] ([Qeq]).
    - A Python list is a [list]; [l[-n:]] is [Py.tail n l]; [l[i]] with a
      possibly negative index is [Py.index l i].
    - A Python [dict] is an insertion-ordered association list ([dict K V]).
    - [list.sort(key=...)] and SQL [ORDER BY] are a stable insertion sort.
    - The four SQL tables are lists of rows in insertion order, gathered in
      the record [db].
    - Storage calls commit one by one ([db_helper]); a call may raise, which
      is decided by an oracle on the number of the call.  A command is a
      computation in the monad [M] over the store; what it sends back to the
      chat or to the leaderboard sheet is its value.
    - [INVALID_RATING] comes from [globals.py], which is not part of the
      sources at hand: it is a parameter of the development; so are
      [COURSES], [NINES] and [CHARACTERS] where a command uses them.
    - What Python's library reads or prints ([int] on a string,
      [f"{x:.2f}"], [str], a formatted date) is a parameter of the command
      that uses it; the rows that [sheets_helper.get] returns are arguments
      of the command that reads them. *)

From Stdlib Require Import String.
From Stdlib Require Import List ZArith QArith Qfield Lia Bool Permutation Sorted.
From Stdlib Require Import Qround.
Import ListNotations.

#[local] Open Scope Q_scope.

(* ================================================================== *)
(** * Python values *)

Module Py.

(** [sum(l)]: left-to-right accumulation starting from [0]. *)
Definition sum (l : list Q) : Q := fold_left Qplus l 0.

(** [l[-n:]] for a positive constant [n]: the last [n] elements, or all of
    [l] when it is shorter. *)
Definition tail {A} (n : nat) (l : list A) : list A :=
  skipn (length l - n) l.

(** [len(l)] as a float divisor. *)
Definition len {A} (l : list A) : Q := inject_Z (Z.of_nat (length l)).

(** [l[i]]: a negative [i] counts from the end; [None] is [IndexError]. *)
Definition index {A} (l : list A) (i : Z) : option A :=
  if (0 <=? i)%Z then nth_error l (Z.to_nat i)
  else if (- Z.of_nat (length l) <=? i)%Z
       then nth_error l (Z.to_nat (Z.of_nat (length l) + i))
       else None.

(** [l[i] = f(l[i])] for an index within range (in place update). *)
Fixpoint set_at {A} (l : list A) (i : nat) (f : A -> A) : list A :=
  match l, i with
  | [], _ => []
  | x :: t, O => f x :: t
  | x :: t, S j => x :: set_at t j f
  end.

(** Stable sort by a key, as [list.sort(key=...)] and [ORDER BY]. *)
Section Sort.
Context {A K : Type} (ltb : K -> K -> bool) (key : A -> K).

Fixpoint insert (x : A) (l : list A) : list A :=
  match l with
  | [] => [x]
  | y :: t => if ltb (key y) (key x) then y :: insert x t else x :: y :: t
  end.

Definition sort_by (l : list A) : list A := fold_right insert [] l.

(** [x] may stand before [y] in a list sorted by [key]. *)
Definition in_order (x y : A) : Prop := ltb (key y) (key x) = false.
End Sort.

(** Insertion-ordered dictionaries. *)
Definition dict (K V : Type) := list (K * V).

Section Dict.
Context {K V : Type} (eqb : K -> K -> bool).

Fixpoint get (d : dict K V) (k : K) : option V :=
  match d with
  | [] => None
  | (k', v) :: t => if eqb k' k then Some v else get t k
  end.

(** [d[k] = f(d.get(k))]: an existing key keeps its place, a new key goes
    to the end. *)
Fixpoint upd (d : dict K V) (k : K) (f : option V -> V) : dict K V :=
  match d with
  | [] => [(k, f None)]
  | (k', v) :: t =>
      if eqb k' k then (k', f (Some v)) :: t else (k', v) :: upd t k f
  end.

Definition keys (d : dict K V) : list K := map fst d.
Definition values (d : dict K V) : list V := map snd d.
End Dict.

(** [d[k] = v]. *)
Definition set {K V} (eqb : K -> K -> bool) (d : dict K V) (k : K) (v : V)
  : dict K V :=
  upd eqb d k (fun _ => v).

(** [defaultdict(list)[k].append(v)]. *)
Definition append_to {V} (d : dict Z (list V)) (k : Z) (v : V) : dict Z (list V) :=
  upd Z.eqb d k (fun o => match o with Some l => l ++ [v] | None => [v] end).

End Py.

(** The arithmetic mean of a sequence of rationals, stated on its own (a
    right-nested sum) to compare the code's averages against. *)
Definition total (l : list Q) : Q := fold_right Qplus 0 l.
Definition mean (l : list Q) : Q := total l / inject_Z (Z.of_nat (length l)).

(* ================================================================== *)
(** * Rating calculator ([calculate_player_rating], [update_player_ratings]) *)

Definition MIN_REQUIRED_SCORES : nat := 6.
Definition ROLLING_AVERAGE_WINDOW : nat := 40.

(** A row of the per-player list built by [update_player_ratings]:
    [[round_id, timestamp, course_id, adjusted_score, rating]]. *)
Record rating_entry := RatingEntry {
  re_round_id : Z;
  re_timestamp : Z;
  re_course_id : Z;
  re_adjusted_score : Q;
  re_rating : Q
}.

Definition set_re_rating (r : Q) (e : rating_entry) : rating_entry :=
  RatingEntry (re_round_id e) (re_timestamp e) (re_course_id e)
              (re_adjusted_score e) r.

Section Rating.
(** [globals.INVALID_RATING], the stored value of an unrated player. *)
Variable INVALID_RATING : Q.

Definition calculate_player_rating (scores : list Q) : Q :=
  if (length scores <? MIN_REQUIRED_SCORES)%nat then INVALID_RATING
  else if (length scores <? ROLLING_AVERAGE_WINDOW)%nat
       then Py.sum scores / Py.len scores
       else Py.sum (Py.tail ROLLING_AVERAGE_WINDOW scores)
            / inject_Z (Z.of_nat ROLLING_AVERAGE_WINDOW).

(** One turn of the loop [for round_id in range(len(entries))]. *)
Definition replay_step (entries : list rating_entry) (round_id : nat)
  : list rating_entry :=
  let adjusted_scores := map re_adjusted_score (firstn (round_id + 1) entries) in
  let rating := calculate_player_rating adjusted_scores in
  Py.set_at entries round_id (set_re_rating rating).

(** The whole loop over one player's entries, already sorted by timestamp. *)
Definition replay (entries : list rating_entry) : list rating_entry :=
  fold_left replay_step (seq 0 (length entries)) entries.
End Rating.

(* ================================================================== *)
(** * The store: four tables *)

(** [PENDING_SCORES_TABLE]. *)
Record pending_row := PendingRow {
  pr_timestamp : Z;
  pr_hash : string;
  pr_course_id : Z;
  pr_player_id : Z;
  pr_player_name : string;
  pr_character : string;
  pr_score : Z
}.

(** [SCORES_TABLE]; [sr_rating] is [None] until a rating is written. *)
Record score_row := ScoreRow {
  sr_round_id : Z;
  sr_timestamp : Z;
  sr_course_id : Z;
  sr_player_id : Z;
  sr_character : string;
  sr_score : Z;
  sr_adjusted_score : Q;
  sr_rating : option Q
}.

(** [PLAYERS_TABLE]. *)
Record player_row := PlayerRow {
  pl_discord_id : Z;
  pl_player_name : string;
  pl_rating : Q
}.

(** [COURSES_TABLE]. *)
Record course_row := CourseRow {
  co_course_id : Z;
  co_course_name : string;
  co_nine : string;
  co_difficulty_index : Q
}.

Record db := Db {
  pending_scores : list pending_row;
  scores : list score_row;
  players : list player_row;
  courses : list course_row;
  next_round_id : Z            (* the serial behind [round_id] *)
}.

Definition set_sr_adjusted_score (a : Q) (r : score_row) : score_row :=
  ScoreRow (sr_round_id r) (sr_timestamp r) (sr_course_id r) (sr_player_id r)
           (sr_character r) (sr_score r) a (sr_rating r).

Definition set_sr_rating (x : Q) (r : score_row) : score_row :=
  ScoreRow (sr_round_id r) (sr_timestamp r) (sr_course_id r) (sr_player_id r)
           (sr_character r) (sr_score r) (sr_adjusted_score r) (Some x).

Definition set_pl_rating (x : Q) (p : player_row) : player_row :=
  PlayerRow (pl_discord_id p) (pl_player_name p) x.

Definition set_co_difficulty_index (x : Q) (c : course_row) : course_row :=
  CourseRow (co_course_id c) (co_course_name c) (co_nine c) x.

Definition with_pending (d : db) (l : list pending_row) : db :=
  Db l (scores d) (players d) (courses d) (next_round_id d).
Definition with_scores (d : db) (l : list score_row) : db :=
  Db (pending_scores d) l (players d) (courses d) (next_round_id d).
Definition with_players (d : db) (l : list player_row) : db :=
  Db (pending_scores d) (scores d) l (courses d) (next_round_id d).
Definition with_courses (d : db) (l : list course_row) : db :=
  Db (pending_scores d) (scores d) (players d) l (next_round_id d).

(* ================================================================== *)
(** * Exceptions and storage calls ([db_helper]) *)

Inductive exn := StorageError | IndexError | ZeroDivisionError.

Inductive result (A : Type) :=
| Ok (a : A)
| Raise (e : exn).
Arguments Ok {A} a.
Arguments Raise {A} e.

(** The store, the number of storage calls made so far, and the oracle
    telling which calls fail. *)
Record world := World {
  store : db;
  calls : nat;
  faults : nat -> bool
}.

Definition M (A : Type) : Type := world -> result A * world.

Definition ret {A} (a : A) : M A := fun w => (Ok a, w).
Definition bind {A B} (m : M A) (k : A -> M B) : M B :=
  fun w => match m w with
           | (Ok a, w') => k a w'
           | (Raise e, w') => (Raise e, w')
           end.
(** [try: m except Exception as e: h e]. *)
Definition catch {A} (m : M A) (h : exn -> M A) : M A :=
  fun w => match m w with
           | (Ok a, w') => (Ok a, w')
           | (Raise e, w') => h e w'
           end.

Declare Scope db_scope.
Delimit Scope db_scope with db.
Notation "x <- m ;; k" := (bind m (fun x => k))
  (at level 61, m at next level, right associativity) : db_scope.
Notation "m ;; k" := (bind m (fun _ => k))
  (at level 61, right associativity) : db_scope.
#[local] Open Scope db_scope.

(** A value that may be an exception, inside [M]. *)
Definition lift {A} (r : result A) : M A := fun w => (r, w).

(** One call of [db_helper]: the statement runs and commits, or it fails,
    is rolled back and the exception is raised again. *)
Definition db_call {A} (q : db -> A * db) : M A :=
  fun w =>
    if faults w (calls w)
    then (Raise StorageError, World (store w) (S (calls w)) (faults w))
    else let (a, d) := q (store w) in
         (Ok a, World d (S (calls w)) (faults w)).

(** [db_helper.select]. *)
Definition select {A} (q : db -> A) : M A := db_call (fun d => (q d, d)).
(** [db_helper.insert_single], [delete], [update_single], [update_multiple]. *)
Definition execute (q : db -> db) : M unit := db_call (fun d => (tt, q d)).

Definition run {A} (m : M A) (f : nat -> bool) (d : db) : result A * db :=
  let (r, w) := m (World d 0 f) in (r, store w).

Definition no_faults : nat -> bool := fun _ => false.
(** Only the storage call number [n] fails. *)
Definition fault_at (n : nat) : nat -> bool := fun i => (i =? n)%nat.

(** Pure code that may raise. *)
Definition rbind {A B} (r : result A) (k : A -> result B) : result B :=
  match r with
  | Ok a => k a
  | Raise e => Raise e
  end.

Notation "x <~ r ;; k" := (rbind r (fun x => k))
  (at level 61, r at next level, right associativity) : db_scope.

Fixpoint mapM {A B} (f : A -> result B) (l : list A) : result (list B) :=
  match l with
  | [] => Ok []
  | x :: t => y <~ f x ;; ys <~ mapM f t ;; Ok (y :: ys)
  end.

Fixpoint foldM {A S} (f : S -> A -> result S) (l : list A) (s : S) : result S :=
  match l with
  | [] => Ok s
  | x :: t => s' <~ f s x ;; foldM f t s'
  end.

(** [l[i]], raising [IndexError]. *)
Definition index_or_raise {A} (l : list A) (i : Z) : result A :=
  match Py.index l i with
  | Some x => Ok x
  | None => Raise IndexError
  end.

(** [a / b] on floats, raising [ZeroDivisionError]. *)
Definition py_div (a b : Q) : result Q :=
  if Qeq_bool b 0 then Raise ZeroDivisionError else Ok (a / b).

(* ================================================================== *)
(** * Pending queue and verification workflow *)

(** What the command answers ([ctx.respond]). *)
Inductive response :=
| NoPermission                (* "You don't have permission to use this command." *)
| QueueEmpty                  (* "Queue is currently empty." *)
| IdNotFound                  (* "ID not found in queue." *)
| Submitted (hash : string)   (* "Successfully submitted round ..." *)
| Removed (hash : string)     (* "Successfully removed round ..." *)
| ErrorMsg (e : exn).         (* "Error: ..." *)

(** [SELECT NOT EXISTS (SELECT 1 FROM pending LIMIT 1)]. *)
Definition q_queue_empty (d : db) : bool :=
  match pending_scores d with
  | [] => true
  | _ :: _ => false
  end.

Definition is_queue_empty : M bool :=
  catch (select q_queue_empty) (fun _ => ret true).

(** [SELECT ... FROM pending WHERE hash = %s LIMIT 1]. *)
Definition q_pending_round (hash : string) (d : db) : list pending_row :=
  firstn 1 (filter (fun r => String.eqb (pr_hash r) hash) (pending_scores d)).

Definition get_pending_round (hash : string) : M (option pending_row) :=
  catch (pending_round <- select (q_pending_round hash) ;;
         ret (hd_error pending_round))
        (fun _ => ret None).

(** [SELECT difficulty_index FROM courses ORDER BY course_id]. *)
Definition q_difficulty_indices (d : db) : list Q :=
  map co_difficulty_index (Py.sort_by Z.ltb co_course_id (courses d)).

Definition get_difficulty_indices : M (list Q) :=
  catch (select q_difficulty_indices) (fun _ => ret []).

(** [INSERT INTO scores (timestamp, course_id, player_id, character, score,
    adjusted_score)]. *)
Definition q_insert_score (timestamp course_id player_id : Z)
           (character : string) (score : Z) (adjusted_score : Q) (d : db) : db :=
  Db (pending_scores d)
     (scores d ++ [ScoreRow (next_round_id d) timestamp course_id player_id
                            character score adjusted_score None])
     (players d) (courses d) (next_round_id d + 1)%Z.

(** [DELETE FROM pending WHERE hash = %s]. *)
Definition q_delete_pending (hash : string) (d : db) : db :=
  with_pending d
    (filter (fun r => negb (String.eqb (pr_hash r) hash)) (pending_scores d)).

(** [SELECT adjusted_score FROM scores WHERE player_id = %s ORDER BY timestamp]. *)
Definition q_player_adjusted_scores (player_id : Z) (d : db) : list Q :=
  map sr_adjusted_score
      (Py.sort_by Z.ltb sr_timestamp
         (filter (fun r => (sr_player_id r =? player_id)%Z) (scores d))).

(** [UPDATE scores SET rating = %s WHERE player_id = %s AND timestamp = %s]. *)
Definition q_update_rating (rating : Q) (player_id timestamp : Z) (d : db) : db :=
  with_scores d
    (map (fun r => if ((sr_player_id r =? player_id)
                       && (sr_timestamp r =? timestamp))%Z
                   then set_sr_rating rating r else r)
         (scores d)).

(** [INSERT INTO players ... ON CONFLICT (discord_id) DO UPDATE SET rating]. *)
Definition q_upsert_player (player_id : Z) (player_name : string) (rating : Q)
           (d : db) : db :=
  if existsb (fun p => (pl_discord_id p =? player_id)%Z) (players d)
  then with_players d
         (map (fun p => if (pl_discord_id p =? player_id)%Z
                        then set_pl_rating rating p else p)
              (players d))
  else with_players d (players d ++ [PlayerRow player_id player_name rating]).

Section Workflow.
Variable INVALID_RATING : Q.

Definition verify_score (is_moderator : bool) (hash : string) : M response :=
  if negb is_moderator then ret NoPermission
  else
    catch
      (empty <- is_queue_empty ;;
       if (empty : bool) then ret QueueEmpty
       else
         pending_round <- get_pending_round hash ;;
         match pending_round with
         | None => ret IdNotFound
         | Some p =>
             difficulty_indices <- get_difficulty_indices ;;
             difficulty_index <-
               lift (index_or_raise difficulty_indices (pr_course_id p - 1)) ;;
             let adjusted_score := inject_Z (pr_score p) - difficulty_index in
             execute (q_insert_score (pr_timestamp p) (pr_course_id p)
                        (pr_player_id p) (pr_character p) (pr_score p)
                        adjusted_score) ;;
             execute (q_delete_pending hash) ;;
             scores <- select (q_player_adjusted_scores (pr_player_id p)) ;;
             let new_rating := calculate_player_rating INVALID_RATING scores in
             execute (q_update_rating new_rating (pr_player_id p)
                        (pr_timestamp p)) ;;
             execute (q_upsert_player (pr_player_id p) (pr_player_name p)
                        new_rating) ;;
             ret (Submitted hash)
         end)
      (fun e => ret (ErrorMsg e)).

Definition remove_score_from_queue (is_moderator : bool) (hash : string)
  : M response :=
  if negb is_moderator then ret NoPermission
  else
    catch (execute (q_delete_pending hash) ;; ret (Removed hash))
          (fun e => ret (ErrorMsg e)).
End Workflow.

(* ================================================================== *)
(** * Ranking builder ([update_adjusted_scores], [update_player_ratings],
      [generate_rankings_table]) *)

(** [UPDATE scores s SET adjusted_score = v.adj_score FROM (VALUES ...) v
    WHERE s.round_id = v.id]; rows are [(id, course_id, score, adj_score)]. *)
Definition q_update_adjusted_scores (values : list (Z * Z * Z * Q)) (d : db) : db :=
  with_scores d
    (map (fun s =>
            match find (fun v => (fst (fst (fst v)) =? sr_round_id s)%Z) values with
            | Some v => set_sr_adjusted_score (snd v) s
            | None => s
            end)
         (scores d)).

Definition update_adjusted_scores : M unit :=
  scores <- select (fun d =>
              map (fun r => (sr_round_id r, sr_course_id r, sr_score r,
                             sr_adjusted_score r))
                  (scores d)) ;;
  indices <- get_difficulty_indices ;;
  scores <- lift (mapM (fun entry : Z * Z * Z * Q =>
                          let '(round_id, course_id, score, _) := entry in
                          index <~ index_or_raise indices (course_id - 1) ;;
                          Ok (round_id, course_id, score, inject_Z score - index))
                       scores) ;;
  execute (q_update_adjusted_scores scores).

(** [UPDATE scores s SET rating = v.rating FROM (VALUES ...) v
    WHERE s.round_id = v.id]. *)
Definition q_update_ratings (values : list rating_entry) (d : db) : db :=
  with_scores d
    (map (fun s =>
            match find (fun v => (re_round_id v =? sr_round_id s)%Z) values with
            | Some v => set_sr_rating (re_rating v) s
            | None => s
            end)
         (scores d)).

(** [UPDATE players p SET rating = v.rating FROM (VALUES ...) v
    WHERE p.discord_id = v.discord_id]. *)
Definition q_update_player_ratings (values : list (Z * Q)) (d : db) : db :=
  with_players d
    (map (fun p =>
            match find (fun v => (fst v =? pl_discord_id p)%Z) values with
            | Some v => set_pl_rating (snd v) p
            | None => p
            end)
         (players d)).

Definition Qlt_bool (x y : Q) : bool := negb (Qle_bool y x).

Section Rankings.
Variable INVALID_RATING : Q.

(** The dictionary [score_data_dict]: player id to that player's rows, in
    the order the rows were selected. *)
Definition score_data_dict (player_score_data : list (Z * Z * Z * Z * Q))
  : Py.dict Z (list rating_entry) :=
  fold_left
    (fun dct entry =>
       let '(round_id, player_id, timestamp, course_id, adjusted_score) := entry in
       Py.append_to dct player_id
         (RatingEntry round_id timestamp course_id adjusted_score 0))
    player_score_data [].

(** The body of [for player_id in score_data_dict]: the player's list
    after sorting and replay, and the pair added to [current_ratings]. *)
Definition rate_player (item : Z * list rating_entry)
  : result ((Z * list rating_entry) * (Z * Q)) :=
  let '(player_id, entries) := item in
  let entries := replay INVALID_RATING (Py.sort_by Z.ltb re_timestamp entries) in
  last_entry <~ index_or_raise entries (-1) ;;
  Ok ((player_id, entries), (player_id, re_rating last_entry)).

Definition update_player_ratings : M unit :=
  player_score_data <- select (fun d =>
      map (fun r => (sr_round_id r, sr_player_id r, sr_timestamp r,
                     sr_course_id r, sr_adjusted_score r))
          (scores d)) ;;
  rated <- lift (mapM rate_player (score_data_dict player_score_data)) ;;
  let current_ratings := map snd rated in
  let flattened_score_data := concat (map (fun x => snd (fst x)) rated) in
  execute (q_update_ratings flattened_score_data) ;;
  execute (q_update_player_ratings current_ratings).

(** [rated_players]: the rows of the players table whose rating is not the
    sentinel, as [[player_name, rating]]. *)
Definition rated_players (player_data : list player_row) : list (string * Q) :=
  map (fun p => (pl_player_name p, pl_rating p))
      (filter (fun p => negb (Qeq_bool (pl_rating p) INVALID_RATING))
              player_data).

(** [rankings_sheet]: sorted by rating, ranks counted from 1. *)
Definition rankings_sheet (player_data : list player_row)
  : list (nat * string * Q) :=
  let sorted := Py.sort_by Qlt_bool snd (rated_players player_data) in
  map (fun x => (fst x, fst (snd x), snd (snd x)))
      (combine (seq 1 (length sorted)) sorted).

(** The value is what is written to the leaderboard sheet; [None] when
    nothing is written. *)
Definition generate_rankings_table : M (option (list (nat * string * Q))) :=
  update_adjusted_scores ;;
  update_player_ratings ;;
  player_data <- catch (rows <- select players ;; ret (Some rows))
                       (fun _ => ret None) ;;
  match player_data with
  | None => ret None
  | Some player_data =>
      match rated_players player_data with
      | [] => ret None
      | _ :: _ => ret (Some (rankings_sheet player_data))
      end
  end.
End Rankings.

(* ================================================================== *)
(** * Difficulty index calculator ([update_difficulty_indices]) *)

Definition NUM_REQUIRED_SCORES : nat := 8.

(** [SELECT COUNT(s.course_id) FROM scores s WHERE s.player_id = p.discord_id
    AND s.course_id = c.course_id]. *)
Definition rounds_on (d : db) (player_id course_id : Z) : nat :=
  length (filter (fun s => ((sr_player_id s =? player_id)
                            && (sr_course_id s =? course_id))%Z)
                 (scores d)).

(** The [WHERE] clause on a player: the number of distinct courses with
    enough rounds equals the number of rows of the courses table. *)
Definition eligible (d : db) (player_id : Z) : bool :=
  (length
     (nodup Z.eq_dec
        (map co_course_id
           (filter (fun c => (NUM_REQUIRED_SCORES
                                <=? rounds_on d player_id (co_course_id c))%nat)
                   (courses d))))
   =? length (courses d))%nat.

(** The whole query: [(player_id, course_id, timestamp, score)] of every
    score whose player is an eligible row of the players table. *)
Definition q_eligible_scores (d : db) : list (Z * Z * Z * Z) :=
  map (fun s => (sr_player_id s, sr_course_id s, sr_timestamp s, sr_score s))
      (filter (fun s =>
                 existsb (fun p => (pl_discord_id p =? sr_player_id s)%Z
                                   && eligible d (pl_discord_id p))
                         (players d))
              (scores d)).

(** [player_data]: player id to [(course_id, date, score)], by timestamp. *)
Definition player_data (scores : list (Z * Z * Z * Z))
  : Py.dict Z (list (Z * Z * Z)) :=
  fold_left
    (fun dct row =>
       let '(player_id, course_id, date, score) := row in
       Py.append_to dct player_id (course_id, date, score))
    (Py.sort_by Z.ltb (fun row => snd (fst row)) scores) [].

(** [course_averages] inside the loop: course id to the player's scores. *)
Definition course_scores (rounds : list (Z * Z * Z)) : Py.dict Z (list Z) :=
  fold_left
    (fun dct round =>
       let '(course_id, _, score) := round in Py.append_to dct course_id score)
    rounds [].

(** [sum(recent_scores) / len(recent_scores)] on integer scores. *)
Definition average_score (scores : list Z) : result Q :=
  let recent_scores := Py.tail NUM_REQUIRED_SCORES scores in
  py_div (inject_Z (fold_left Z.add recent_scores 0%Z)) (Py.len recent_scores).

(** [player_course_averages[player_id]]. *)
Definition course_averages_of (rounds : list (Z * Z * Z)) : result (Py.dict Z Q) :=
  foldM (fun averages item =>
           let '(course_id, scores) := item in
           average <~ average_score scores ;;
           Ok (Py.set Z.eqb averages course_id average))
        (course_scores rounds) [].

Definition player_course_averages (data : Py.dict Z (list (Z * Z * Z)))
  : result (Py.dict Z (Py.dict Z Q)) :=
  foldM (fun averages item =>
           let '(player_id, rounds) := item in
           course_averages <~ course_averages_of rounds ;;
           Ok (Py.set Z.eqb averages player_id course_averages))
        data [].

(** [course_averages_by_player[course_id][player_id] = average_score]. *)
Definition course_averages_by_player (averages : Py.dict Z (Py.dict Z Q))
  : Py.dict Z (Py.dict Z Q) :=
  fold_left
    (fun by_course item =>
       let '(player_id, course_averages) := item in
       fold_left
         (fun by_course item' =>
            let '(course_id, average_score) := item' in
            Py.upd Z.eqb by_course course_id
              (fun o => Py.set Z.eqb (match o with Some m => m | None => [] end)
                                player_id average_score))
         course_averages by_course)
    averages [].

Definition final_averages (by_course : Py.dict Z (Py.dict Z Q))
  : result (Py.dict Z Q) :=
  foldM (fun final item =>
           let '(course_id, player_averages) := item in
           average <~ py_div (Py.sum (Py.values player_averages))
                             (Py.len player_averages) ;;
           Ok (Py.set Z.eqb final course_id average))
        by_course [].

(** From the overall average on: [difficulty_indices]. *)
Definition indices_of_averages (final : Py.dict Z Q) : result (Py.dict Z Q) :=
  overall_avg <~ py_div (Py.sum (Py.values final)) (Py.len final) ;;
  Ok (fold_left
        (fun indices item =>
           let '(course, course_avg) := item in
           Py.set Z.eqb indices course (course_avg - overall_avg))
        final []).

(** Everything between the query and the final [UPDATE]. *)
Definition difficulty_indices (scores : list (Z * Z * Z * Z))
  : result (Py.dict Z Q) :=
  averages <~ player_course_averages (player_data scores) ;;
  final <~ final_averages (course_averages_by_player averages) ;;
  indices_of_averages final.

(** [UPDATE courses c SET difficulty_index = v.index FROM (VALUES ...) v
    WHERE c.course_id = v.id]. *)
Definition q_update_difficulty_indices (values : list (Z * Q)) (d : db) : db :=
  with_courses d
    (map (fun c =>
            match find (fun v => (fst v =? co_course_id c)%Z) values with
            | Some v => set_co_difficulty_index (snd v) c
            | None => c
            end)
         (courses d)).

Definition update_difficulty_indices : M unit :=
  scores <- select q_eligible_scores ;;
  flattened_indices <- lift (difficulty_indices scores) ;;
  execute (q_update_difficulty_indices flattened_indices).

(* ================================================================== *)
(** * Notions used to state and prove the properties *)

(** Rows grouped under a key, the way the loops over [defaultdict(list)]
    build their dictionaries. *)
Definition group {A V} (kf : A -> Z) (vf : A -> V) (l : list A)
           (d0 : Py.dict Z (list V)) : Py.dict Z (list V) :=
  fold_left (fun d x => Py.append_to d (kf x) (vf x)) l d0.

(** What a key holds once the values [vs] were appended under it. *)
Definition extend {V} (o : option (list V)) (vs : list V) : option (list V) :=
  match vs, o with
  | [], _ => o
  | _ :: _, Some l0 => Some (l0 ++ vs)
  | _ :: _, None => Some vs
  end.

(** One turn of a loop [for k, v in d.items(): acc[k] = f(v)]. *)
Definition fill {V W} (f : V -> result W) (acc : Py.dict Z W) (item : Z * V)
  : result (Py.dict Z W) :=
  let '(k, v) := item in
  w <~ f v ;; Ok (Py.set Z.eqb acc k w).

(** The value of [average_score] when it does not raise. *)
Definition recent_average (scores : list Z) : Q :=
  let recent_scores := Py.tail NUM_REQUIRED_SCORES scores in
  inject_Z (fold_left Z.add recent_scores 0%Z) / Py.len recent_scores.

(** The value of [course_averages_of]. *)
Definition averages_by_course (rounds : list (Z * Z * Z)) : Py.dict Z Q :=
  map (fun item => (fst item, recent_average (snd item))) (course_scores rounds).

(** A player's raw scores on a course, oldest first. *)
Definition raw_scores_on (d : db) (player_id course_id : Z) : list Z :=
  map sr_score
      (Py.sort_by Z.ltb sr_timestamp
         (filter (fun s => ((sr_player_id s =? player_id)
                            && (sr_course_id s =? course_id))%Z)
                 (scores d))).

(** The value of one course's average in [final_averages]. *)
Definition course_average (player_averages : Py.dict Z Q) : Q :=
  Py.sum (Py.values player_averages) / Py.len player_averages.

(** Every key once, and nothing empty under a key. *)
Definition well_keyed (d : Py.dict Z (Py.dict Z Q)) : Prop :=
  NoDup (Py.keys d) /\ Forall (fun m => m <> []) (Py.values d).

(** A computation that never writes to the courses table, whether it
    returns or raises. *)
Definition keeps_courses {A} (m : M A) : Prop :=
  forall w, courses (store (snd (m w))) = courses (store w).

(** Every score of [d] is adjusted by the index stored for its course. *)
Definition adjusted_by_stored_indices (d : db) : Prop :=
  forall s, In s (scores d) ->
  exists c, In c (courses d) /\ co_course_id c = sr_course_id s /\
            sr_adjusted_score s = inject_Z (sr_score s) - co_difficulty_index c.

(** What [update_adjusted_scores] puts in place of [entry[3]]. *)
Definition readjusted (indices : list Q) (entry : Z * Z * Z * Q) : Z * Z * Z * Q :=
  let '(round_id, course_id, score, _) := entry in
  (round_id, course_id, score,
   inject_Z score - match Py.index indices (course_id - 1) with
                    | Some index => index
                    | None => 0
                    end).

(** Every score is played on a course of the roster. *)
Definition courses_known (d : db) : Prop :=
  forall s, In s (scores d) ->
  exists c, In c (courses d) /\ co_course_id c = sr_course_id s.

(** The roster is numbered 1, 2, ..., as [difficulty_indices[course_id - 1]]
    takes for granted. *)
Definition roster_numbered (d : db) : Prop :=
  map co_course_id (Py.sort_by Z.ltb co_course_id (courses d)) =
  map Z.of_nat (seq 1 (length (courses d))).

(** No pending row carries [hash]: never submitted, promoted or discarded. *)
Definition absent (hash : string) (d : db) : Prop :=
  forall r, In r (pending_scores d) -> pr_hash r <> hash.

(* ================================================================== *)
(** * A small store to run the commands on *)

Module Sample.
#[local] Open Scope string_scope.

Definition courses : list course_row :=
  [ CourseRow 1 "Toad Highlands" "Front" 0;
    CourseRow 2 "Toad Highlands" "Back" (3 # 2) ].

(** Five verified rounds of player 7, adjusted [0, 1, 2, -1, 0.5]. *)
Definition scores : list score_row :=
  [ ScoreRow 1 10 1 7 "Yoshi" 0 0 (Some 1000);
    ScoreRow 2 20 1 7 "Yoshi" 1 1 (Some 1000);
    ScoreRow 3 30 1 7 "Peach" 2 2 (Some 1000);
    ScoreRow 4 40 1 7 "Yoshi" (-1) (-1) (Some 1000);
    ScoreRow 5 50 2 7 "Yoshi" 2 (1 # 2) (Some 1000) ].

Definition round : string := "kT3xQ9aB7mZc2LpW".

(** A sixth round of player 7, +3 on the back nine, waiting. *)
Definition pending : pending_row :=
  PendingRow 60 round 2 7 "ann" "Yoshi" 3.

Definition back_nine : course_row := CourseRow 2 "Toad Highlands" "Back" (3 # 2).

Definition store : db :=
  Db [pending] scores [PlayerRow 7 "ann" 1000] courses 6.

(** Seven rounds of one player as [update_player_ratings] lists them. *)
Definition entries : list rating_entry :=
  [ RatingEntry 1 10 1 0 0; RatingEntry 2 20 1 1 0; RatingEntry 3 30 1 2 0;
    RatingEntry 4 40 1 (-1) 0; RatingEntry 5 50 2 (1 # 2) 0;
    RatingEntry 6 60 2 (3 # 2) 0; RatingEntry 7 70 1 5 0 ].

(** A ledger in which player 7 has eight level-par rounds on the front
    nine and eight rounds of +2 on the back nine, and player 9 one round. *)
Definition season : list score_row :=
  map (fun i => ScoreRow (Z.of_nat i) (Z.of_nat (10 * i)) 1 7 "Yoshi" 0 0 None)
      (seq 1 8)
  ++ map (fun i => ScoreRow (Z.of_nat i) (Z.of_nat (10 * i)) 2 7 "Yoshi" 2 2 None)
         (seq 9 8)
  ++ [ScoreRow 17 5 1 9 "Luigi" 4 4 None].

(** Both stored indices still have their initial value 0. *)
Definition league : db :=
  Db [] season [PlayerRow 7 "ann" 1000; PlayerRow 9 "bob" 1000]
     [ CourseRow 1 "Toad Highlands" "Front" 0;
       CourseRow 2 "Toad Highlands" "Back" 0 ]
     18.
End Sample.

(* ================================================================== *)
(** * Further notions: the rating history *)

(** The entry [update_player_ratings] makes of a row of the scores table. *)
Definition entry_of_row (s : score_row) : rating_entry :=
  RatingEntry (sr_round_id s) (sr_timestamp s) (sr_course_id s)
              (sr_adjusted_score s) 0.

(** A player's rows of the scores table, oldest first. *)
Definition rounds_of (d : db) (player_id : Z) : list score_row :=
  Py.sort_by Z.ltb sr_timestamp
    (filter (fun r => (sr_player_id r =? player_id)%Z) (scores d)).

(** A row without its rating. *)
Definition forget_rating (s : score_row) : score_row :=
  ScoreRow (sr_round_id s) (sr_timestamp s) (sr_course_id s) (sr_player_id s)
           (sr_character s) (sr_score s) (sr_adjusted_score s) None.

(** What [rate_player] returns when it does not raise. *)
Definition rated (INVALID_RATING : Q) (item : Z * list rating_entry)
  : (Z * list rating_entry) * (Z * Q) :=
  let entries := Py.sort_by Z.ltb re_timestamp (snd item) in
  ((fst item, replay INVALID_RATING entries),
   (fst item,
    calculate_player_rating INVALID_RATING (map re_adjusted_score entries))).

(* ================================================================== *)
(** * More commands: display names and submissions *)

Inductive name_response :=
| NameTooLong           (* "Error: Name is too long. Name change not applied." *)
| NotAPlayer            (* "You must have at least one score verified ..." *)
| NameChanged (new_name : string).   (* "You changed your name to ..." *)

(** [UPDATE players p SET player_name = %s WHERE p.discord_id = %s]. *)
Definition q_update_player_name (new_name : string) (player_id : Z) (d : db) : db :=
  with_players d
    (map (fun p => if (pl_discord_id p =? player_id)%Z
                   then PlayerRow (pl_discord_id p) new_name (pl_rating p)
                   else p)
         (players d)).

(** [change_player_display_name]; [player_id] is [ctx.author.id].  A name is
    taken as its sequence of characters.  Nothing is caught here: a storage
    failure leaves the function as an exception. *)
Definition change_player_display_name (player_id : Z) (new_name : string)
  : M name_response :=
  if (32 <? String.length new_name)%nat then ret NameTooLong
  else
    player_ids <- select (fun d => map pl_discord_id (players d)) ;;
    if negb (existsb (Z.eqb player_id) player_ids) then ret NotAPlayer
    else
      execute (q_update_player_name new_name player_id) ;;
      ret (NameChanged new_name).

(** Exceptions of the commands below: those met so far, [ValueError] and
    [TypeError]. *)
Inductive exception :=
| Builtin (e : exn)
| ValueError
| TypeError.

Inductive outcome (A : Type) :=
| Returns (a : A)
| Throws (e : exception).
Arguments Returns {A} a.
Arguments Throws {A} e.

(** Commands that may also meet a [ValueError]. *)
Definition C (A : Type) : Type := world -> outcome A * world.

Definition c_ret {A} (a : A) : C A := fun w => (Returns a, w).
Definition c_throw {A} (e : exception) : C A := fun w => (Throws e, w).
Definition c_bind {A B} (m : C A) (k : A -> C B) : C B :=
  fun w => match m w with
           | (Returns a, w') => k a w'
           | (Throws e, w') => (Throws e, w')
           end.
Definition c_catch {A} (m : C A) (h : exception -> C A) : C A :=
  fun w => match m w with
           | (Returns a, w') => (Returns a, w')
           | (Throws e, w') => h e w'
           end.
(** A computation of [M], its exceptions kept. *)
Definition of_M {A} (m : M A) : C A :=
  fun w => match m w with
           | (Ok a, w') => (Returns a, w')
           | (Raise e, w') => (Throws (Builtin e), w')
           end.

Definition c_run {A} (m : C A) (f : nat -> bool) (d : db) : outcome A * db :=
  let (r, w) := m (World d 0 f) in (r, store w).

Declare Scope cmd_scope.
Delimit Scope cmd_scope with cmd.
Notation "x <- m ;; k" := (c_bind m (fun x => k))
  (at level 61, m at next level, right associativity) : cmd_scope.
Notation "m ;; k" := (c_bind m (fun _ => k))
  (at level 61, right associativity) : cmd_scope.






(* ================================================================== *)
(** * Course ids in the tables shown to players *)

Section Labels.
(** [globals.COURSES] and [globals.NINES]. *)
Variables COURSES NINES : list string.

(** [get_recent_score_table]: [NINES[(course_id - 1) % 2]]. *)
Definition nine_label (course_id : Z) : result string :=
  index_or_raise NINES ((course_id - 1) mod 2).

(** [get_recent_score_table]:
    [COURSES[math.ceil(course_id / len(NINES)) - 1]]. *)
Definition course_label (course_id : Z) : result string :=
  quotient <~ py_div (inject_Z course_id) (Py.len NINES) ;;
  index_or_raise COURSES (Qceiling quotient - 1).

(** [get_player_profile]: the course id behind a cell of the averages table. *)
Definition profile_course_id (course_index nine_index : Z) : Z :=
  ((course_index * 2) + nine_index) + 1.

(** [get_player_profile]: one turn of [for nine_index in range(len(NINES))],
    [average_dict] holding the formatted averages by course id. *)
Definition profile_cell (average_dict : Py.dict Z string) (course_index : Z)
           (course_entry : list string) (nine_index : nat)
  : result (list string) :=
  let course_id := profile_course_id course_index (Z.of_nat nine_index) in
  match Py.get Z.eqb average_dict course_id with
  | None => Ok course_entry                                   (* continue *)
  | Some average =>
      if (nine_index + 1 <? length course_entry)%nat
      then Ok (Py.set_at course_entry (nine_index + 1) (fun _ => average))
      else Raise IndexError
  end.

(** [get_player_profile]: [course_averages_table_data]. *)
Definition profile_rows (average_dict : Py.dict Z string)
  : result (list (list string)) :=
  mapM (fun course_index =>
          course_name <~ index_or_raise COURSES (Z.of_nat course_index) ;;
          foldM (profile_cell average_dict (Z.of_nat course_index))
                (seq 0 (length NINES))
                [course_name; "--"%string; "--"%string])
       (seq 0 (length COURSES)).

(** [generate_difficulty_indices_sheet]: the rows written to the sheet
    "Difficulty Indices"; the function catches nothing for good ([raise]). *)
Definition generate_difficulty_indices_sheet : M (list (list Q)) :=
  result <- select q_difficulty_indices ;;
  lift (mapM (fun course_index =>
                front_index <~ index_or_raise result (Z.of_nat course_index * 2) ;;
                back_index <~ index_or_raise result
                                (Z.of_nat course_index * 2 + 1) ;;
                Ok [front_index; back_index])
             (seq 0 (length COURSES))).
End Labels.

(** What a cell of the profile shows for a course id. *)
Definition shown (average_dict : Py.dict Z string) (course_id : Z) : string :=
  match Py.get Z.eqb average_dict course_id with
  | Some average => average
  | None => "--"%string
  end.

(* ================================================================== *)
(** * Import from the spreadsheet ([check_row_valid],
      [update_database_from_spreadsheet]) *)

Inductive import_response :=
| ImportNoPermission            (* "You don't have permission to use this command." *)
| InvalidRow (row_number : nat) (* "... missing/invalid at row ..." *)
| UnnamedPlayers (ids : list Z) (* "Players ... do not have names. ..." *)
| NoScorePlayers (ids : list Z) (* "Players ... do not have any scores registered." *)
| Finished                      (* "Finished updating database." *)
| ImportError (e : exception).  (* "Error updating database: ..." *)

(** [TRUNCATE TABLE scores, players RESTART IDENTITY]. *)
Definition q_truncate (d : db) : db :=
  Db (pending_scores d) [] [] (courses d) 1.

(** [INSERT INTO scores (timestamp, course_id, player_id, character, score,
    adjusted_score) VALUES ...], the adjusted score being the dummy [0.0]. *)
Definition q_insert_scores (rows : list (Z * Z * Z * string * Z)) (d : db) : db :=
  fold_left (fun d row =>
               let '(timestamp, course_id, player_id, character, score) := row in
               q_insert_score timestamp course_id player_id character score 0 d)
            rows d.

(** [SELECT rating FROM scores WHERE (player_id, timestamp) IN (SELECT
    player_id, MAX(timestamp) ... WHERE player_id = %s GROUP BY player_id)]. *)
Definition q_latest_rating (player_id : Z) (d : db) : list (option Q) :=
  match filter (fun r => (sr_player_id r =? player_id)%Z) (scores d) with
  | [] => []
  | first :: others =>
      let latest := fold_left Z.max (map sr_timestamp others) (sr_timestamp first) in
      map sr_rating
          (filter (fun r => (sr_timestamp r =? latest)%Z) (first :: others))
  end.

(** [INSERT INTO players ... ON CONFLICT (discord_id) DO UPDATE SET rating,
    player_name]. *)
Definition q_upsert_named_player (player_id : Z) (player_name : string)
           (rating : Q) (d : db) : db :=
  if existsb (fun p => (pl_discord_id p =? player_id)%Z) (players d)
  then with_players d
         (map (fun p => if (pl_discord_id p =? player_id)%Z
                        then PlayerRow (pl_discord_id p) player_name rating
                        else p)
              (players d))
  else with_players d (players d ++ [PlayerRow player_id player_name rating]).

(** A value or an exception, as a command. *)
Definition of_outcome {A} (o : outcome A) : C A := fun w => (o, w).

Section SheetImport.
Variable INVALID_RATING : Q.
(** [globals.CHARACTERS]. *)
Variable CHARACTERS : list string.
(** Python's [int] on a string; [None] is its [ValueError]. *)
Variable py_int : string -> option Z.

Definition check_row_valid (row : list string) : outcome bool :=
  if (length row <? 5)%nat then Returns false
  else if existsb (fun element => String.eqb element "") row then Returns false
  else
    match row with
    | [timestamp; course_id; player_id; character; score] =>
        match py_int course_id with
        | None => Throws ValueError
        | Some c =>
            if (12 <? c)%Z || (c <? 1)%Z then Returns false
            else if negb (existsb (String.eqb character) CHARACTERS)
                 then Returns false
                 else Returns true
        end
    | _ => Throws ValueError          (* too many values to unpack *)
    end.

(** The loop [for i in range(len(data))]: the number shown for the first row
    that is not valid, if there is one. *)
Fixpoint first_invalid (data : list (list string)) (i : nat)
  : outcome (option nat) :=
  match data with
  | [] => Returns None
  | row :: rest =>
      match check_row_valid row with
      | Returns false => Returns (Some (i + 2)%nat)
      | Returns true => first_invalid rest (S i)
      | Throws e => Throws e
      end
  end.

(** One element of [insert_data]. *)
Definition parse_row (row : list string) : outcome (Z * Z * Z * string * Z) :=
  match row with
  | [timestamp; course_id; player_id; character; score] =>
      match py_int timestamp, py_int course_id, py_int player_id, py_int score with
      | Some t, Some c, Some p, Some s => Returns (t, c, p, character, s)
      | _, _, _, _ => Throws ValueError
      end
  | _ => Throws ValueError
  end.

Fixpoint parse_rows (data : list (list string))
  : outcome (list (Z * Z * Z * string * Z)) :=
  match data with
  | [] => Returns []
  | row :: rest =>
      match parse_row row with
      | Throws e => Throws e
      | Returns r =>
          match parse_rows rest with
          | Throws e => Throws e
          | Returns rs => Returns (r :: rs)
          end
      end
  end.

(** The loop over the rows of the sheet "Players". *)
Fixpoint import_players (data : list (list string))
         (unnamed_players no_score_players : list Z) : C (list Z * list Z) :=
  match data with
  | [] => c_ret (unnamed_players, no_score_players)
  | entry :: rest =>
      (first <- of_outcome (match entry with
                            | [] => Throws (Builtin IndexError)
                            | x :: _ => Returns x
                            end) ;;
       player_id <- of_outcome (match py_int first with
                                | Some n => Returns n
                                | None => Throws ValueError
                                end) ;;
       if (length entry =? 1)%nat
       then import_players rest (unnamed_players ++ [player_id]) no_score_players
       else
         rating <- of_M (select (q_latest_rating player_id)) ;;
         match rating, entry with
         | [], _ =>
             import_players rest unnamed_players (no_score_players ++ [player_id])
         | Some rating :: _, _ :: player_name :: _ =>
             of_M (execute (q_upsert_named_player player_id player_name rating)) ;;
             import_players rest unnamed_players no_score_players
         | _, _ =>
             (* a rating that was never written: shut out by
                [update_player_ratings], which has just run *)
             c_throw (Builtin StorageError)
         end)%cmd
  end.

(** [scores_sheet] and [players_sheet] are what [sheets_helper.get] returns
    for "Scores!A2:E" and "Players!A2:B". *)
Definition update_database_from_spreadsheet (is_moderator : bool)
           (scores_sheet players_sheet : list (list string))
  : C import_response :=
  if negb is_moderator then c_ret ImportNoPermission
  else
    c_catch
      (invalid <- of_outcome (first_invalid scores_sheet 0) ;;
       match invalid with
       | Some row_number => c_ret (InvalidRow row_number)
       | None =>
           of_M (execute q_truncate) ;;
           insert_data <- of_outcome (parse_rows scores_sheet) ;;
           of_M (execute (q_insert_scores insert_data)) ;;
           of_M update_adjusted_scores ;;
           of_M (update_player_ratings INVALID_RATING) ;;
           current_player_ids <-
             of_M (select (fun d => map pl_discord_id (players d))) ;;
           lists <- import_players players_sheet [] [] ;;
           let '(unnamed_players, no_score_players) := lists in
           match unnamed_players, no_score_players with
           | _ :: _, _ => c_ret (UnnamedPlayers unnamed_players)
           | [], _ :: _ => c_ret (NoScorePlayers unnamed_players)
           | [], [] => c_ret Finished
           end
       end)%cmd
      (fun e => c_ret (ImportError e)).
End SheetImport.

(** The columns of a score that no recomputation writes. *)
Definition raw_columns (s : score_row) : Z * Z * Z * Z * string * Z :=
  (sr_round_id s, sr_timestamp s, sr_course_id s, sr_player_id s,
   sr_character s, sr_score s).

(* ================================================================== *)
(** * Further notions: what an import leaves *)

(** The rows of the sheet as rows of the emptied scores table, numbered from
    [first] on in the order of the sheet. *)
Fixpoint numbered (first : Z) (rows : list (Z * Z * Z * string * Z))
  : list score_row :=
  match rows with
  | [] => []
  | (timestamp, course_id, player_id, character, score) :: rest =>
      ScoreRow first timestamp course_id player_id character score 0 None
      :: numbered (first + 1) rest
  end.

Section Sheets.
Variable py_int : string -> option Z.

(** An entry of the sheet "Players" that the loop can read: it has a first
    cell, and that cell is a number. *)
Definition readable (entry : list string) : Prop :=
  exists first cells player_id,
    entry = first :: cells /\ py_int first = Some player_id.

(** The ids of the entries without a name, in the order of the sheet. *)
Definition unnamed_ids (players_sheet : list (list string)) : list Z :=
  flat_map (fun entry =>
              match entry with
              | [first] => match py_int first with
                           | Some player_id => [player_id]
                           | None => []
                           end
              | _ => []
              end)
           players_sheet.

(** The ids of the named entries whose player has no row in [ledger]. *)
Definition no_score_ids (ledger : list score_row)
           (players_sheet : list (list string)) : list Z :=
  flat_map (fun entry =>
              match entry with
              | first :: _ :: _ =>
                  match py_int first with
                  | Some player_id =>
                      if existsb (fun s => (sr_player_id s =? player_id)%Z) ledger
                      then [] else [player_id]
                  | None => []
                  end
              | _ => []
              end)
           players_sheet.
End Sheets.

(* ================================================================== *)
(** * A small sheet to import *)

Module Sheet.
#[local] Open Scope string_scope.

Definition digit (c : Ascii.ascii) : option Z :=
  let n := Ascii.nat_of_ascii c in
  if ((48 <=? n) && (n <=? 57))%nat then Some (Z.of_nat (n - 48)) else None.

Fixpoint digits (s : string) (acc : Z) : option Z :=
  match s with
  | EmptyString => Some acc
  | String c rest =>
      match digit c with
      | Some k => digits rest (10 * acc + k)%Z
      | None => None
      end
  end.

(** Decimal numerals, a part of what Python's [int] reads. *)
Definition int (s : string) : option Z :=
  match s with
  | EmptyString => None
  | String c rest =>
      if Ascii.eqb c (Ascii.ascii_of_nat 45)       (* the sign [-] *)
      then match rest with
           | EmptyString => None
           | _ => option_map Z.opp (digits rest 0)
           end
      else digits s 0
  end.

Definition CHARACTERS : list string := ["Yoshi"; "Peach"; "Luigi"].

(** Two rounds of player 7 and one of player 9. *)
Definition rounds : list (list string) :=
  [ ["10"; "1"; "7"; "Yoshi"; "2"];
    ["20"; "2"; "7"; "Peach"; "-1"];
    ["15"; "12"; "9"; "Luigi"; "4"] ].

(** The second row lacks its score. *)
Definition short_rounds : list (list string) :=
  [ ["10"; "1"; "7"; "Yoshi"; "2"];
    ["20"; "2"; "7"; "Peach"] ].

(** Every row is accepted by [check_row_valid], yet the second score is no
    number. *)
Definition unread_rounds : list (list string) :=
  [ ["10"; "1"; "7"; "Yoshi"; "2"];
    ["20"; "2"; "7"; "Peach"; "two"] ].

(** Player 7 is named, player 8 is named and has no round, player 9 has no
    name. *)
Definition names : list (list string) :=
  [ ["7"; "ann"]; ["8"; "eve"]; ["9"] ].

(** Twelve courses, the index of course [i] being [i / 2]. *)
Definition courses : list course_row :=
  map (fun i => CourseRow (Z.of_nat i) "Course" "Nine" (Z.of_nat i # 2))
      (seq 1 12).

Definition store : db :=
  Db [Sample.pending] Sample.scores [PlayerRow 7 "old" 1000] courses 6.
End Sheet.

(* ================================================================== *)
(** * The script [get_scores_from_players_with_n_rounds.py] *)

(** The [WHERE] clause of the script's query on a player, with the current
    value of [num_required_scores]. *)
Definition eligible_with (num_required_scores : nat) (d : db) (player_id : Z)
  : bool :=
  (length
     (nodup Z.eq_dec
        (map co_course_id
           (filter (fun c => (num_required_scores
                                <=? rounds_on d player_id (co_course_id c))%nat)
                   (courses d))))
   =? length (courses d))%nat.

(** The script's query. *)
Definition q_scores_with (num_required_scores : nat) (d : db)
  : list (Z * Z * Z * Z) :=
  map (fun s => (sr_player_id s, sr_course_id s, sr_timestamp s, sr_score s))
      (filter (fun s =>
                 existsb (fun p => (pl_discord_id p =? sr_player_id s)%Z
                                   && eligible_with num_required_scores d
                                        (pl_discord_id p))
                         (players d))
              (scores d)).

(** [scores[-n:]] for a variable [n]: all of [scores] when [n] is 0. *)
Definition last_scores {A} (n : nat) (scores : list A) : list A :=
  if (n =? 0)%nat then scores else Py.tail n scores.

(** [calculate_average_scores]; [get_player_data] is [player_data]. *)
Definition calculate_average_scores (num_required_scores : nat)
           (data : Py.dict Z (list (Z * Z * Z))) : result (Py.dict Z Q) :=
  player_course_averages <~
    foldM (fun averages item =>
             let '(player_id, rounds) := item in
             course_averages <~
               foldM (fun averages item' =>
                        let '(course_id, scores) := item' in
                        let recent_scores :=
                          last_scores num_required_scores scores in
                        average_score <~
                          py_div (inject_Z (fold_left Z.add recent_scores 0%Z))
                                 (Py.len recent_scores) ;;
                        Ok (Py.set Z.eqb averages course_id average_score))
                     (course_scores rounds) [] ;;
             Ok (Py.set Z.eqb averages player_id course_averages))
          data [] ;;
  final_averages (course_averages_by_player player_course_averages).

(** What one turn of the loop prints. *)
Record report := Report {
  rp_required_scores : nat;
  rp_players : nat;
  rp_scores_per_course : nat;
  rp_overall_average : Q;
  rp_indices : list (string * string * Q)     (* course, nine, differential *)
}.

Section Script.
Variables COURSES NINES : list string.

(** The body of the loop after the [break]. *)
Definition script_report (num_required_scores : nat)
           (scores : list (Z * Z * Z * Z)) : result report :=
  let data := player_data scores in
  averages <~ calculate_average_scores num_required_scores data ;;
  overall_avg <~ py_div (Py.sum (Py.values averages)) (Py.len averages) ;;
  let differentials :=
    fold_left (fun differentials item =>
                 let '(course, course_avg) := item in
                 Py.set Z.eqb differentials course (course_avg - overall_avg))
              averages [] in
  let sorted_courses := Py.sort_by Z.ltb (fun k => k) (Py.keys differentials) in
  indices <~ mapM (fun course_id =>
                     nine <~ nine_label NINES course_id ;;
                     course <~ course_label COURSES NINES course_id ;;
                     match Py.get Z.eqb differentials course_id with
                     | Some diff => Ok (course, nine, diff)
                     | None => Raise IndexError   (* not met: it is a key *)
                     end)
                  sorted_courses ;;
  Ok (Report num_required_scores (length data)
             (num_required_scores * length data) overall_avg indices).

(** [while True]: [None] when the loop is still running after [fuel] turns,
    else what it has printed when it left through [break]. *)
Fixpoint scores_script (fuel num_required_scores : nat) (printed : list report)
  : M (option (list report)) :=
  match fuel with
  | O => ret None
  | S fuel' =>
      scores <- select (q_scores_with num_required_scores) ;;
      match scores with
      | [] => ret (Some printed)
      | _ :: _ =>
          printed_now <- lift (script_report num_required_scores scores) ;;
          scores_script fuel' (S num_required_scores) (printed ++ [printed_now])
      end
  end.
End Script.

(* ================================================================== *)
(** * Tables posted on request ([get_top_10_table],
      [get_difficulty_indices_table]) *)

Inductive ranking_response :=
| NoAnswer                 (* the error is printed, nothing is posted *)
| NoRankedPlayers          (* "No players are currently ranked." *)
| RankingTable (rows : list (nat * string * string)).

Section Tables.
Variable INVALID_RATING : Q.
Variable COURSES : list string.
(** [f"{x:.2f}"]. *)
Variable two_decimals : Q -> string.

Definition get_top_10_table : M ranking_response :=
  player_data <- catch (rows <- select players ;; ret (Some rows))
                       (fun _ => ret None) ;;
  match player_data with
  | None => ret NoAnswer
  | Some player_data =>
      let rated_players :=
        map (fun p => (pl_player_name p, pl_rating p))
            (filter (fun p => negb (Qeq_bool (pl_rating p) INVALID_RATING))
                    player_data) in
      match rated_players with
      | [] => ret NoRankedPlayers
      | _ :: _ =>
          let rated_players := Py.sort_by Qlt_bool snd rated_players in
          let rankings_sheet :=
            map (fun x => (fst x, fst (snd x), two_decimals (snd (snd x))))
                (combine (seq 1 (length rated_players)) rated_players) in
          ret (RankingTable (firstn 10 rankings_sheet))
      end
  end.

(** The rows of the table "Course Difficulty Indices"; nothing is caught. *)
Definition get_difficulty_indices_table : M (list (string * string * string)) :=
  difficulty_indices <- get_difficulty_indices ;;
  lift (mapM (fun course_id =>
                course <~ index_or_raise COURSES (Z.of_nat course_id) ;;
                front_9_index <~ index_or_raise difficulty_indices
                                   (Z.of_nat course_id * 2) ;;
                back_9_index <~ index_or_raise difficulty_indices
                                  (Z.of_nat course_id * 2 + 1) ;;
                Ok (course, two_decimals front_9_index,
                    two_decimals back_9_index))
             (seq 0 (length COURSES))).
End Tables.

(* ================================================================== *)
(** * The profile ([get_player_profile]) *)

(** The argument [player_id] as the command tells it apart: left out, not
    made of digits, or digits that the database reads as a number. *)
Inductive requested :=
| NotGiven
| NotDigits
| Digits (player_id : Z).

Inductive profile_response :=
| MustBeInteger           (* "Player ID must be an integer." *)
| PlayerNotFound          (* "Player not found." *)
| Profile (player_name rating_str : string)
          (top_characters : list (nat * string * string))
          (course_averages : list (list string)).

(** [SELECT player_name, rating FROM players WHERE discord_id = %s]. *)
Definition q_player (player_id : Z) (d : db) : list (string * Q) :=
  map (fun p => (pl_player_name p, pl_rating p))
      (filter (fun p => (pl_discord_id p =? player_id)%Z) (players d)).

(** [SELECT course_id, character, score FROM scores WHERE player_id = %s
    ORDER BY timestamp DESC]; rows of equal timestamp in table order. *)
Definition q_profile_scores (player_id : Z) (d : db) : list (Z * string * Z) :=
  map (fun s => (sr_course_id s, sr_character s, sr_score s))
      (Py.sort_by Z.gtb sr_timestamp
         (filter (fun s => (sr_player_id s =? player_id)%Z) (scores d))).

(** [character_stats], a [defaultdict(int)]. *)
Definition character_stats (result : list (Z * string * Z))
  : Py.dict string nat :=
  fold_left (fun stats row =>
               let '(_, character, _) := row in
               Py.upd String.eqb stats character
                      (fun o => match o with Some n => n | None => O end + 1)%nat)
            result [].

(** [scores_dict]. *)
Definition scores_dict (result : list (Z * string * Z)) : Py.dict Z (list Z) :=
  fold_left (fun dct row =>
               let '(course_id, _, score) := row in
               match Py.get Z.eqb dct course_id with
               | Some _ => Py.append_to dct course_id score
               | None => Py.set Z.eqb dct course_id [score]
               end)
            result [].

(** [character_percentages]. *)
Definition character_percentages (stats : Py.dict string nat) (total_scores : nat)
  : result (Py.dict string Q) :=
  mapM (fun item =>
          let '(char, count) := item in
          share <~ py_div (inject_Z (Z.of_nat count))
                          (inject_Z (Z.of_nat total_scores)) ;;
          Ok (char, share * 100))
       stats.

(** [sorted(..., key=lambda item: item[1], reverse=True)[:3]]. *)
Definition top_characters (percentages : Py.dict string Q) : Py.dict string Q :=
  firstn 3 (Py.sort_by (fun a b => Qlt_bool b a) snd percentages).

Section Profile.
Variable INVALID_RATING : Q.
Variables COURSES NINES : list string.
(** [f"{x:.2f}"], and the sign put before an average of zero. *)
Variable two_decimals : Q -> string.
Variable plus_minus : string.

(** [average_dict[course_id]], from the scores of one course. *)
Definition average_str (scores : list Z) : result string :=
  average <~ py_div (inject_Z (fold_left Z.add scores 0%Z)) (Py.len scores) ;;
  let average_str := two_decimals average in
  Ok (if Qeq_bool average 0 then (plus_minus ++ average_str)%string
      else if Qlt_bool 0 average then ("+" ++ average_str)%string
           else average_str).

Definition get_player_profile (player_id : requested) (author_id : Z)
  : M profile_response :=
  match player_id with
  | NotDigits => ret MustBeInteger
  | _ =>
      let player_id := match player_id with
                       | Digits n => n
                       | _ => author_id
                       end in
      result <- select (q_player player_id) ;;
      match result with
      | [] => ret PlayerNotFound
      | (player_name, player_rating) :: _ =>
          result <- select (q_profile_scores player_id) ;;
          let stats := character_stats result in
          let total_scores := length result in
          percentages <- lift (character_percentages stats total_scores) ;;
          let top_characters_list :=
            map (fun x => ((fst x + 1)%nat, fst (snd x),
                           two_decimals (snd (snd x))))
                (combine (seq 0 (length (top_characters percentages)))
                         (top_characters percentages)) in
          average_dict <- lift (foldM (fun averages item =>
                                         let '(course_id, scores) := item in
                                         average <~ average_str scores ;;
                                         Ok (Py.set Z.eqb averages course_id
                                                    average))
                                      (scores_dict result) []) ;;
          rows <- lift (profile_rows COURSES NINES average_dict) ;;
          let rating_str :=
            if negb (Qeq_bool player_rating INVALID_RATING)
            then two_decimals player_rating else "NR"%string in
          ret (Profile player_name rating_str top_characters_list rows)
      end
  end.
End Profile.

(** The share, in percent, of a character among a player's rounds. *)
Definition usage (d : db) (player_id : Z) (character : string) : Q :=
  inject_Z (Z.of_nat (length (filter (fun s => (sr_player_id s =? player_id)%Z
                                               && String.eqb (sr_character s)
                                                             character)
                                     (scores d))))
  / inject_Z (Z.of_nat (length (filter (fun s => (sr_player_id s =? player_id)%Z)
                                       (scores d))))
  * 100.

(** A player's raw scores on a course, newest first. *)
Definition profile_scores_on (d : db) (player_id course_id : Z) : list Z :=
  map sr_score
      (Py.sort_by Z.gtb sr_timestamp
         (filter (fun s => ((sr_player_id s =? player_id)
                            && (sr_course_id s =? course_id))%Z)
                 (scores d))).

(* ================================================================== *)
(** * The table of recent scores ([get_recent_score_table]) *)

Inductive recent_response :=
| RecentMustBeInteger      (* "Player ID must be an integer." *)
| RecentPlayerNotFound     (* "Player not found." *)
| RecentTable (player_name : string) (rows : list (list string)).

(** [SELECT player_name FROM players WHERE discord_id = %s]. *)
Definition q_player_name (player_id : Z) (d : db) : list string :=
  map pl_player_name
      (filter (fun p => (pl_discord_id p =? player_id)%Z) (players d)).

(** A row of the join: timestamp, course id, character, score, difficulty
    index, adjusted score, rating. *)
Record recent_row := RecentRow {
  rr_timestamp : Z;
  rr_course_id : Z;
  rr_character : string;
  rr_score : Z;
  rr_difficulty_index : Q;
  rr_adjusted_score : Q;
  rr_rating : option Q
}.

(** [SELECT ... FROM scores s JOIN courses c ON s.course_id = c.course_id
    WHERE player_id = %s], the rows in the order of the scores table. *)
Definition q_recent (player_id : Z) (d : db) : list recent_row :=
  flat_map (fun s =>
              map (fun c => RecentRow (sr_timestamp s) (sr_course_id s)
                                      (sr_character s) (sr_score s)
                                      (co_difficulty_index c)
                                      (sr_adjusted_score s) (sr_rating s))
                  (filter (fun c => (co_course_id c =? sr_course_id s)%Z)
                          (courses d)))
           (filter (fun s => (sr_player_id s =? player_id)%Z) (scores d)).

(** A list comprehension or loop whose body may raise. *)
Fixpoint outcomes {A B} (f : A -> outcome B) (l : list A) : outcome (list B) :=
  match l with
  | [] => Returns []
  | x :: t =>
      match f x with
      | Throws e => Throws e
      | Returns y =>
          match outcomes f t with
          | Throws e => Throws e
          | Returns ys => Returns (y :: ys)
          end
      end
  end.

Section Recent.
Variable INVALID_RATING : Q.
Variables COURSES NINES : list string.
(** [f"{x:.2f}"], [str] of an integer, the sign put before a score of zero,
    and [datetime.fromtimestamp(timestamp).strftime("%Y-%m-%d")] for a
    timestamp in the range of the platform. *)
Variable two_decimals : Q -> string.
Variable str_int : Z -> string.
Variable plus_minus : string.
Variable formatted_date : Z -> string.

(** The body of the loop over the 40 rows. *)
Definition recent_entry (row : recent_row) : outcome (list string) :=
  match nine_label NINES (rr_course_id row) with
  | Raise e => Throws (Builtin e)
  | Ok nine =>
      match course_label COURSES NINES (rr_course_id row) with
      | Raise e => Throws (Builtin e)
      | Ok course =>
          let score_str := str_int (rr_score row) in
          let score_str :=
            if (rr_score row =? 0)%Z then (plus_minus ++ score_str)%string
            else if (0 <? rr_score row)%Z then ("+" ++ score_str)%string
                 else score_str in
          match rr_rating row with
          | None => Throws TypeError    (* [f"{None:.2f}"] *)
          | Some rating =>
              let rating_str :=
                if negb (Qeq_bool rating INVALID_RATING)
                then two_decimals rating else "NR"%string in
              Returns [formatted_date (rr_timestamp row);
                       (course ++ " (" ++ nine ++ ")")%string;
                       rr_character row;
                       score_str;
                       two_decimals (rr_difficulty_index row);
                       two_decimals (rr_adjusted_score row);
                       rating_str]
          end
      end
  end.

Definition get_recent_score_table (player_id : requested) (author_id : Z)
  : C recent_response :=
  match player_id with
  | NotDigits => c_ret RecentMustBeInteger
  | _ =>
      let player_id := match player_id with
                       | Digits n => n
                       | _ => author_id
                       end in
      (result <- of_M (select (q_player_name player_id)) ;;
       match result with
       | [] => c_ret RecentPlayerNotFound
       | player_name :: _ =>
           result <- of_M (select (q_recent player_id)) ;;
           let result := Py.sort_by Z.gtb rr_timestamp result in
           recent_scores_table_data <-
             of_outcome (outcomes recent_entry (firstn 40 result)) ;;
           c_ret (RecentTable player_name recent_scores_table_data)
       end)%cmd
  end.
End Recent.

(** A round the table can show: it has a rating, and its course id is one
    of [1 .. 2 * len(COURSES)]. *)
Definition shown_round (COURSES : list string) (row : recent_row) : Prop :=
  rr_rating row <> None
  /\ (1 <= rr_course_id row <= 2 * Z.of_nat (length COURSES))%Z.

(* ================================================================== *)
(** * Properties *)

(** ** Sums and means *)

Lemma fold_left_Qplus_acc (l : list Q) (a : Q) :
  fold_left Qplus l a == a + total l.
Proof.
  revert a; induction l as [|x l IH]; intro a; simpl.
  - ring.
  - rewrite IH. ring.
Qed.

Lemma py_sum_total (l : list Q) : Py.sum l == total l.
Proof. unfold Py.sum. rewrite fold_left_Qplus_acc. ring. Qed.

Lemma py_tail_length {A} (n : nat) (l : list A) :
  (n <= length l)%nat -> length (Py.tail n l) = n.
Proof. intro H. unfold Py.tail. rewrite length_skipn. lia. Qed.

Lemma py_tail_split {A} (n : nat) (l : list A) :
  l = firstn (length l - n) l ++ Py.tail n l.
Proof. unfold Py.tail. symmetry. apply firstn_skipn. Qed.

(** ** The rating function *)

(** C1. The rating of fewer than 6 scores is the stored sentinel
    [INVALID_RATING]; from 6 to 39 scores it is the arithmetic mean of all
    of them; from 40 scores on it is the arithmetic mean of the last 40,
    the scores before them playing no part. *)
Theorem calculate_player_rating_cases (INVALID_RATING : Q) (scores : list Q) :
  ((length scores < 6)%nat ->
     calculate_player_rating INVALID_RATING scores = INVALID_RATING) /\
  ((6 <= length scores < 40)%nat ->
     calculate_player_rating INVALID_RATING scores == mean scores) /\
  ((40 <= length scores)%nat ->
     calculate_player_rating INVALID_RATING scores == mean (Py.tail 40 scores)
     /\ length (Py.tail 40 scores) = 40%nat
     /\ exists older, scores = older ++ Py.tail 40 scores).
Proof.
  unfold calculate_player_rating, MIN_REQUIRED_SCORES, ROLLING_AVERAGE_WINDOW.
  repeat split.
  - intro H. apply Nat.ltb_lt in H. now rewrite H.
  - intros [H6 H40].
    apply Nat.ltb_ge in H6. apply Nat.ltb_lt in H40. rewrite H6, H40.
    unfold mean, Py.len. now rewrite py_sum_total.
  - assert (H6 : (length scores <? 6)%nat = false) by (apply Nat.ltb_ge; lia).
    assert (H40 : (length scores <? 40)%nat = false) by (now apply Nat.ltb_ge).
    rewrite H6, H40. unfold mean.
    rewrite (py_tail_length 40 scores H). now rewrite py_sum_total.
  - now apply py_tail_length.
  - eexists. apply py_tail_split.
Qed.

(** Six level-par rounds rate 0; five rounds do not rate; of 45 rounds
    only the last 40 count. *)
Lemma calculate_player_rating_cases_witness :
  calculate_player_rating 1000 [0; 1; 2; -1; 1 # 2] = 1000 /\
  calculate_player_rating 1000 [0; 0; 0; 0; 0; 0] == mean [0; 0; 0; 0; 0; 0] /\
  calculate_player_rating 1000 (repeat 7 5 ++ repeat 1 40)
    == mean (Py.tail 40 (repeat 7 5 ++ repeat 1 40)).
Proof.
  split; [|split].
  - apply (proj1 (calculate_player_rating_cases 1000 [0; 1; 2; -1; 1 # 2])).
    simpl; lia.
  - apply (proj1 (proj2 (calculate_player_rating_cases 1000 [0; 0; 0; 0; 0; 0]))).
    simpl; lia.
  - apply (proj2 (proj2 (calculate_player_rating_cases 1000
                           (repeat 7 5 ++ repeat 1 40)))).
    simpl; lia.
Defined.

(** ** Replay *)

Lemma set_at_length {A} (l : list A) (i : nat) (f : A -> A) :
  length (Py.set_at l i f) = length l.
Proof.
  revert i; induction l as [|x l IH]; intros [|i]; simpl; auto.
Qed.

Lemma set_at_nth_error {A} (l : list A) (i j : nat) (f : A -> A) :
  nth_error (Py.set_at l i f) j =
  if (i =? j)%nat then option_map f (nth_error l j) else nth_error l j.
Proof.
  revert i j; induction l as [|x l IH]; intros [|i] [|j]; simpl; auto.
  now destruct (i =? j)%nat.
Qed.

Lemma set_at_adjusted (es : list rating_entry) (i : nat) (r : Q) :
  map re_adjusted_score (Py.set_at es i (set_re_rating r)) =
  map re_adjusted_score es.
Proof.
  revert i; induction es as [|e es IH]; intros [|i]; simpl; auto.
  now rewrite IH.
Qed.

Lemma firstn_map {A B} (f : A -> B) (n : nat) (l : list A) :
  firstn n (map f l) = map f (firstn n l).
Proof.
  revert l; induction n as [|n IH]; intros [|x l]; simpl; auto.
  now rewrite IH.
Qed.

Lemma replay_step_adjusted (INVALID_RATING : Q) (es : list rating_entry) (i : nat) :
  map re_adjusted_score (replay_step INVALID_RATING es i) =
  map re_adjusted_score es.
Proof. apply set_at_adjusted. Qed.

Lemma replay_step_length (INVALID_RATING : Q) (es : list rating_entry) (i : nat) :
  length (replay_step INVALID_RATING es i) = length es.
Proof. apply set_at_length. Qed.

Lemma replay_step_nth_error (INVALID_RATING : Q)
      (es : list rating_entry) (i j : nat) :
  nth_error (replay_step INVALID_RATING es i) j =
  if (i =? j)%nat
  then option_map
         (set_re_rating
            (calculate_player_rating INVALID_RATING
               (firstn (i + 1) (map re_adjusted_score es))))
         (nth_error es j)
  else nth_error es j.
Proof.
  unfold replay_step. rewrite set_at_nth_error. now rewrite firstn_map.
Qed.

(** State of the entries after the first [n] turns of the loop. *)
Lemma replay_prefix_invariant (INVALID_RATING : Q)
      (es : list rating_entry) (n : nat) :
  let es' := fold_left (replay_step INVALID_RATING) (seq 0 n) es in
  map re_adjusted_score es' = map re_adjusted_score es /\
  length es' = length es /\
  forall j,
    nth_error es' j =
    if (j <? n)%nat
    then option_map
           (set_re_rating
              (calculate_player_rating INVALID_RATING
                 (firstn (j + 1) (map re_adjusted_score es))))
           (nth_error es j)
    else nth_error es j.
Proof.
  cbv zeta. induction n as [|n IH].
  - simpl. repeat split; auto.
  - rewrite seq_S, fold_left_app. simpl.
    destruct IH as (Hadj & Hlen & Hnth).
    rewrite replay_step_adjusted, replay_step_length. repeat split; auto.
    intro j. rewrite replay_step_nth_error, Hnth, Hadj.
    destruct (Nat.eqb_spec n j) as [->|Hne].
    + rewrite Nat.ltb_irrefl.
      replace (j <? S j)%nat with true by (symmetry; apply Nat.ltb_lt; lia).
      reflexivity.
    + destruct (Nat.ltb_spec j n) as [Hlt|Hge].
      * replace (j <? S n)%nat with true by (symmetry; apply Nat.ltb_lt; lia).
        reflexivity.
      * replace (j <? S n)%nat with false by (symmetry; apply Nat.ltb_ge; lia).
        reflexivity.
Qed.

Lemma replay_nth_rating (INVALID_RATING : Q) (es : list rating_entry) (j : nat) :
  (j < length es)%nat ->
  option_map re_rating (nth_error (replay INVALID_RATING es) j) =
  Some (calculate_player_rating INVALID_RATING
          (firstn (j + 1) (map re_adjusted_score es))).
Proof.
  intro Hj. unfold replay.
  destruct (replay_prefix_invariant INVALID_RATING es (length es)) as (_ & _ & H).
  rewrite H. apply Nat.ltb_lt in Hj as Hb. rewrite Hb.
  destruct (nth_error es j) eqn:E; [reflexivity|].
  apply nth_error_None in E. lia.
Qed.

(** C2. After the replay loop, the round at position [k-1] carries the
    rating of the first [k] adjusted scores; the last round carries the
    rating of the whole sequence; and the value at position [k-1] is the
    same for any other history that agrees on the first [k] scores. *)
Theorem replay_is_rating_of_prefix (INVALID_RATING : Q)
        (es : list rating_entry) (k : nat) :
  (1 <= k <= length es)%nat ->
  option_map re_rating (nth_error (replay INVALID_RATING es) (k - 1)) =
    Some (calculate_player_rating INVALID_RATING
            (firstn k (map re_adjusted_score es)))
  /\ option_map re_rating
       (nth_error (replay INVALID_RATING es) (length es - 1)) =
     Some (calculate_player_rating INVALID_RATING (map re_adjusted_score es))
  /\ forall es' : list rating_entry,
       (k <= length es')%nat ->
       firstn k (map re_adjusted_score es') =
       firstn k (map re_adjusted_score es) ->
       option_map re_rating (nth_error (replay INVALID_RATING es') (k - 1)) =
       option_map re_rating (nth_error (replay INVALID_RATING es) (k - 1)).
Proof.
  intros [H1 Hk].
  assert (Hat : forall l : list rating_entry, (k <= length l)%nat ->
            option_map re_rating (nth_error (replay INVALID_RATING l) (k - 1)) =
            Some (calculate_player_rating INVALID_RATING
                    (firstn k (map re_adjusted_score l)))).
  { intros l Hl. rewrite replay_nth_rating by lia.
    now replace (k - 1 + 1)%nat with k by lia. }
  split; [|split].
  - now apply Hat.
  - rewrite replay_nth_rating by lia.
    replace (length es - 1 + 1)%nat with (length es) by lia.
    rewrite <- (length_map re_adjusted_score es). now rewrite firstn_all.
  - intros es' Hk' Heq. rewrite (Hat es' Hk'), (Hat es Hk). now rewrite Heq.
Qed.

(** The sixth of seven rounds: its rating is that of the first six scores. *)
Lemma replay_is_rating_of_prefix_witness :
  option_map re_rating (nth_error (replay 1000 Sample.entries) 5) =
    Some (calculate_player_rating 1000 [0; 1; 2; -1; 1 # 2; 3 # 2])
  /\ option_map re_rating (nth_error (replay 1000 Sample.entries) 6) =
     Some (calculate_player_rating 1000 [0; 1; 2; -1; 1 # 2; 3 # 2; 5])
  /\ forall es' : list rating_entry,
       (6 <= length es')%nat ->
       firstn 6 (map re_adjusted_score es') = [0; 1; 2; -1; 1 # 2; 3 # 2] ->
       option_map re_rating (nth_error (replay 1000 es') 5) =
       option_map re_rating (nth_error (replay 1000 Sample.entries) 5).
Proof.
  apply (replay_is_rating_of_prefix 1000 Sample.entries 6). simpl. lia.
Defined.

(* ------------------------------------------------------------------ *)
(** ** The stable sort *)

Section SortFacts.
Context {A K : Type} (ltb : K -> K -> bool) (key : A -> K).

Lemma insert_perm (x : A) (l : list A) :
  Permutation (Py.insert ltb key x l) (x :: l).
Proof.
  induction l as [|y t IH]; simpl; [reflexivity|].
  destruct (ltb (key y) (key x)); [|reflexivity].
  rewrite IH. apply perm_swap.
Qed.

Lemma sort_by_perm (l : list A) : Permutation (Py.sort_by ltb key l) l.
Proof.
  induction l as [|x t IH]; simpl; [reflexivity|].
  rewrite insert_perm. now constructor.
Qed.

Lemma sort_by_length (l : list A) :
  length (Py.sort_by ltb key l) = length l.
Proof. apply Permutation_length, sort_by_perm. Qed.

Lemma sort_by_In (l : list A) (x : A) :
  In x (Py.sort_by ltb key l) <-> In x l.
Proof.
  split; apply Permutation_in; [|symmetry]; apply sort_by_perm.
Qed.

Lemma insert_in_front (x : A) (l : list A) :
  Forall ((Py.in_order ltb key) x) l -> Py.insert ltb key x l = x :: l.
Proof.
  intros H. destruct l as [|y t]; [reflexivity|].
  simpl. inversion H as [|? ? Hy _]; subst.
  unfold Py.in_order in Hy. now rewrite Hy.
Qed.

Lemma sort_by_sorted_id (l : list A) :
  StronglySorted (Py.in_order ltb key) l -> Py.sort_by ltb key l = l.
Proof.
  induction 1 as [|x t Hs IH Hx]; simpl; [reflexivity|].
  rewrite IH. now apply insert_in_front.
Qed.

Hypothesis ltb_asym : forall a b, ltb a b = true -> ltb b a = false.
Hypothesis ltb_trans :
  forall a b c, ltb b a = false -> ltb c b = false -> ltb c a = false.

Lemma insert_sorted (x : A) (l : list A) :
  StronglySorted (Py.in_order ltb key) l ->
  StronglySorted (Py.in_order ltb key) (Py.insert ltb key x l).
Proof.
  induction 1 as [|y t Hs IH Hy]; simpl.
  - repeat constructor.
  - destruct (ltb (key y) (key x)) eqn:E.
    + constructor; [exact IH|].
      eapply Permutation_Forall; [symmetry; apply insert_perm|].
      constructor; [|exact Hy]. now apply ltb_asym.
    + constructor; [now constructor|].
      constructor; [exact E|].
      eapply Forall_impl; [|exact Hy].
      intros z Hz. unfold Py.in_order in *. eapply ltb_trans; eauto.
Qed.

Lemma sort_by_sorted (l : list A) :
  StronglySorted (Py.in_order ltb key) (Py.sort_by ltb key l).
Proof.
  induction l as [|x t IH]; simpl; [constructor|].
  now apply insert_sorted.
Qed.

Lemma filter_insert (p : A -> bool) (x : A) (l : list A) :
  StronglySorted (Py.in_order ltb key) l ->
  filter p (Py.insert ltb key x l) =
  if p x then Py.insert ltb key x (filter p l) else filter p l.
Proof.
  induction 1 as [|y t Hs IH Hy]; simpl.
  - now destruct (p x).
  - destruct (ltb (key y) (key x)) eqn:E; simpl.
    + rewrite IH. destruct (p y), (p x); simpl; try reflexivity.
      now rewrite E.
    + destruct (p x) eqn:Px; [|reflexivity].
      destruct (p y) eqn:Py; simpl.
      * now rewrite E.
      * symmetry. apply insert_in_front.
        apply incl_Forall with (l1 := t); [apply incl_filter|].
        eapply Forall_impl; [|exact Hy].
        intros z Hz. unfold Py.in_order in *. eapply ltb_trans; eauto.
Qed.

(** Selecting rows commutes with sorting them: the sort is stable. *)
Lemma filter_sort_by (p : A -> bool) (l : list A) :
  filter p (Py.sort_by ltb key l) = Py.sort_by ltb key (filter p l).
Proof.
  induction l as [|x t IH]; simpl; [reflexivity|].
  rewrite filter_insert by apply sort_by_sorted.
  rewrite IH. now destruct (p x).
Qed.
End SortFacts.

Lemma Zltb_asym (a b : Z) : (a <? b)%Z = true -> (b <? a)%Z = false.
Proof. intro H. apply Z.ltb_lt in H. apply Z.ltb_ge. lia. Qed.

Lemma Zltb_trans (a b c : Z) :
  (b <? a)%Z = false -> (c <? b)%Z = false -> (c <? a)%Z = false.
Proof. rewrite !Z.ltb_ge. lia. Qed.

(* ------------------------------------------------------------------ *)
(** ** Verification workflow *)

Lemma index_numbered {A} (l : list A) (f : A -> Z) (x : A) :
  map f l = map Z.of_nat (seq 1 (length l)) ->
  In x l ->
  Py.index l (f x - 1) = Some x.
Proof.
  intros Hnum Hin.
  destruct (In_nth_error _ _ Hin) as [i Hi].
  assert (Hlt : (i < length l)%nat) by (apply nth_error_Some; rewrite Hi; discriminate).
  assert (Hf : f x = Z.of_nat (S i)).
  { pose proof (map_nth_error f _ _ Hi) as H1. rewrite Hnum in H1.
    rewrite nth_error_map, nth_error_seq in H1.
    apply Nat.ltb_lt in Hlt. rewrite Hlt in H1. simpl in H1.
    injection H1 as <-. reflexivity. }
  unfold Py.index. rewrite Hf.
  replace (0 <=? Z.of_nat (S i) - 1)%Z with true by (symmetry; apply Z.leb_le; lia).
  replace (Z.to_nat (Z.of_nat (S i) - 1)) with i by lia.
  exact Hi.
Qed.

Lemma roster_index (d : db) (c : course_row) :
  roster_numbered d ->
  In c (courses d) ->
  index_or_raise (q_difficulty_indices d) (co_course_id c - 1) =
  Ok (co_difficulty_index c).
Proof.
  intros Hnum Hin. unfold index_or_raise, q_difficulty_indices.
  set (sorted := Py.sort_by Z.ltb co_course_id (courses d)) in *.
  assert (Hc : Py.index sorted (co_course_id c - 1) = Some c).
  { apply index_numbered.
    - unfold roster_numbered in Hnum. fold sorted in Hnum.
      unfold sorted at 2. now rewrite sort_by_length.
    - now apply sort_by_In. }
  unfold Py.index in *. rewrite length_map.
  destruct (0 <=? co_course_id c - 1)%Z.
  - rewrite nth_error_map, Hc. reflexivity.
  - destruct (- Z.of_nat (length sorted) <=? co_course_id c - 1)%Z.
    + rewrite nth_error_map, Hc. reflexivity.
    + discriminate.
Qed.

(** The run of [verify_score] by a moderator, call by call, for any oracle
    of storage failures. *)
Lemma verify_score_run (INVALID_RATING : Q) (hash : string)
      (d : db) (f : nat -> bool) :
  run (verify_score INVALID_RATING true hash) f d =
  if f 0%nat || q_queue_empty d then (Ok QueueEmpty, d)
  else
    match (if f 1%nat then None else hd_error (q_pending_round hash d)) with
    | None => (Ok IdNotFound, d)
    | Some p =>
        match index_or_raise (if f 2%nat then [] else q_difficulty_indices d)
                             (pr_course_id p - 1) with
        | Raise e => (Ok (ErrorMsg e), d)
        | Ok difficulty_index =>
            let d1 := q_insert_score (pr_timestamp p) (pr_course_id p)
                        (pr_player_id p) (pr_character p) (pr_score p)
                        (inject_Z (pr_score p) - difficulty_index) d in
            let d2 := q_delete_pending hash d1 in
            let new_rating :=
              calculate_player_rating INVALID_RATING
                (q_player_adjusted_scores (pr_player_id p) d2) in
            let d3 := q_update_rating new_rating (pr_player_id p)
                        (pr_timestamp p) d2 in
            let d4 := q_upsert_player (pr_player_id p) (pr_player_name p)
                        new_rating d3 in
            if f 3%nat then (Ok (ErrorMsg StorageError), d)
            else if f 4%nat then (Ok (ErrorMsg StorageError), d1)
            else if f 5%nat then (Ok (ErrorMsg StorageError), d2)
            else if f 6%nat then (Ok (ErrorMsg StorageError), d2)
            else if f 7%nat then (Ok (ErrorMsg StorageError), d3)
            else (Ok (Submitted hash), d4)
        end
    end.
Proof.
  cbv [run verify_score is_queue_empty get_pending_round
       get_difficulty_indices select execute db_call catch bind ret lift
       negb faults calls store].
  destruct (f 0%nat); [reflexivity|].
  destruct (q_queue_empty d); [reflexivity|]. cbn [orb].
  destruct (f 1%nat); [reflexivity|].
  destruct (hd_error (q_pending_round hash d)) as [p|]; [|reflexivity].
  destruct (f 2%nat);
    (match goal with
     |- context [index_or_raise ?l ?i] => destruct (index_or_raise l i)
     end; [|reflexivity]);
    (destruct (f 3%nat); [reflexivity|]);
    (destruct (f 4%nat); [reflexivity|]);
    (destruct (f 5%nat); [reflexivity|]);
    (destruct (f 6%nat); [reflexivity|]);
    (destruct (f 7%nat); reflexivity).
Qed.

Lemma insert_map {A K} (ltb : K -> K -> bool) (key : A -> K) (g : A -> A)
      (x : A) (l : list A) :
  (forall y, key (g y) = key y) ->
  Py.insert ltb key (g x) (map g l) = map g (Py.insert ltb key x l).
Proof.
  intro Hg. induction l as [|y t IH]; simpl; [reflexivity|].
  rewrite !Hg. destruct (ltb (key y) (key x)); simpl; [|reflexivity].
  now rewrite IH.
Qed.

Lemma sort_by_map {A K} (ltb : K -> K -> bool) (key : A -> K) (g : A -> A)
      (l : list A) :
  (forall y, key (g y) = key y) ->
  Py.sort_by ltb key (map g l) = map g (Py.sort_by ltb key l).
Proof.
  intro Hg. induction l as [|x t IH]; simpl; [reflexivity|].
  rewrite IH. now apply insert_map.
Qed.

Lemma filter_map_same {A} (p : A -> bool) (g : A -> A) (l : list A) :
  (forall y, p (g y) = p y) ->
  filter p (map g l) = map g (filter p l).
Proof.
  intro Hg. induction l as [|x t IH]; simpl; [reflexivity|].
  rewrite Hg, IH. now destruct (p x).
Qed.

(** Writing ratings does not change what the rating is computed from. *)
Lemma q_update_rating_adjusted (r : Q) (pid ts pid' : Z) (d : db) :
  q_player_adjusted_scores pid' (q_update_rating r pid ts d) =
  q_player_adjusted_scores pid' d.
Proof.
  unfold q_player_adjusted_scores, q_update_rating. simpl.
  set (g := fun row : score_row =>
              if ((sr_player_id row =? pid) && (sr_timestamp row =? ts))%Z
              then set_sr_rating r row else row).
  assert (Hp : forall y, sr_player_id (g y) = sr_player_id y).
  { intro y. unfold g. now destruct (_ && _). }
  assert (Ht : forall y, sr_timestamp (g y) = sr_timestamp y).
  { intro y. unfold g. now destruct (_ && _). }
  assert (Ha : forall y, sr_adjusted_score (g y) = sr_adjusted_score y).
  { intro y. unfold g. now destruct (_ && _). }
  rewrite filter_map_same by (intro y; now rewrite Hp).
  rewrite sort_by_map by exact Ht.
  rewrite map_map. apply map_ext. exact Ha.
Qed.

Lemma q_upsert_player_has (pid : Z) (name : string) (r : Q) (d : db) :
  (exists pl, In pl (players (q_upsert_player pid name r d)) /\
              pl_discord_id pl = pid) /\
  (forall pl, In pl (players (q_upsert_player pid name r d)) ->
              pl_discord_id pl = pid -> pl_rating pl = r).
Proof.
  unfold q_upsert_player.
  destruct (existsb _ (players d)) eqn:E; simpl.
  - split.
    + apply existsb_exists in E as (pl & Hin & Hid).
      exists (set_pl_rating r pl). split; [|now apply Z.eqb_eq in Hid].
      apply in_map_iff. exists pl. now rewrite Hid.
    + intros pl Hin Hid. apply in_map_iff in Hin as (pl0 & <- & _).
      destruct (pl_discord_id pl0 =? pid)%Z eqn:E0; [reflexivity|].
      apply Z.eqb_neq in E0. contradiction.
  - split.
    + exists (PlayerRow pid name r). split; [|reflexivity].
      apply in_or_app. right. now left.
    + intros pl Hin Hid. apply in_app_or in Hin as [Hin|[<-|[]]]; [|reflexivity].
      exfalso. assert (existsb (fun p => (pl_discord_id p =? pid)%Z) (players d) = true).
      { apply existsb_exists. exists pl. split; [exact Hin|now apply Z.eqb_eq]. }
      congruence.
Qed.

Lemma q_pending_round_nonempty (hash : string) (d : db) (p : pending_row) :
  hd_error (q_pending_round hash d) = Some p ->
  q_queue_empty d = false /\ In p (pending_scores d) /\ pr_hash p = hash.
Proof.
  unfold q_pending_round, q_queue_empty. intro H.
  destruct (pending_scores d) as [|r t] eqn:E; [discriminate|].
  split; [reflexivity|].
  destruct (filter _ (r :: t)) as [|x l] eqn:F; [discriminate|].
  simpl in H. injection H as ->.
  assert (Hin : In p (filter (fun r0 => String.eqb (pr_hash r0) hash) (r :: t)))
    by (rewrite F; now left).
  apply filter_In in Hin as [Hin Hh]. split; [exact Hin|].
  now apply String.eqb_eq.
Qed.

(** C3. A moderator verifies [hash]; the queue lookup finds [p], whose
    course is the roster course [c]; no storage call fails.  Then the call
    answers "Successfully submitted", and in the new state: the ledger is the
    old one plus one record carrying the fields of [p], whose adjusted score
    is the raw score minus the current difficulty index of [c]; that record's
    rating is the rating over all of the player's adjusted scores in
    timestamp order, the new one included; every player row of that player
    (there is one) carries the same rating; no pending row has [hash] any
    more, the other pending rows and the courses being untouched. *)
Theorem verify_score_promotes (INVALID_RATING : Q) (d : db) (hash : string)
        (p : pending_row) (c : course_row) :
  roster_numbered d ->
  hd_error (q_pending_round hash d) = Some p ->
  In c (courses d) ->
  co_course_id c = pr_course_id p ->
  exists (d' : db) (record : score_row),
    run (verify_score INVALID_RATING true hash) no_faults d
      = (Ok (Submitted hash), d')
    /\ In record (scores d')
    /\ sr_round_id record = next_round_id d
    /\ sr_timestamp record = pr_timestamp p
    /\ sr_course_id record = pr_course_id p
    /\ sr_player_id record = pr_player_id p
    /\ sr_character record = pr_character p
    /\ sr_score record = pr_score p
    /\ sr_adjusted_score record = inject_Z (pr_score p) - co_difficulty_index c
    /\ map sr_adjusted_score (scores d')
       = map sr_adjusted_score (scores d) ++ [sr_adjusted_score record]
    /\ sr_rating record
       = Some (calculate_player_rating INVALID_RATING
                 (q_player_adjusted_scores (pr_player_id p) d'))
    /\ (exists pl, In pl (players d') /\ pl_discord_id pl = pr_player_id p)
    /\ (forall pl, In pl (players d') -> pl_discord_id pl = pr_player_id p ->
          Some (pl_rating pl) = sr_rating record)
    /\ (forall r, In r (pending_scores d') -> pr_hash r <> hash)
    /\ pending_scores d'
       = filter (fun r => negb (String.eqb (pr_hash r) hash)) (pending_scores d)
    /\ courses d' = courses d.
Proof.
  intros Hnum Hp Hc Hid.
  destruct (q_pending_round_nonempty hash d p Hp) as (Hne & _ & _).
  rewrite verify_score_run. unfold no_faults. cbn [orb].
  rewrite Hne, Hp, <- Hid, (roster_index d c Hnum Hc). cbv zeta.
  set (adj := inject_Z (pr_score p) - co_difficulty_index c).
  set (d1 := q_insert_score _ _ _ _ _ _ d).
  set (d2 := q_delete_pending hash d1).
  set (rating := calculate_player_rating INVALID_RATING
                   (q_player_adjusted_scores (pr_player_id p) d2)).
  set (d3 := q_update_rating rating (pr_player_id p) (pr_timestamp p) d2).
  set (d4 := q_upsert_player (pr_player_id p) (pr_player_name p) rating d3).
  set (new := ScoreRow (next_round_id d) (pr_timestamp p) (co_course_id c)
                (pr_player_id p) (pr_character p) (pr_score p) adj None).
  assert (Hs4 : scores d4 = scores d3).
  { unfold d4, q_upsert_player. now destruct (existsb _ _). }
  assert (Hs3 : scores d3 =
                map (fun r => if ((sr_player_id r =? pr_player_id p)
                                  && (sr_timestamp r =? pr_timestamp p))%Z
                              then set_sr_rating rating r else r)
                    (scores d ++ [new])) by reflexivity.
  assert (Hq : q_player_adjusted_scores (pr_player_id p) d4 =
               q_player_adjusted_scores (pr_player_id p) d2).
  { transitivity (q_player_adjusted_scores (pr_player_id p) d3).
    - unfold q_player_adjusted_scores. now rewrite Hs4.
    - apply q_update_rating_adjusted. }
  exists d4, (set_sr_rating rating new).
  split; [reflexivity|].
  split.
  { rewrite Hs4, Hs3. apply in_map_iff. exists new. split.
    - simpl. now rewrite !Z.eqb_refl.
    - apply in_or_app. right. now left. }
  do 6 (split; [simpl; auto|]).
  split; [reflexivity|].
  split.
  { rewrite Hs4, Hs3, map_map, map_app. f_equal.
    - apply map_ext. intro r. now destruct (_ && _).
    - simpl. now destruct (_ && _). }
  split; [simpl; now rewrite Hq|].
  destruct (q_upsert_player_has (pr_player_id p) (pr_player_name p) rating d3)
    as [Hex Hall].
  split; [exact Hex|].
  split.
  { intros pl Hin Hpl. change (Some (pl_rating pl) = Some rating).
    f_equal. now apply Hall. }
  assert (Hpd : pending_scores d4 =
                filter (fun r => negb (String.eqb (pr_hash r) hash))
                       (pending_scores d)).
  { unfold d4, q_upsert_player. now destruct (existsb _ _). }
  split.
  { intros r Hin. rewrite Hpd in Hin. apply filter_In in Hin as [_ Hh].
    intro E. rewrite E, String.eqb_refl in Hh. discriminate. }
  split; [exact Hpd|].
  unfold d4, q_upsert_player. now destruct (existsb _ _).
Qed.

(** The scenario of the specification: +3 on a course of index 1.5 as the
    sixth round after adjusted scores 0, 1, 2, -1, 0.5. *)
Lemma verify_score_promotes_witness :
  exists (d' : db) (record : score_row) (rating : Q),
    run (verify_score 1000 true Sample.round) no_faults Sample.store
      = (Ok (Submitted Sample.round), d')
    /\ In record (scores d')
    /\ sr_adjusted_score record = 3 # 2
    /\ map sr_adjusted_score (scores d') = [0; 1; 2; -1; 1 # 2; 3 # 2]
    /\ sr_rating record = Some rating
    /\ rating == mean [0; 1; 2; -1; 1 # 2; 3 # 2]
    /\ rating == 2 # 3
    /\ (forall pl, In pl (players d') -> pl_discord_id pl = 7%Z ->
          pl_rating pl = rating)
    /\ pending_scores d' = [].
Proof.
  destruct (verify_score_promotes 1000 Sample.store Sample.round
              Sample.pending Sample.back_nine)
    as (d' & record & Hrun & Hin & _ & _ & _ & _ & _ & _ & Hadj & Hall & Hr
        & _ & Hpl & _ & Hpend & _).
  - reflexivity.
  - reflexivity.
  - right. left. reflexivity.
  - reflexivity.
  - vm_compute in Hrun. injection Hrun as <-.
    eexists. exists record.
    exists (calculate_player_rating 1000 [0; 1; 2; -1; 1 # 2; 3 # 2]).
    split; [reflexivity|]. split; [exact Hin|]. split; [exact Hadj|].
    split; [rewrite Hadj in Hall; exact Hall|]. split; [exact Hr|].
    split; [vm_compute; reflexivity|]. split; [vm_compute; reflexivity|].
    split; [|reflexivity].
    intros pl Hpin Hid. specialize (Hpl pl Hpin Hid).
    rewrite Hr in Hpl. now injection Hpl.
Defined.

(** C4. Verification is not one transaction: every storage call commits by
    itself.  What holds is this: as long as no storage call after the
    insertion of the score record fails, a verification that does not answer
    "Successfully submitted" leaves the whole store, ledger and queue
    included, exactly as it was. *)
Theorem verify_score_all_or_nothing_before_insert (INVALID_RATING : Q)
        (f : nat -> bool) (d : db) (hash : string) :
  (forall n, (4 <= n)%nat -> f n = false) ->
  exists (r : response) (d' : db),
    run (verify_score INVALID_RATING true hash) f d = (Ok r, d') /\
    (r <> Submitted hash -> d' = d).
Proof.
  intro Hlate. rewrite verify_score_run.
  destruct (f 0%nat || q_queue_empty d); [now eauto|].
  destruct (if f 1%nat then None else hd_error (q_pending_round hash d));
    [|now eauto].
  destruct (index_or_raise _ _); [|now eauto].
  cbv zeta. destruct (f 3%nat); [now eauto|].
  rewrite !Hlate by lia.
  do 2 eexists. split; [reflexivity|]. intro H. now contradiction H.
Qed.

(** The insertion itself fails: nothing has changed. *)
Lemma verify_score_all_or_nothing_before_insert_witness :
  exists (r : response) (d' : db),
    run (verify_score 1000 true Sample.round) (fault_at 3) Sample.store
      = (Ok r, d') /\
    (r <> Submitted Sample.round -> d' = Sample.store).
Proof.
  apply (verify_score_all_or_nothing_before_insert 1000 (fault_at 3)).
  intros n Hn. unfold fault_at. apply Nat.eqb_neq. lia.
Defined.

(** The deletion from the queue fails after the record was inserted: the
    call answers with an error, the ledger has grown and the pending row is
    still there. *)
Lemma verify_score_not_atomic :
  ~ (forall (INVALID_RATING : Q) (f : nat -> bool) (d : db) (hash : string)
            (e : exn) (d' : db),
        run (verify_score INVALID_RATING true hash) f d = (Ok (ErrorMsg e), d') ->
        scores d' = scores d /\ pending_scores d' = pending_scores d).
Proof.
  intro H.
  destruct (H 1000 (fault_at 4) Sample.store Sample.round StorageError _ eq_refl)
    as [Hs _].
  apply (f_equal (@length score_row)) in Hs. discriminate Hs.
Qed.

(* ------------------------------------------------------------------ *)
(** ** Ids that are not in the queue *)

Lemma filter_none {A} (p : A -> bool) (l : list A) :
  (forall x, In x l -> p x = false) -> filter p l = [].
Proof.
  induction l as [|x t IH]; simpl; intro H; [reflexivity|].
  rewrite (H x) by now left. apply IH. intros y Hy. apply H. now right.
Qed.

Lemma filter_all {A} (p : A -> bool) (l : list A) :
  (forall x, In x l -> p x = true) -> filter p l = l.
Proof.
  induction l as [|x t IH]; simpl; intro H; [reflexivity|].
  rewrite (H x) by now left. f_equal. apply IH. intros y Hy. apply H. now right.
Qed.

Lemma absent_lookup (hash : string) (d : db) :
  absent hash d -> q_pending_round hash d = [].
Proof.
  intro H. unfold q_pending_round.
  rewrite filter_none; [reflexivity|].
  intros r Hin. apply String.eqb_neq. now apply H.
Qed.

Lemma absent_delete (hash : string) (d : db) :
  absent hash d -> q_delete_pending hash d = d.
Proof.
  intro H. unfold q_delete_pending, with_pending.
  rewrite filter_all; [now destruct d|].
  intros r Hin. apply negb_true_iff, String.eqb_neq. now apply H.
Qed.

Lemma q_delete_pending_absent (hash : string) (d : db) :
  absent hash (q_delete_pending hash d).
Proof.
  intros r Hin. simpl in Hin. apply filter_In in Hin as [_ Hh].
  apply negb_true_iff in Hh. now apply String.eqb_neq.
Qed.

(** Verifying an id that is not in the queue changes nothing and answers
    that the queue is empty or that the id was not found, whatever the
    storage does. *)
Lemma verify_score_absent (INVALID_RATING : Q) (f : nat -> bool) (d : db)
      (hash : string) :
  absent hash d ->
  exists r, run (verify_score INVALID_RATING true hash) f d = (Ok r, d) /\
            (r = QueueEmpty \/ r = IdNotFound).
Proof.
  intro H. rewrite verify_score_run, (absent_lookup hash d H).
  destruct (f 0%nat || q_queue_empty d); [now eauto|].
  destruct (f 1%nat); simpl; now eauto.
Qed.

(** X2. Discarding an id, then verifying it: the discard leaves the ledger
    as it was, and the verification answers that the queue is empty or the
    id not found, changing nothing. *)
Lemma discard_then_verify (INVALID_RATING : Q) (f : nat -> bool) (d : db)
      (hash : string) :
  exists d1 r,
    run (remove_score_from_queue true hash) no_faults d = (Ok (Removed hash), d1)
    /\ scores d1 = scores d
    /\ run (verify_score INVALID_RATING true hash) f d1 = (Ok r, d1)
    /\ (r = QueueEmpty \/ r = IdNotFound).
Proof.
  exists (q_delete_pending hash d).
  destruct (verify_score_absent INVALID_RATING f (q_delete_pending hash d) hash)
    as (r & Hrun & Hr); [apply q_delete_pending_absent|].
  exists r. repeat split; auto.
Qed.

(** X3. A verified id is gone from the queue: verifying it again is
    answered like an unknown id and changes nothing. *)
Lemma verify_score_at_most_once (INVALID_RATING : Q) (f : nat -> bool)
      (d d' : db) (hash : string) :
  run (verify_score INVALID_RATING true hash) no_faults d
    = (Ok (Submitted hash), d') ->
  exists r, run (verify_score INVALID_RATING true hash) f d' = (Ok r, d') /\
            (r = QueueEmpty \/ r = IdNotFound).
Proof.
  rewrite verify_score_run. unfold no_faults. cbn [orb].
  destruct (q_queue_empty d); [discriminate|].
  destruct (hd_error (q_pending_round hash d)) as [p|]; [|discriminate].
  destruct (index_or_raise _ _); [|discriminate].
  cbv zeta. intro H. injection H as <-.
  apply verify_score_absent.
  intros r Hin. unfold q_upsert_player in Hin.
  destruct (existsb _ _); simpl in Hin;
    apply filter_In in Hin as [_ Hh];
    apply negb_true_iff in Hh; now apply String.eqb_neq.
Qed.

(** C5, where the code departs from it.  Discarding an id that is not in
    the queue does not fail: the [DELETE] touches no row, the store is left as
    it was, and the command answers "Successfully removed round ...". *)
Theorem remove_score_from_queue_absent (d : db) (hash : string) :
  absent hash d ->
  run (remove_score_from_queue true hash) no_faults d = (Ok (Removed hash), d).
Proof.
  intro H. unfold run, remove_score_from_queue, catch, bind, execute, db_call,
    ret, no_faults. simpl. now rewrite (absent_delete hash d H).
Qed.

Lemma remove_score_from_queue_absent_witness :
  run (remove_score_from_queue true "noSuchRound00000") no_faults Sample.store
  = (Ok (Removed "noSuchRound00000"), Sample.store).
Proof.
  apply (remove_score_from_queue_absent Sample.store "noSuchRound00000").
  intros r [<-|[]]. discriminate.
Defined.

(* ------------------------------------------------------------------ *)
(** ** The ranking *)

Lemma Qlt_bool_asym (a b : Q) : Qlt_bool a b = true -> Qlt_bool b a = false.
Proof.
  unfold Qlt_bool. rewrite negb_true_iff, negb_false_iff. intro H.
  apply Qle_bool_iff. destruct (Qlt_le_dec a b) as [Hlt|Hle].
  - now apply Qlt_le_weak.
  - apply Qle_bool_iff in Hle. congruence.
Qed.

Lemma Qlt_bool_trans (a b c : Q) :
  Qlt_bool b a = false -> Qlt_bool c b = false -> Qlt_bool c a = false.
Proof.
  unfold Qlt_bool. rewrite !negb_false_iff, !Qle_bool_iff.
  intros H1 H2. now apply Qle_trans with b.
Qed.

Lemma Qlt_bool_false_iff (a b : Q) : Qlt_bool b a = false <-> a <= b.
Proof. unfold Qlt_bool. now rewrite negb_false_iff, Qle_bool_iff. Qed.

Lemma combine_seq_snd {A} (l : list A) (start : nat) :
  map snd (combine (seq start (length l)) l) = l.
Proof.
  revert start; induction l as [|x t IH]; intro start; simpl; [reflexivity|].
  now rewrite IH.
Qed.

Lemma combine_seq_fst {A} (l : list A) (start : nat) :
  map fst (combine (seq start (length l)) l) = seq start (length l).
Proof.
  revert start; induction l as [|x t IH]; intro start; simpl; [reflexivity|].
  now rewrite IH.
Qed.

Lemma equal_keys_sorted {A} (key : A -> Q) (v : Q) (l : list A) :
  Forall (fun x => key x == v) l ->
  StronglySorted (Py.in_order Qlt_bool key) l.
Proof.
  induction 1 as [|x t Hx Ht IH]; constructor; [exact IH|].
  eapply Forall_impl; [|exact Ht].
  intros y Hy. unfold Py.in_order. apply Qlt_bool_false_iff.
  rewrite Hx, Hy. apply Qle_refl.
Qed.

(** C8. The sheet lists, as (name, rating), exactly the rows of the players
    table whose rating is not the sentinel; ratings ascend down the sheet;
    the rank in row [i] (from 0) is [i + 1]; rows of equal rating stand in
    the order they had in the table. *)
Theorem rankings_sheet_spec (INVALID_RATING : Q) (player_data : list player_row) :
  let sheet := rankings_sheet INVALID_RATING player_data in
  let listed := map (fun row => (snd (fst row), snd row)) sheet in
  Permutation listed
    (map (fun p => (pl_player_name p, pl_rating p))
         (filter (fun p => negb (Qeq_bool (pl_rating p) INVALID_RATING))
                 player_data))
  /\ (forall name rating,
        In (name, rating) listed <->
        exists p, In p player_data /\ pl_player_name p = name /\
                  pl_rating p = rating /\ ~ rating == INVALID_RATING)
  /\ StronglySorted (fun x y => snd x <= snd y) sheet
  /\ map (fun row => fst (fst row)) sheet = seq 1 (length sheet)
  /\ (forall v : Q,
        filter (fun e => Qeq_bool (snd e) v) listed =
        filter (fun e => Qeq_bool (snd e) v)
               (rated_players INVALID_RATING player_data)).
Proof.
  cbv zeta. unfold rankings_sheet.
  set (rated := rated_players INVALID_RATING player_data).
  set (sorted := Py.sort_by Qlt_bool snd rated).
  assert (Hlisted :
            map (fun row : nat * string * Q => (snd (fst row), snd row))
                (map (fun x : nat * (string * Q) => (fst x, fst (snd x), snd (snd x)))
                     (combine (seq 1 (length sorted)) sorted)) = sorted).
  { rewrite map_map. etransitivity; [|apply (combine_seq_snd sorted 1)].
    apply map_ext. now intros [n [name r]]. }
  rewrite Hlisted.
  assert (Hperm : Permutation sorted rated) by apply sort_by_perm.
  split; [exact Hperm|]. split; [|split; [|split]].
  - intros name rating. split.
    + intro Hin. apply (Permutation_in _ Hperm) in Hin.
      unfold rated, rated_players in Hin.
      apply in_map_iff in Hin as (p & Heq & Hp).
      apply filter_In in Hp as [Hp Hr]. injection Heq as <- <-.
      exists p. repeat split; auto.
      apply negb_true_iff in Hr. now apply Qeq_bool_neq.
    + intros (p & Hp & <- & <- & Hr).
      apply (Permutation_in _ (Permutation_sym Hperm)).
      unfold rated, rated_players. apply in_map_iff. exists p. split; [reflexivity|].
      apply filter_In. split; [exact Hp|].
      apply negb_true_iff. destruct (Qeq_bool _ _) eqn:E; [|reflexivity].
      apply Qeq_bool_eq in E. contradiction.
  - assert (Hs : StronglySorted (Py.in_order Qlt_bool snd) sorted)
      by (apply sort_by_sorted; [apply Qlt_bool_asym|apply Qlt_bool_trans]).
    clearbody sorted. clear Hlisted Hperm.
    generalize 1%nat as start.
    induction Hs as [|x t Hs IH Hx]; intro start; simpl; constructor.
    + apply IH.
    + clear IH Hs. revert start.
      induction Hx as [|y t Hy Ht IH]; intro start; simpl; constructor.
      * simpl. now apply Qlt_bool_false_iff.
      * apply IH.
  - rewrite !map_map, length_map.
    rewrite length_combine, length_seq, Nat.min_id.
    etransitivity; [|apply (combine_seq_fst sorted 1)].
    apply map_ext. now intros [n [name r]].
  - intro v. unfold sorted.
    rewrite filter_sort_by by (apply Qlt_bool_asym || apply Qlt_bool_trans).
    apply sort_by_sorted_id. apply equal_keys_sorted with (v := v).
    apply Forall_forall. intros e He. apply filter_In in He as [_ He].
    now apply Qeq_bool_eq.
Qed.

(* ------------------------------------------------------------------ *)
(** ** Dictionaries *)

Section DictFacts.
Context {V : Type}.
Implicit Types (d : Py.dict Z V) (k : Z) (f : option V -> V).

Lemma get_upd d k k' f :
  Py.get Z.eqb (Py.upd Z.eqb d k f) k' =
  if (k =? k')%Z then Some (f (Py.get Z.eqb d k)) else Py.get Z.eqb d k'.
Proof.
  induction d as [|[k0 v0] t IH]; simpl.
  - now destruct (k =? k')%Z.
  - destruct (Z.eqb_spec k0 k) as [->|Hne]; simpl.
    + now destruct (k =? k')%Z.
    + rewrite IH. destruct (Z.eqb_spec k k') as [->|Hne'].
      * destruct (Z.eqb_spec k0 k'); [contradiction|reflexivity].
      * reflexivity.
Qed.

Lemma upd_fresh d k f :
  ~ In k (Py.keys d) -> Py.upd Z.eqb d k f = d ++ [(k, f None)].
Proof.
  induction d as [|[k0 v0] t IH]; simpl; intro H; [reflexivity|].
  destruct (Z.eqb_spec k0 k) as [->|Hne]; [tauto|].
  rewrite IH by tauto. reflexivity.
Qed.

Lemma keys_upd_old d k f :
  In k (Py.keys d) -> Py.keys (Py.upd Z.eqb d k f) = Py.keys d.
Proof.
  induction d as [|[k0 v0] t IH]; simpl; intro H; [contradiction|].
  destruct (Z.eqb_spec k0 k) as [->|Hne]; [reflexivity|].
  simpl. f_equal. apply IH. destruct H; [contradiction|assumption].
Qed.

Lemma NoDup_keys_upd d k f :
  NoDup (Py.keys d) -> NoDup (Py.keys (Py.upd Z.eqb d k f)).
Proof.
  intro H. destruct (in_dec Z.eq_dec k (Py.keys d)) as [Hin|Hout].
  - now rewrite keys_upd_old.
  - rewrite upd_fresh by assumption. unfold Py.keys. rewrite map_app. simpl.
    apply NoDup_app; [exact H|repeat constructor; auto|].
    intros x Hx [<-|[]]. contradiction.
Qed.

Lemma upd_not_nil d k f : Py.upd Z.eqb d k f <> [].
Proof.
  destruct d as [|[k0 v0] t]; simpl; [discriminate|].
  destruct (k0 =? k)%Z; discriminate.
Qed.

Lemma Forall_values_upd (P : V -> Prop) d k f :
  (forall o, P (f o)) ->
  Forall P (Py.values d) -> Forall P (Py.values (Py.upd Z.eqb d k f)).
Proof.
  intros Hf. induction d as [|[k0 v0] t IH]; simpl; intro H.
  - constructor; [apply Hf|constructor].
  - inversion H; subst. destruct (k0 =? k)%Z; simpl; constructor; auto.
Qed.

End DictFacts.

(** Grouping rows under a key, as the loops over [defaultdict(list)] do. *)
Section Grouping.
Context {A V : Type} (kf : A -> Z) (vf : A -> V).

Lemma get_group (l : list A) (d0 : Py.dict Z (list V)) (k : Z) :
  Py.get Z.eqb (group kf vf l d0) k =
  extend (Py.get Z.eqb d0 k) (map vf (filter (fun x => (kf x =? k)%Z) l)).
Proof.
  revert d0. induction l as [|x t IH]; intro d0; simpl.
  - now destruct (Py.get Z.eqb d0 k).
  - unfold group in *. simpl. rewrite IH. unfold Py.append_to.
    rewrite get_upd.
    destruct (Z.eqb_spec (kf x) k) as [->|Hne]; simpl.
    + destruct (Py.get Z.eqb d0 k) as [l0|];
        destruct (map vf (filter (fun x0 => (kf x0 =? k)%Z) t)); simpl;
        rewrite <- ?app_assoc; reflexivity.
    + reflexivity.
Qed.

Lemma NoDup_keys_group (l : list A) (d0 : Py.dict Z (list V)) :
  NoDup (Py.keys d0) -> NoDup (Py.keys (group kf vf l d0)).
Proof.
  revert d0. induction l as [|x t IH]; intros d0 H; simpl; [exact H|].
  apply IH. now apply NoDup_keys_upd.
Qed.

Lemma group_values_not_nil (l : list A) (d0 : Py.dict Z (list V)) :
  Forall (fun vs => vs <> []) (Py.values d0) ->
  Forall (fun vs => vs <> []) (Py.values (group kf vf l d0)).
Proof.
  revert d0. induction l as [|x t IH]; intros d0 H; simpl; [exact H|].
  apply IH. apply Forall_values_upd; [|exact H].
  intros [[|? ?]|]; discriminate.
Qed.

Lemma group_not_nil (l : list A) (d0 : Py.dict Z (list V)) :
  l <> [] \/ d0 <> [] -> group kf vf l d0 <> [].
Proof.
  revert d0. induction l as [|x t IH]; intros d0 H; simpl.
  - destruct H; [contradiction|assumption].
  - apply IH. right. apply upd_not_nil.
Qed.
End Grouping.

Lemma fold_left_ext {A B} (f g : A -> B -> A) (l : list B) (a : A) :
  (forall x y, f x y = g x y) -> fold_left f l a = fold_left g l a.
Proof.
  intro H. revert a. induction l as [|y t IH]; intro a; simpl; [reflexivity|].
  now rewrite H, IH.
Qed.

(** Loops that fill a fresh dictionary from the items of another one. *)
Section FillFromItems.
Context {V W : Type} (f : V -> result W) (g : V -> W).

Lemma foldM_fill (d : Py.dict Z V) (acc : Py.dict Z W) :
  NoDup (Py.keys acc ++ Py.keys d) ->
  (forall k v, In (k, v) d -> f v = Ok (g v)) ->
  foldM (fill f) d acc = Ok (acc ++ map (fun item => (fst item, g (snd item))) d).
Proof.
  revert acc. induction d as [|[k v] t IH]; intros acc Hnd Hf; simpl.
  - now rewrite app_nil_r.
  - rewrite (Hf k v) by now left. simpl.
    assert (Hout : ~ In k (Py.keys acc)).
    { intro Hin. apply NoDup_remove_2 in Hnd. apply Hnd.
      apply in_or_app. now left. }
    unfold Py.set. rewrite upd_fresh by exact Hout.
    rewrite IH.
    + now rewrite <- app_assoc.
    + unfold Py.keys in *. rewrite map_app. simpl. simpl in Hnd.
      rewrite <- app_assoc. exact Hnd.
    + intros k' v' Hin. apply (Hf k' v'). now right.
Qed.
End FillFromItems.

(* ------------------------------------------------------------------ *)
(** ** Difficulty indices: the per-player averages *)

Lemma player_data_group (rows : list (Z * Z * Z * Z)) :
  player_data rows =
  group (fun r => fst (fst (fst r)))
        (fun r => (snd (fst (fst r)), snd (fst r), snd r))
        (Py.sort_by Z.ltb (fun r => snd (fst r)) rows) [].
Proof.
  unfold player_data, group. apply fold_left_ext.
  now intros dct [[[p c] t] s].
Qed.

Lemma course_scores_group (rounds : list (Z * Z * Z)) :
  course_scores rounds = group (fun r => fst (fst r)) snd rounds [].
Proof.
  unfold course_scores, group. apply fold_left_ext.
  now intros dct [[c t] s].
Qed.

Lemma py_len_not_zero {A} (l : list A) :
  l <> [] -> Qeq_bool (Py.len l) 0 = false.
Proof.
  intro H. destruct (Qeq_bool (Py.len l) 0) eqn:E; [|reflexivity].
  apply Qeq_bool_eq in E. destruct l as [|x t]; [contradiction|].
  unfold Py.len, Qeq in E. cbn [Qnum Qden inject_Z length] in E. lia.
Qed.

Lemma py_tail_not_nil {A} (n : nat) (l : list A) :
  (0 < n)%nat -> l <> [] -> Py.tail n l <> [].
Proof.
  intros Hn Hl Ht. apply (f_equal (@length A)) in Ht.
  unfold Py.tail in Ht. rewrite length_skipn in Ht.
  destruct l as [|x t]; [contradiction|]. cbn [length] in Ht. lia.
Qed.

Lemma average_score_ok (scores : list Z) :
  scores <> [] -> average_score scores = Ok (recent_average scores).
Proof.
  intro H. unfold average_score, recent_average, py_div.
  rewrite py_len_not_zero; [reflexivity|].
  apply py_tail_not_nil; [unfold NUM_REQUIRED_SCORES; lia|exact H].
Qed.

Lemma course_scores_NoDup (rounds : list (Z * Z * Z)) :
  NoDup (Py.keys (course_scores rounds)).
Proof. rewrite course_scores_group. apply NoDup_keys_group. constructor. Qed.

Lemma course_scores_not_nil (rounds : list (Z * Z * Z)) :
  Forall (fun vs => vs <> []) (Py.values (course_scores rounds)).
Proof. rewrite course_scores_group. apply group_values_not_nil. constructor. Qed.

(** No division by zero inside one player's averages. *)
Lemma course_averages_of_ok (rounds : list (Z * Z * Z)) :
  course_averages_of rounds = Ok (averages_by_course rounds).
Proof.
  change (course_averages_of rounds)
    with (foldM (fill average_score) (course_scores rounds) []).
  rewrite (foldM_fill average_score recent_average).
  - reflexivity.
  - simpl. apply course_scores_NoDup.
  - intros k v Hin. apply average_score_ok.
    pose proof (course_scores_not_nil rounds) as Hall.
    rewrite Forall_forall in Hall. apply Hall.
    unfold Py.values. apply in_map_iff. now exists (k, v).
Qed.

Lemma player_data_NoDup (rows : list (Z * Z * Z * Z)) :
  NoDup (Py.keys (player_data rows)).
Proof. rewrite player_data_group. apply NoDup_keys_group. constructor. Qed.

Lemma player_course_averages_ok (rows : list (Z * Z * Z * Z)) :
  player_course_averages (player_data rows) =
  Ok (map (fun item => (fst item, averages_by_course (snd item)))
          (player_data rows)).
Proof.
  change (player_course_averages (player_data rows))
    with (foldM (fill course_averages_of) (player_data rows) []).
  rewrite (foldM_fill course_averages_of averages_by_course).
  - reflexivity.
  - simpl. apply player_data_NoDup.
  - intros k v _. apply course_averages_of_ok.
Qed.

Lemma get_map_values {V W} (g : V -> W) (d : Py.dict Z V) (k : Z) :
  Py.get Z.eqb (map (fun item => (fst item, g (snd item))) d) k =
  option_map g (Py.get Z.eqb d k).
Proof.
  induction d as [|[k0 v0] t IH]; simpl; [reflexivity|].
  now destruct (k0 =? k)%Z.
Qed.

Lemma sort_by_map_keys {A B K} (ltb : K -> K -> bool)
      (keyA : A -> K) (keyB : B -> K) (g : A -> B) (l : list A) :
  (forall y, keyB (g y) = keyA y) ->
  Py.sort_by ltb keyB (map g l) = map g (Py.sort_by ltb keyA l).
Proof.
  intro Hg. induction l as [|x t IH]; simpl; [reflexivity|].
  rewrite IH. generalize (Py.sort_by ltb keyA t) as s.
  induction s as [|y s IHs]; simpl; [reflexivity|].
  rewrite !Hg. destruct (ltb (keyA y) (keyA x)); simpl; [|reflexivity].
  now rewrite IHs.
Qed.

Lemma filter_map_comm {A B} (q : B -> bool) (g : A -> B) (l : list A) :
  filter q (map g l) = map g (filter (fun x => q (g x)) l).
Proof.
  induction l as [|x t IH]; simpl; [reflexivity|].
  rewrite IH. now destruct (q (g x)).
Qed.

Lemma filter_filter {A} (p q : A -> bool) (l : list A) :
  filter q (filter p l) = filter (fun x => p x && q x) l.
Proof.
  induction l as [|x t IH]; simpl; [reflexivity|].
  destruct (p x); simpl; rewrite IH; reflexivity.
Qed.

Lemma filter_ext_in_list {A} (p q : A -> bool) (l : list A) :
  (forall x, In x l -> p x = q x) -> filter p l = filter q l.
Proof.
  induction l as [|x t IH]; simpl; intro H; [reflexivity|].
  rewrite (H x) by now left. rewrite IH; [reflexivity|].
  intros y Hy. apply H. now right.
Qed.

Lemma filter_length_le {A} (p : A -> bool) (l : list A) :
  (length (filter p l) <= length l)%nat.
Proof.
  induction l as [|x t IH]; simpl; [lia|]. destruct (p x); simpl; lia.
Qed.

Lemma filter_length_all {A} (p : A -> bool) (l : list A) :
  length (filter p l) = length l -> forall x, In x l -> p x = true.
Proof.
  induction l as [|x t IH]; simpl; intros H y Hy; [contradiction|].
  pose proof (filter_length_le p t) as Hle.
  destruct (p x) eqn:E; simpl in H; [|lia].
  destruct Hy as [<-|Hy]; [exact E|]. apply IH; [lia|exact Hy].
Qed.

Lemma nodup_length_le (l : list Z) :
  (length (nodup Z.eq_dec l) <= length l)%nat.
Proof.
  induction l as [|x t IH]; simpl; [lia|].
  destruct (in_dec Z.eq_dec x t); simpl; lia.
Qed.

(** The [WHERE] clause of the query says: enough rounds on every course. *)
Lemma eligible_iff (d : db) (pid : Z) :
  NoDup (map co_course_id (courses d)) ->
  eligible d pid = true <->
  forall c, In c (courses d) ->
            (NUM_REQUIRED_SCORES <= rounds_on d pid (co_course_id c))%nat.
Proof.
  intro Hnd. unfold eligible.
  set (ok := fun c => (NUM_REQUIRED_SCORES <=? rounds_on d pid (co_course_id c))%nat).
  rewrite Nat.eqb_eq. split.
  - intros H c Hc. apply Nat.leb_le.
    apply (filter_length_all ok (courses d)); [|exact Hc].
    pose proof (nodup_length_le (map co_course_id (filter ok (courses d)))) as H1.
    pose proof (filter_length_le ok (courses d)) as H2.
    rewrite length_map in H1. lia.
  - intro H. rewrite filter_all.
    + rewrite nodup_fixed_point by exact Hnd. apply length_map.
    + intros c Hc. apply Nat.leb_le. now apply H.
Qed.

Lemma eligible_has_rows (d : db) (pid : Z) :
  courses d <> [] -> eligible d pid = true ->
  exists s, In s (scores d) /\ sr_player_id s = pid.
Proof.
  intros Hne He. destruct (courses d) as [|c cs] eqn:Ec; [contradiction|].
  unfold eligible in He. rewrite Ec in He. apply Nat.eqb_eq in He.
  set (ok := fun c => (NUM_REQUIRED_SCORES <=? rounds_on d pid (co_course_id c))%nat) in *.
  assert (Hc : ok c = true).
  { apply (filter_length_all ok (c :: cs)); [|now left].
    pose proof (nodup_length_le (map co_course_id (filter ok (c :: cs)))) as H1.
    pose proof (filter_length_le ok (c :: cs)) as H2.
    rewrite length_map in H1. lia. }
  unfold ok in Hc. apply Nat.leb_le in Hc. unfold rounds_on, NUM_REQUIRED_SCORES in Hc.
  destruct (filter _ (scores d)) as [|s rest] eqn:F; [simpl in Hc; lia|].
  assert (Hin : In s (filter (fun s0 => ((sr_player_id s0 =? pid)
                                        && (sr_course_id s0 =? co_course_id c))%Z)
                             (scores d))) by (rewrite F; now left).
  apply filter_In in Hin as [Hin Hs]. apply andb_true_iff in Hs as [Hp _].
  exists s. split; [exact Hin|now apply Z.eqb_eq].
Qed.

Lemma inject_Z_fold_add (l : list Z) (a : Z) :
  inject_Z (fold_left Z.add l a) == inject_Z a + total (map inject_Z l).
Proof.
  revert a. induction l as [|x t IH]; intro a; simpl.
  - ring.
  - rewrite IH, inject_Z_plus. ring.
Qed.

Lemma recent_average_mean (scores : list Z) :
  recent_average scores ==
  mean (map inject_Z (Py.tail NUM_REQUIRED_SCORES scores)).
Proof.
  unfold recent_average, mean, Py.len. cbv zeta.
  rewrite inject_Z_fold_add, length_map. simpl (inject_Z 0).
  now rewrite Qplus_0_l.
Qed.

(** The query keeps a score exactly when its player is an eligible row of
    the players table. *)
Lemma selected_iff_eligible (d : db) (pid : Z) :
  In pid (map pl_discord_id (players d)) ->
  existsb (fun p => (pl_discord_id p =? pid)%Z && eligible d (pl_discord_id p))
          (players d) = eligible d pid.
Proof.
  intro Hin. apply in_map_iff in Hin as (p & Hid & Hp).
  destruct (eligible d pid) eqn:E.
  - apply existsb_exists. exists p. split; [exact Hp|].
    now rewrite Hid, Z.eqb_refl, E.
  - destruct (existsb _ _) eqn:X; [|reflexivity].
    apply existsb_exists in X as (q & _ & Hq).
    apply andb_true_iff in Hq as [Hq1 Hq2]. apply Z.eqb_eq in Hq1.
    rewrite Hq1 in Hq2. congruence.
Qed.

(** The scores the loops collect for a player and a course: for an eligible
    row of the players table, all raw scores on that course, oldest first;
    for another one, none. *)
Lemma collected_scores (d : db) (pid cid : Z) :
  In pid (map pl_discord_id (players d)) ->
  map snd
      (filter (fun r : Z * Z * Z => (fst (fst r) =? cid)%Z)
         (map (fun r : Z * Z * Z * Z => (snd (fst (fst r)), snd (fst r), snd r))
            (filter (fun r : Z * Z * Z * Z => (fst (fst (fst r)) =? pid)%Z)
               (Py.sort_by Z.ltb (fun r : Z * Z * Z * Z => snd (fst r))
                           (q_eligible_scores d)))))
  = if eligible d pid then raw_scores_on d pid cid else [].
Proof.
  intro Hin. unfold q_eligible_scores.
  rewrite (sort_by_map_keys Z.ltb sr_timestamp) by reflexivity.
  rewrite !filter_map_comm, !map_map. cbn [fst snd].
  rewrite filter_filter.
  rewrite (filter_sort_by Z.ltb sr_timestamp Zltb_asym Zltb_trans).
  rewrite filter_filter.
  destruct (eligible d pid) eqn:E.
  - unfold raw_scores_on. do 2 f_equal.
    apply filter_ext_in_list. intros s _.
    destruct (Z.eqb_spec (sr_player_id s) pid) as [->|Hne].
    + rewrite (selected_iff_eligible d pid Hin), E. reflexivity.
    + now rewrite andb_false_r.
  - rewrite filter_none; [reflexivity|].
    intros s _.
    destruct (Z.eqb_spec (sr_player_id s) pid) as [->|Hne].
    + rewrite (selected_iff_eligible d pid Hin), E. reflexivity.
    + now rewrite andb_false_r.
Qed.

Lemma raw_scores_on_length (d : db) (pid cid : Z) :
  length (raw_scores_on d pid cid) = rounds_on d pid cid.
Proof.
  unfold raw_scores_on, rounds_on. now rewrite length_map, sort_by_length.
Qed.

Lemma extend_None {V} (vs : list V) :
  extend None vs = match vs with [] => None | _ :: _ => Some vs end.
Proof. now destruct vs. Qed.

(** C6. For a row [pid] of the players table, with a non-empty roster whose
    course ids are distinct: the computation holds averages for [pid] exactly
    when [pid] has at least 8 rounds on every course of the roster; and then
    it holds one for every course of the roster, which is the arithmetic mean
    of the last 8 of the player's raw scores on that course, oldest first. *)
Theorem player_course_averages_spec (d : db) (pid : Z) :
  NoDup (map co_course_id (courses d)) ->
  courses d <> [] ->
  In pid (map pl_discord_id (players d)) ->
  exists averages,
    player_course_averages (player_data (q_eligible_scores d)) = Ok averages /\
    (Py.get Z.eqb averages pid <> None <->
     forall c, In c (courses d) ->
               (8 <= rounds_on d pid (co_course_id c))%nat) /\
    (forall by_course,
        Py.get Z.eqb averages pid = Some by_course ->
        forall c, In c (courses d) ->
        exists a,
          Py.get Z.eqb by_course (co_course_id c) = Some a /\
          length (Py.tail 8 (raw_scores_on d pid (co_course_id c))) = 8%nat /\
          a == mean (map inject_Z
                         (Py.tail 8 (raw_scores_on d pid (co_course_id c))))).
Proof.
  intros Hnd Hne Hin.
  eexists. split; [apply player_course_averages_ok|].
  rewrite get_map_values, player_data_group, get_group. simpl (Py.get _ [] _).
  rewrite extend_None.
  set (rounds := map _ (filter _ (Py.sort_by _ _ (q_eligible_scores d)))).
  assert (Hcol : forall cid,
            map snd (filter (fun r : Z * Z * Z => (fst (fst r) =? cid)%Z) rounds)
            = if eligible d pid then raw_scores_on d pid cid else [])
    by (intro cid; apply (collected_scores d pid cid Hin)).
  assert (Hel : rounds <> [] <-> eligible d pid = true).
  { split.
    - intro Hr. destruct (eligible d pid) eqn:E; [reflexivity|]. exfalso.
      destruct rounds as [|r rest] eqn:Er; [contradiction|].
      specialize (Hcol (fst (fst r))). simpl in Hcol.
      rewrite Z.eqb_refl in Hcol. discriminate.
    - intros E Hr.
      assert (Hex : exists c, In c (courses d)).
      { destruct (courses d) as [|c cs]; [contradiction|]. exists c. now left. }
      destruct Hex as [c Hc0].
      specialize (Hcol (co_course_id c)). rewrite E, Hr in Hcol. simpl in Hcol.
      pose proof (proj1 (eligible_iff d pid Hnd) E c Hc0) as Hc.
      rewrite <- raw_scores_on_length, <- Hcol in Hc.
      unfold NUM_REQUIRED_SCORES in Hc. simpl in Hc. lia. }
  split.
  - rewrite <- (eligible_iff d pid Hnd), <- Hel.
    destruct rounds; simpl; split; intro H; congruence.
  - intros by_course Hget c Hc.
    assert (Hr : rounds <> []) by (intro E; rewrite E in Hget; discriminate).
    destruct rounds as [|r0 rest] eqn:Er; [contradiction|]. rewrite <- Er in *.
    simpl in Hget. injection Hget as <-.
    apply Hel in Hr.
    pose proof (proj1 (eligible_iff d pid Hnd) Hr c Hc) as H8.
    unfold NUM_REQUIRED_SCORES in H8.
    unfold averages_by_course.
    rewrite get_map_values, course_scores_group, get_group.
    simpl (Py.get _ [] _). rewrite extend_None, Hcol, Hr.
    rewrite <- raw_scores_on_length in H8.
    destruct (raw_scores_on d pid (co_course_id c)) as [|x t] eqn:Eraw;
      [simpl in H8; lia|]. rewrite <- Eraw in *.
    exists (recent_average (raw_scores_on d pid (co_course_id c))).
    split; [reflexivity|]. split.
    + now apply py_tail_length.
    + apply recent_average_mean.
Qed.

(* ------------------------------------------------------------------ *)
(** ** Difficulty indices: from the averages to the indices *)

Lemma fold_left_invariant {A B} (f : A -> B -> A) (P : A -> Prop)
      (l : list B) (a : A) :
  (forall a x, P a -> P (f a x)) -> P a -> P (fold_left f l a).
Proof.
  intro Hf. revert a. induction l as [|x t IH]; intros a Ha; simpl; auto.
Qed.

Lemma fold_left_reaches {A B} (f : A -> B -> A) (P : A -> Prop)
      (l : list B) (a : A) :
  (forall a x, P a -> P (f a x)) ->
  (forall a x, In x l -> P (f a x)) ->
  l <> [] -> P (fold_left f l a).
Proof.
  intros Hkeep Hset Hne. destruct l as [|x t]; [contradiction|]. simpl.
  apply fold_left_invariant; [exact Hkeep|]. apply Hset. now left.
Qed.

Lemma course_averages_by_player_well_keyed (averages : Py.dict Z (Py.dict Z Q)) :
  well_keyed (course_averages_by_player averages).
Proof.
  unfold course_averages_by_player.
  apply fold_left_invariant; [|split; constructor].
  intros by_course [pid ca] H.
  apply fold_left_invariant; [|exact H].
  intros m [cid avg] [Hk Hv]. split.
  - now apply NoDup_keys_upd.
  - apply Forall_values_upd; [|exact Hv]. intro o. apply upd_not_nil.
Qed.

Lemma course_averages_by_player_not_nil (averages : Py.dict Z (Py.dict Z Q)) :
  averages <> [] ->
  Forall (fun m => m <> []) (Py.values averages) ->
  course_averages_by_player averages <> [].
Proof.
  intros Hne Hall. unfold course_averages_by_player.
  apply (fold_left_reaches _ (fun m => m <> [])); [| |exact Hne].
  - intros by_course [pid ca] H. apply fold_left_invariant; [|exact H].
    intros m [cid avg] _. apply upd_not_nil.
  - intros by_course [pid ca] Hin.
    apply (fold_left_reaches _ (fun m => m <> [])).
    + intros m [cid avg] _. apply upd_not_nil.
    + intros m [cid avg] _. apply upd_not_nil.
    + rewrite Forall_forall in Hall. apply (Hall ca).
      unfold Py.values. apply in_map_iff. now exists (pid, ca).
Qed.

Lemma final_averages_ok (by_course : Py.dict Z (Py.dict Z Q)) :
  well_keyed by_course ->
  final_averages by_course =
  Ok (map (fun item => (fst item, course_average (snd item))) by_course).
Proof.
  intros [Hk Hv].
  change (final_averages by_course)
    with (foldM (fill (fun m => py_div (Py.sum (Py.values m)) (Py.len m)))
                by_course []).
  rewrite (foldM_fill _ course_average).
  - reflexivity.
  - exact Hk.
  - intros k m Hin. unfold py_div. rewrite py_len_not_zero; [reflexivity|].
    rewrite Forall_forall in Hv. apply Hv.
    unfold Py.values. apply in_map_iff. now exists (k, m).
Qed.

Lemma fold_left_set (h : Q -> Q) (d acc : Py.dict Z Q) :
  NoDup (Py.keys acc ++ Py.keys d) ->
  fold_left (fun indices item =>
               let '(course, course_avg) := item in
               Py.set Z.eqb indices course (h course_avg))
            d acc
  = acc ++ map (fun item => (fst item, h (snd item))) d.
Proof.
  revert acc. induction d as [|[k v] t IH]; intros acc Hnd; simpl.
  - now rewrite app_nil_r.
  - assert (Hout : ~ In k (Py.keys acc)).
    { intro Hin. apply NoDup_remove_2 in Hnd. apply Hnd.
      apply in_or_app. now left. }
    unfold Py.set at 2. rewrite upd_fresh by exact Hout.
    rewrite IH.
    + now rewrite <- app_assoc.
    + unfold Py.keys in *. rewrite map_app. simpl. simpl in Hnd.
      rewrite <- app_assoc. exact Hnd.
Qed.

Lemma keys_map_values {V W} (g : V -> W) (d : Py.dict Z V) :
  Py.keys (map (fun item => (fst item, g (snd item))) d) = Py.keys d.
Proof. unfold Py.keys. rewrite map_map. now apply map_ext. Qed.

Lemma values_map_values {V W} (g : V -> W) (d : Py.dict Z V) :
  Py.values (map (fun item => (fst item, g (snd item))) d) = map g (Py.values d).
Proof. unfold Py.values. now rewrite !map_map. Qed.

Lemma indices_of_averages_ok (final : Py.dict Z Q) :
  final <> [] -> NoDup (Py.keys final) ->
  indices_of_averages final =
  Ok (map (fun item =>
             (fst item, snd item - Py.sum (Py.values final) / Py.len final))
          final).
Proof.
  intros Hne Hk. unfold indices_of_averages, py_div.
  rewrite py_len_not_zero by exact Hne. simpl. f_equal.
  now rewrite (fold_left_set (fun v => v - Py.sum (Py.values final) / Py.len final)).
Qed.

Lemma len_cons {A} (x : A) (l : list A) : Py.len (x :: l) == Py.len l + 1.
Proof.
  unfold Py.len. cbn [length]. rewrite Nat2Z.inj_succ, <- Z.add_1_r.
  now rewrite inject_Z_plus.
Qed.

Lemma total_shift (c : Q) (l : list Q) :
  total (map (fun v => v - c) l) == total l - Py.len l * c.
Proof.
  induction l as [|x t IH].
  - simpl. unfold Py.len. simpl. ring.
  - cbn [map total fold_right]. fold (total (map (fun v => v - c) t)).
    fold (total t). rewrite IH, len_cons. ring.
Qed.

Lemma centered (l : list Q) :
  l <> [] ->
  total (map (fun v => v - Py.sum l / Py.len l) l) == 0.
Proof.
  intro Hne. rewrite total_shift, py_sum_total.
  assert (Hn : ~ Py.len l == 0).
  { intro E. apply Qeq_eq_bool in E.
    rewrite (py_len_not_zero l Hne) in E. discriminate. }
  field. exact Hn.
Qed.

(** The averages of the players, as the calculator holds them. *)
Lemma player_averages_shape (rows : list (Z * Z * Z * Z)) :
  rows <> [] ->
  let averages := map (fun item => (fst item, averages_by_course (snd item)))
                      (player_data rows) in
  averages <> [] /\ Forall (fun m => m <> []) (Py.values averages).
Proof.
  intro Hne. cbv zeta. split.
  - intro E. apply map_eq_nil in E. revert E.
    rewrite player_data_group. apply group_not_nil. left.
    intro E. apply (f_equal (@length _)) in E.
    rewrite sort_by_length in E. now destruct rows.
  - rewrite values_map_values. apply Forall_map.
    pose proof (group_values_not_nil
                  (fun r : Z * Z * Z * Z => fst (fst (fst r)))
                  (fun r : Z * Z * Z * Z => (snd (fst (fst r)), snd (fst r), snd r))
                  (Py.sort_by Z.ltb (fun r => snd (fst r)) rows) []
                  (Forall_nil _)) as H.
    rewrite <- player_data_group in H.
    eapply Forall_impl; [|exact H].
    intros rounds Hr E. unfold averages_by_course in E.
    apply map_eq_nil in E. revert E.
    rewrite course_scores_group. apply group_not_nil. now left.
Qed.

(** With at least one selected score, no division of the calculator has a
    zero divisor, and the indices are the course averages minus their mean. *)
Lemma difficulty_indices_ok (rows : list (Z * Z * Z * Z)) :
  rows <> [] ->
  exists final : Py.dict Z Q,
    final <> [] /\
    difficulty_indices rows =
    Ok (map (fun item =>
               (fst item, snd item - Py.sum (Py.values final) / Py.len final))
            final).
Proof.
  intro Hne. unfold difficulty_indices.
  rewrite player_course_averages_ok. cbn [rbind].
  destruct (player_averages_shape rows Hne) as [Ha Hv].
  set (averages := map _ (player_data rows)) in *.
  pose proof (course_averages_by_player_well_keyed averages) as Hwk.
  pose proof (course_averages_by_player_not_nil averages Ha Hv) as Hnn.
  rewrite (final_averages_ok _ Hwk). cbn [rbind].
  set (final := map _ (course_averages_by_player averages)).
  exists final. split.
  - intro E. apply map_eq_nil in E. contradiction.
  - apply indices_of_averages_ok.
    + intro E. apply map_eq_nil in E. contradiction.
    + unfold final. rewrite keys_map_values. apply Hwk.
Qed.

(** C7. Whenever the query selects at least one score (some player is
    eligible and has played), the calculator yields indices, for at least
    one course, and their unweighted arithmetic mean is zero. *)
Theorem difficulty_indices_zero_centered (rows : list (Z * Z * Z * Z)) :
  rows <> [] ->
  exists indices : Py.dict Z Q,
    difficulty_indices rows = Ok indices /\
    indices <> [] /\
    mean (Py.values indices) == 0.
Proof.
  intro Hne. destruct (difficulty_indices_ok rows Hne) as (final & Hf & Hd).
  eexists. split; [exact Hd|]. split.
  - intro E. apply map_eq_nil in E. contradiction.
  - pose proof (values_map_values
                  (fun v => v - Py.sum (Py.values final) / Py.len final) final)
      as Hvals.
    cbv beta in Hvals. rewrite Hvals. unfold mean.
    assert (Hv : Py.values final <> []).
    { intro E. apply map_eq_nil in E. contradiction. }
    assert (Hlen : Py.len final = Py.len (Py.values final)).
    { unfold Py.len, Py.values. now rewrite length_map. }
    rewrite Hlen, (centered (Py.values final) Hv).
    unfold Qdiv. ring.
Qed.

(** One eligible player, two courses: indices -1 and +1. *)
Lemma difficulty_indices_zero_centered_witness :
  exists indices : Py.dict Z Q,
    difficulty_indices (q_eligible_scores Sample.league) = Ok indices /\
    indices <> [] /\
    mean (Py.values indices) == 0.
Proof.
  apply (difficulty_indices_zero_centered (q_eligible_scores Sample.league)).
  vm_compute. discriminate.
Defined.

Lemma player_course_averages_spec_witness :
  exists averages,
    player_course_averages (player_data (q_eligible_scores Sample.league))
      = Ok averages /\
    (Py.get Z.eqb averages 7%Z <> None <->
     forall c, In c (courses Sample.league) ->
               (8 <= rounds_on Sample.league 7%Z (co_course_id c))%nat) /\
    (forall by_course,
        Py.get Z.eqb averages 7%Z = Some by_course ->
        forall c, In c (courses Sample.league) ->
        exists a,
          Py.get Z.eqb by_course (co_course_id c) = Some a /\
          length (Py.tail 8 (raw_scores_on Sample.league 7%Z (co_course_id c)))
            = 8%nat /\
          a == mean (map inject_Z
                         (Py.tail 8 (raw_scores_on Sample.league 7%Z
                                                   (co_course_id c))))).
Proof.
  apply (player_course_averages_spec Sample.league 7%Z).
  - simpl. repeat constructor; simpl; intuition discriminate.
  - discriminate.
  - simpl. now left.
Defined.

(* ------------------------------------------------------------------ *)
(** ** When the calculator is defined *)

Lemma update_difficulty_indices_run (d : db) :
  run update_difficulty_indices no_faults d =
  match difficulty_indices (q_eligible_scores d) with
  | Ok indices => (Ok tt, q_update_difficulty_indices indices d)
  | Raise e => (Raise e, d)
  end.
Proof.
  unfold run, update_difficulty_indices, bind, select, execute, db_call, lift,
    no_faults. simpl.
  now destruct (difficulty_indices (q_eligible_scores d)).
Qed.

(** C10. If no row of the players table is eligible, the query selects
    nothing and the overall average divides by zero: the call raises
    [ZeroDivisionError] and writes nothing.  If the roster is not empty and
    some player is eligible, no division has a zero divisor: the call
    returns, having written the indices. *)
Theorem update_difficulty_indices_defined (d : db) :
  ((forall p, In p (players d) -> eligible d (pl_discord_id p) = false) ->
   q_eligible_scores d = [] /\
   run update_difficulty_indices no_faults d = (Raise ZeroDivisionError, d))
  /\
  (courses d <> [] ->
   (exists p, In p (players d) /\ eligible d (pl_discord_id p) = true) ->
   exists indices,
     difficulty_indices (q_eligible_scores d) = Ok indices /\
     run update_difficulty_indices no_faults d
       = (Ok tt, q_update_difficulty_indices indices d)).
Proof.
  split.
  - intro Hnone.
    assert (E : q_eligible_scores d = []).
    { unfold q_eligible_scores. rewrite filter_none; [reflexivity|].
      intros s _. destruct (existsb _ _) eqn:X; [|reflexivity].
      apply existsb_exists in X as (p & Hp & Hq).
      apply andb_true_iff in Hq as [_ Hq]. rewrite (Hnone p Hp) in Hq.
      discriminate. }
    split; [exact E|]. rewrite update_difficulty_indices_run, E. reflexivity.
  - intros Hne (p & Hp & He).
    destruct (eligible_has_rows d (pl_discord_id p) Hne He) as (s & Hs & Hid).
    assert (Hrows : q_eligible_scores d <> []).
    { unfold q_eligible_scores. intro E. apply map_eq_nil in E.
      assert (Hin : In s (filter (fun s0 =>
                 existsb (fun p0 => (pl_discord_id p0 =? sr_player_id s0)%Z
                                    && eligible d (pl_discord_id p0))
                         (players d)) (scores d))).
      { apply filter_In. split; [exact Hs|].
        apply existsb_exists. exists p. split; [exact Hp|].
        now rewrite Hid, Z.eqb_refl, He. }
      rewrite E in Hin. contradiction. }
    destruct (difficulty_indices_ok (q_eligible_scores d) Hrows)
      as (final & _ & Hd).
    eexists. split; [exact Hd|].
    rewrite update_difficulty_indices_run, Hd. reflexivity.
Qed.

Lemma update_difficulty_indices_defined_witness :
  (q_eligible_scores Sample.store = [] /\
   run update_difficulty_indices no_faults Sample.store
     = (Raise ZeroDivisionError, Sample.store))
  /\
  (exists indices,
     difficulty_indices (q_eligible_scores Sample.league) = Ok indices /\
     run update_difficulty_indices no_faults Sample.league
       = (Ok tt, q_update_difficulty_indices indices Sample.league)).
Proof.
  split.
  - apply (proj1 (update_difficulty_indices_defined Sample.store)).
    intros p [<-|[]]. reflexivity.
  - apply (proj2 (update_difficulty_indices_defined Sample.league)).
    + discriminate.
    + exists (PlayerRow 7 "ann" 1000). split; [now left|reflexivity].
Defined.

(* ------------------------------------------------------------------ *)
(** ** The pipeline and the stored indices *)

Section KeepsCourses.
Lemma keeps_ret {A} (a : A) : keeps_courses (ret a).
Proof. now intros w. Qed.

Lemma keeps_lift {A} (r : result A) : keeps_courses (lift r).
Proof. now intros w. Qed.

Lemma keeps_bind {A B} (m : M A) (k : A -> M B) :
  keeps_courses m -> (forall a, keeps_courses (k a)) ->
  keeps_courses (bind m k).
Proof.
  intros Hm Hk w. unfold bind. specialize (Hm w).
  destruct (m w) as [[a|e] w']; simpl in *; [|exact Hm].
  now rewrite Hk.
Qed.

Lemma keeps_catch {A} (m : M A) (h : exn -> M A) :
  keeps_courses m -> (forall e, keeps_courses (h e)) ->
  keeps_courses (catch m h).
Proof.
  intros Hm Hh w. unfold catch. specialize (Hm w).
  destruct (m w) as [[a|e] w']; simpl in *; [exact Hm|].
  now rewrite Hh.
Qed.

Lemma keeps_select {A} (q : db -> A) : keeps_courses (select q).
Proof. intros w. unfold select, db_call. now destruct (faults w (calls w)). Qed.

Lemma keeps_execute (q : db -> db) :
  (forall d, courses (q d) = courses d) -> keeps_courses (execute q).
Proof.
  intros Hq w. unfold execute, db_call.
  destruct (faults w (calls w)); simpl; [reflexivity|apply Hq].
Qed.
End KeepsCourses.

Create HintDb keeps.
#[local] Hint Resolve keeps_ret keeps_lift keeps_select : keeps.

Lemma keeps_get_difficulty_indices : keeps_courses get_difficulty_indices.
Proof. apply keeps_catch; auto with keeps. Qed.

Lemma keeps_update_adjusted_scores : keeps_courses update_adjusted_scores.
Proof.
  unfold update_adjusted_scores.
  apply keeps_bind; [auto with keeps|]. intro rows.
  apply keeps_bind; [apply keeps_get_difficulty_indices|]. intro indices.
  apply keeps_bind; [auto with keeps|]. intro rows'.
  now apply keeps_execute.
Qed.

Lemma keeps_update_player_ratings (INVALID_RATING : Q) :
  keeps_courses (update_player_ratings INVALID_RATING).
Proof.
  unfold update_player_ratings.
  apply keeps_bind; [auto with keeps|]. intro rows.
  apply keeps_bind; [auto with keeps|]. intro rated.
  apply keeps_bind; [now apply keeps_execute|]. intros _.
  now apply keeps_execute.
Qed.

Lemma keeps_generate_rankings_table (INVALID_RATING : Q) :
  keeps_courses (generate_rankings_table INVALID_RATING).
Proof.
  unfold generate_rankings_table.
  apply keeps_bind; [apply keeps_update_adjusted_scores|]. intros _.
  apply keeps_bind; [apply keeps_update_player_ratings|]. intros _.
  apply keeps_bind.
  - apply keeps_catch; [|auto with keeps].
    apply keeps_bind; auto with keeps.
  - intros [rows|]; [|auto with keeps].
    destruct (rated_players INVALID_RATING rows); auto with keeps.
Qed.

Lemma mapM_ok {A B} (f : A -> result B) (g : A -> B) (l : list A) :
  (forall x, In x l -> f x = Ok (g x)) -> mapM f l = Ok (map g l).
Proof.
  induction l as [|x t IH]; intro H; simpl; [reflexivity|].
  rewrite (H x) by now left. simpl. rewrite IH; [reflexivity|].
  intros y Hy. apply H. now right.
Qed.

Lemma mapM_total {A B} (f : A -> result B) (l : list A) :
  (forall x, In x l -> exists y, f x = Ok y) -> exists ys, mapM f l = Ok ys.
Proof.
  induction l as [|x t IH]; intro H; simpl; [now eexists|].
  destruct (H x) as [y Hy]; [now left|]. rewrite Hy. simpl.
  destruct IH as [ys Hys]; [intros z Hz; apply H; now right|].
  rewrite Hys. simpl. now eexists.
Qed.

Lemma find_unique {A B} (key : A -> Z) (keyv : B -> Z) (g : A -> B)
      (l : list A) (x : A) :
  (forall y, keyv (g y) = key y) ->
  NoDup (map key l) -> In x l ->
  find (fun v => (keyv v =? key x)%Z) (map g l) = Some (g x).
Proof.
  intros Hg. induction l as [|y t IH]; intros Hnd Hin; [contradiction|].
  simpl in *. inversion Hnd as [|? ? Hout Hnd']; subst. rewrite Hg.
  destruct Hin as [->|Hin].
  - now rewrite Z.eqb_refl.
  - destruct (Z.eqb_spec (key y) (key x)) as [E|_]; [|now apply IH].
    exfalso. apply Hout. rewrite E. now apply in_map.
Qed.

Lemma update_adjusted_scores_run (d : db) (n : nat) :
  roster_numbered d -> courses_known d ->
  update_adjusted_scores (World d n no_faults) =
  (Ok tt,
   World (q_update_adjusted_scores
            (map (fun s => readjusted (q_difficulty_indices d)
                             (sr_round_id s, sr_course_id s, sr_score s,
                              sr_adjusted_score s))
                 (scores d)) d)
         (3 + n) no_faults).
Proof.
  intros Hnum Hknown.
  unfold update_adjusted_scores, get_difficulty_indices, bind, catch, select,
    execute, db_call, lift, no_faults. simpl.
  rewrite (mapM_ok _ (readjusted (q_difficulty_indices d))).
  - rewrite map_map. reflexivity.
  - intros [[[rid cid] sc] adj] Hin.
    apply in_map_iff in Hin as (s & Heq & Hs). injection Heq as <- <- <- <-.
    destruct (Hknown s Hs) as (c & Hc & Hid).
    pose proof (roster_index d c Hnum Hc) as Hidx. rewrite Hid in Hidx.
    unfold readjusted. unfold index_or_raise in *.
    destruct (Py.index (q_difficulty_indices d) (sr_course_id s - 1));
      [reflexivity|discriminate].
Qed.

Lemma q_update_adjusted_scores_scores (d : db) :
  NoDup (map sr_round_id (scores d)) ->
  scores (q_update_adjusted_scores
            (map (fun s => readjusted (q_difficulty_indices d)
                             (sr_round_id s, sr_course_id s, sr_score s,
                              sr_adjusted_score s))
                 (scores d)) d)
  = map (fun s =>
           set_sr_adjusted_score
             (snd (readjusted (q_difficulty_indices d)
                     (sr_round_id s, sr_course_id s, sr_score s,
                      sr_adjusted_score s))) s)
        (scores d).
Proof.
  intro Hnd. unfold q_update_adjusted_scores, with_scores. cbn [scores].
  apply map_ext_in. intros s Hs.
  rewrite (find_unique sr_round_id (fun v : Z * Z * Z * Q => fst (fst (fst v)))
             (fun s0 => readjusted (q_difficulty_indices d)
                          (sr_round_id s0, sr_course_id s0, sr_score s0,
                           sr_adjusted_score s0))
             (scores d) s); auto.
Qed.

Lemma index_last {A} (l : list A) :
  l <> [] -> exists x, index_or_raise l (-1) = Ok x.
Proof.
  intro H. unfold index_or_raise, Py.index.
  destruct l as [|a t]; [contradiction|].
  replace (0 <=? -1)%Z with false by reflexivity.
  replace (- Z.of_nat (length (a :: t)) <=? -1)%Z with true
    by (symmetry; apply Z.leb_le; cbn [length]; lia).
  destruct (nth_error (a :: t) (Z.to_nat (Z.of_nat (length (a :: t)) + -1)))
    eqn:E; [now eexists|].
  apply nth_error_None in E. cbn [length] in E. lia.
Qed.

Lemma replay_length (INVALID_RATING : Q) (es : list rating_entry) :
  length (replay INVALID_RATING es) = length es.
Proof. apply (replay_prefix_invariant INVALID_RATING es (length es)). Qed.

Lemma score_data_dict_group (rows : list (Z * Z * Z * Z * Q)) :
  score_data_dict rows =
  group (fun r => snd (fst (fst (fst r))))
        (fun r => RatingEntry (fst (fst (fst (fst r)))) (snd (fst (fst r)))
                              (snd (fst r)) (snd r) 0)
        rows [].
Proof.
  unfold score_data_dict, group. apply fold_left_ext.
  now intros dct [[[[rid pid] ts] cid] adj].
Qed.

(** Replaying never raises: every player of the dictionary has a round. *)
Lemma rate_players_total (INVALID_RATING : Q)
      (rows : list (Z * Z * Z * Z * Q)) :
  exists rated,
    mapM (rate_player INVALID_RATING) (score_data_dict rows) = Ok rated.
Proof.
  apply mapM_total. intros [pid entries] Hin.
  assert (Hne : entries <> []).
  { pose proof (group_values_not_nil
                  (fun r : Z * Z * Z * Z * Q => snd (fst (fst (fst r))))
                  (fun r => RatingEntry (fst (fst (fst (fst r))))
                              (snd (fst (fst r))) (snd (fst r)) (snd r) 0)
                  rows [] (Forall_nil _)) as H.
    rewrite <- score_data_dict_group in H.
    rewrite Forall_forall in H. apply H.
    unfold Py.values. apply in_map_iff. now exists (pid, entries). }
  unfold rate_player.
  destruct (index_last (replay INVALID_RATING
                          (Py.sort_by Z.ltb re_timestamp entries)))
    as [x Hx].
  - intro E. apply (f_equal (@length _)) in E.
    rewrite replay_length, sort_by_length in E. now destruct entries.
  - rewrite Hx. simpl. now eexists.
Qed.

Lemma update_player_ratings_run (INVALID_RATING : Q) (d : db) (n : nat) :
  exists flat current,
    update_player_ratings INVALID_RATING (World d n no_faults) =
    (Ok tt,
     World (q_update_player_ratings current (q_update_ratings flat d))
           (3 + n) no_faults).
Proof.
  unfold update_player_ratings, bind, select, execute, db_call, lift, no_faults.
  simpl.
  destruct (rate_players_total INVALID_RATING
              (map (fun r => (sr_round_id r, sr_player_id r, sr_timestamp r,
                              sr_course_id r, sr_adjusted_score r))
                   (scores d))) as [rated Hr].
  rewrite Hr. now do 2 eexists.
Qed.

Lemma q_update_ratings_keeps (flat : list rating_entry) (d : db) (s' : score_row) :
  In s' (scores (q_update_ratings flat d)) ->
  exists s, In s (scores d) /\
            sr_course_id s' = sr_course_id s /\
            sr_score s' = sr_score s /\
            sr_adjusted_score s' = sr_adjusted_score s.
Proof.
  unfold q_update_ratings. simpl. intro H.
  apply in_map_iff in H as (s & <- & Hs). exists s.
  destruct (find _ flat); auto.
Qed.

(** C9, as the code has it.  No run of [generate_rankings_table] writes to
    the courses table: whatever the storage does, the stored difficulty
    indices after the run are those before it.  A run without storage
    failure, on a roster numbered 1..n with distinct round ids and every
    score on a course of the roster, returns, leaves every adjusted score
    equal to the raw score minus the index stored for its course, and
    publishes the ranking of the players table as it then stands. *)
Theorem generate_rankings_table_keeps_indices (INVALID_RATING : Q) (d : db) :
  (forall f : nat -> bool,
      courses (snd (run (generate_rankings_table INVALID_RATING) f d))
      = courses d)
  /\
  (roster_numbered d ->
   NoDup (map sr_round_id (scores d)) ->
   courses_known d ->
   exists sheet d',
     run (generate_rankings_table INVALID_RATING) no_faults d = (Ok sheet, d')
     /\ courses d' = courses d
     /\ adjusted_by_stored_indices d'
     /\ sheet = match rated_players INVALID_RATING (players d') with
                | [] => None
                | _ :: _ => Some (rankings_sheet INVALID_RATING (players d'))
                end).
Proof.
  split.
  - intro f. unfold run.
    pose proof (keeps_generate_rankings_table INVALID_RATING (World d 0 f)) as H.
    destruct (generate_rankings_table INVALID_RATING (World d 0 f)) as [r w].
    exact H.
  - intros Hnum Hnd Hknown.
    unfold run, generate_rankings_table. unfold bind at 1.
    rewrite (update_adjusted_scores_run d 0 Hnum Hknown).
    set (d1 := q_update_adjusted_scores _ d).
    unfold bind at 1.
    destruct (update_player_ratings_run INVALID_RATING d1 (3 + 0))
      as (flat & current & Hrun).
    rewrite Hrun.
    set (d2 := q_update_player_ratings current (q_update_ratings flat d1)).
    assert (Hadj : adjusted_by_stored_indices d2).
    { intros s' Hs'.
      destruct (q_update_ratings_keeps flat d1 s' Hs')
        as (s1 & Hs1 & Hc & Hsc & Ha).
      unfold d1 in Hs1. rewrite (q_update_adjusted_scores_scores d Hnd) in Hs1.
      apply in_map_iff in Hs1 as (s & <- & Hs).
      destruct (Hknown s Hs) as (c & Hcin & Hid).
      exists c. split; [exact Hcin|]. split; [now rewrite Hc|].
      rewrite Ha, Hsc. cbn [sr_adjusted_score sr_score set_sr_adjusted_score
                            readjusted snd].
      pose proof (roster_index d c Hnum Hcin) as Hidx. rewrite Hid in Hidx.
      unfold index_or_raise in Hidx.
      destruct (Py.index (q_difficulty_indices d) (sr_course_id s - 1));
        [|discriminate].
      now injection Hidx as ->. }
    unfold bind, catch, select, db_call, ret, no_faults.
    cbn [store calls faults fst snd].
    destruct (rated_players INVALID_RATING (players d2)) eqn:Hrated;
      exists (match rated_players INVALID_RATING (players d2) with
              | [] => None
              | _ :: _ => Some (rankings_sheet INVALID_RATING (players d2))
              end), d2;
      (split; [now rewrite Hrated|]);
      (split; [reflexivity|]); (split; [exact Hadj|reflexivity]).
Qed.

Lemma generate_rankings_table_keeps_indices_witness :
  (forall f : nat -> bool,
      courses (snd (run (generate_rankings_table 1000) f Sample.league))
      = courses Sample.league)
  /\
  exists sheet d',
    run (generate_rankings_table 1000) no_faults Sample.league = (Ok sheet, d')
    /\ courses d' = courses Sample.league
    /\ adjusted_by_stored_indices d'
    /\ sheet = match rated_players 1000 (players d') with
               | [] => None
               | _ :: _ => Some (rankings_sheet 1000 (players d'))
               end.
Proof.
  destruct (generate_rankings_table_keeps_indices 1000 Sample.league) as [H1 H2].
  split; [exact H1|]. apply H2.
  - reflexivity.
  - vm_compute. repeat constructor; simpl; intuition discriminate.
  - intros s Hs.
    assert (Hc : sr_course_id s = 1%Z \/ sr_course_id s = 2%Z).
    { vm_compute in Hs. intuition (subst; auto). }
    destruct Hc as [E|E]; rewrite E.
    + exists (CourseRow 1 "Toad Highlands" "Front" 0). simpl. auto.
    + exists (CourseRow 2 "Toad Highlands" "Back" 0). simpl. auto.
Defined.

(** After a run on a ledger whose stored indices are still 0 although the
    calculator, on that very ledger, gives -1 and +1, the stored index of the
    front nine is not the calculator's. *)
Lemma generate_rankings_table_stale_indices :
  ~ (forall (INVALID_RATING : Q) (d : db) sheet (d' : db),
        run (generate_rankings_table INVALID_RATING) no_faults d = (Ok sheet, d') ->
        forall indices,
          difficulty_indices (q_eligible_scores d') = Ok indices ->
          forall c, In c (courses d') ->
          exists v, Py.get Z.eqb indices (co_course_id c) = Some v /\
                    v == co_difficulty_index c).
Proof.
  intro H.
  assert (E : exists sheet d' indices v,
             run (generate_rankings_table 1000) no_faults Sample.league
               = (Ok sheet, d')
             /\ difficulty_indices (q_eligible_scores d') = Ok indices
             /\ In (CourseRow 1 "Toad Highlands" "Front" 0) (courses d')
             /\ Py.get Z.eqb indices 1%Z = Some v
             /\ ~ v == 0).
  { do 4 eexists. split; [vm_compute; reflexivity|].
    split; [vm_compute; reflexivity|].
    split; [vm_compute; auto|].
    split; [vm_compute; reflexivity|].
    vm_compute. discriminate. }
  destruct E as (sheet & d' & indices & v & Hrun & Hidx & Hin & Hv & Hne).
  destruct (H 1000 Sample.league sheet d' Hrun indices Hidx _ Hin)
    as (v' & Hv' & Heq).
  simpl in Hv'. rewrite Hv in Hv'. injection Hv' as <-. contradiction.
Qed.

(* ------------------------------------------------------------------ *)
(** ** The queue, once more: ids that were never there or are gone *)

(** X1. Verifying an id that no pending row carries changes nothing in the
    store and answers "Queue is currently empty." or "ID not found in
    queue.", whichever storage calls fail. *)
Theorem verify_unknown_id (INVALID_RATING : Q) (f : nat -> bool) (d : db)
        (hash : string) :
  absent hash d ->
  exists r, run (verify_score INVALID_RATING true hash) f d = (Ok r, d) /\
            (r = QueueEmpty \/ r = IdNotFound).
Proof. apply verify_score_absent. Qed.

Lemma verify_unknown_id_witness :
  exists r,
    run (verify_score 1000 true "noSuchRound00000") (fault_at 1) Sample.store
      = (Ok r, Sample.store) /\
    (r = QueueEmpty \/ r = IdNotFound).
Proof.
  apply (verify_unknown_id 1000 (fault_at 1) Sample.store "noSuchRound00000").
  intros r [<-|[]]. discriminate.
Defined.

Lemma verify_score_at_most_once_witness :
  exists r,
    run (verify_score 1000 true Sample.round) no_faults
        (snd (run (verify_score 1000 true Sample.round) no_faults Sample.store))
    = (Ok r, snd (run (verify_score 1000 true Sample.round) no_faults Sample.store))
    /\ (r = QueueEmpty \/ r = IdNotFound).
Proof.
  apply (verify_score_at_most_once 1000 no_faults Sample.store).
  vm_compute. reflexivity.
Defined.

(* ================================================================== *)
(** * More of the code: the rating history written by [update_player_ratings] *)

Lemma q_player_adjusted_scores_rounds (d : db) (pid : Z) :
  q_player_adjusted_scores pid d = map sr_adjusted_score (rounds_of d pid).
Proof. reflexivity. Qed.

Lemma score_data_dict_get (S : list score_row) (pid : Z) :
  Py.get Z.eqb
    (score_data_dict
       (map (fun r => (sr_round_id r, sr_player_id r, sr_timestamp r,
                       sr_course_id r, sr_adjusted_score r)) S))
    pid
  = extend None
      (map entry_of_row (filter (fun r => (sr_player_id r =? pid)%Z) S)).
Proof.
  rewrite score_data_dict_group, get_group. simpl (Py.get _ [] _).
  now rewrite filter_map_comm, map_map.
Qed.

Lemma sorted_entries (X : list score_row) :
  Py.sort_by Z.ltb re_timestamp (map entry_of_row X)
  = map entry_of_row (Py.sort_by Z.ltb sr_timestamp X).
Proof. now apply sort_by_map_keys. Qed.

Lemma index_minus_one {A} (l : list A) :
  l <> [] ->
  index_or_raise l (-1) =
  match nth_error l (length l - 1) with
  | Some x => Ok x
  | None => Raise IndexError
  end.
Proof.
  intro H. unfold index_or_raise, Py.index.
  destruct l as [|a t]; [contradiction|].
  replace (0 <=? -1)%Z with false by reflexivity.
  replace (- Z.of_nat (length (a :: t)) <=? -1)%Z with true
    by (symmetry; apply Z.leb_le; cbn [length]; lia).
  replace (Z.to_nat (Z.of_nat (length (a :: t)) + -1))
    with (length (a :: t) - 1)%nat by (cbn [length]; lia).
  reflexivity.
Qed.

Lemma rate_player_ok (INVALID_RATING : Q) (item : Z * list rating_entry) :
  snd item <> [] ->
  rate_player INVALID_RATING item = Ok (rated INVALID_RATING item).
Proof.
  destruct item as [pid entries]. cbn [snd]. intro Hne.
  unfold rate_player, rated. cbn [fst snd].
  set (es := Py.sort_by Z.ltb re_timestamp entries).
  assert (Hlen : (0 < length es)%nat).
  { unfold es. rewrite sort_by_length. destruct entries; [contradiction|].
    cbn [length]. lia. }
  rewrite index_minus_one.
  - pose proof (replay_nth_rating INVALID_RATING es (length es - 1)) as H.
    rewrite replay_length.
    destruct (nth_error (replay INVALID_RATING es) (length es - 1)) as [x|].
    + cbn [rbind]. do 3 f_equal.
      assert (Hx : Some (re_rating x) =
                   Some (calculate_player_rating INVALID_RATING
                           (firstn (length es - 1 + 1) (map re_adjusted_score es))))
        by (apply H; lia).
      injection Hx as ->.
      replace (length es - 1 + 1)%nat with (length (map re_adjusted_score es))
        by (rewrite length_map; lia).
      now rewrite firstn_all.
    + assert (None = Some (calculate_player_rating INVALID_RATING
                           (firstn (length es - 1 + 1) (map re_adjusted_score es))))
        by (apply H; lia).
      discriminate.
  - intro E. apply (f_equal (@length _)) in E. rewrite replay_length in E.
    cbn [length] in E. lia.
Qed.

Lemma score_data_dict_not_nil (rows : list (Z * Z * Z * Z * Q)) :
  Forall (fun es => es <> []) (Py.values (score_data_dict rows)).
Proof.
  rewrite score_data_dict_group. apply group_values_not_nil. constructor.
Qed.

Lemma rate_players_ok (INVALID_RATING : Q) (rows : list (Z * Z * Z * Z * Q)) :
  mapM (rate_player INVALID_RATING) (score_data_dict rows)
  = Ok (map (rated INVALID_RATING) (score_data_dict rows)).
Proof.
  apply mapM_ok. intros [pid entries] Hin. apply rate_player_ok.
  pose proof (score_data_dict_not_nil rows) as H. rewrite Forall_forall in H.
  apply H. unfold Py.values. apply in_map_iff. now exists (pid, entries).
Qed.

Lemma update_player_ratings_no_faults (INVALID_RATING : Q) (d : db) :
  let dct := score_data_dict
               (map (fun r => (sr_round_id r, sr_player_id r, sr_timestamp r,
                               sr_course_id r, sr_adjusted_score r))
                    (scores d)) in
  run (update_player_ratings INVALID_RATING) no_faults d =
  (Ok tt,
   q_update_player_ratings
     (map (fun item => snd (rated INVALID_RATING item)) dct)
     (q_update_ratings
        (concat (map (fun item => snd (fst (rated INVALID_RATING item))) dct))
        d)).
Proof.
  cbv zeta.
  unfold run, update_player_ratings, bind, select, execute, db_call, lift,
    no_faults. cbn [store calls faults].
  rewrite rate_players_ok. cbn [store calls faults]. now rewrite !map_map.
Qed.

Lemma find_dict_values {V W} (h : V -> W) (d : Py.dict Z V) (k : Z) :
  find (fun v : Z * W => (fst v =? k)%Z)
       (map (fun item => (fst item, h (snd item))) d)
  = option_map (fun v => (k, h v)) (Py.get Z.eqb d k).
Proof.
  induction d as [|[k0 v0] t IH]; simpl; [reflexivity|].
  destruct (Z.eqb_spec k0 k) as [->|Hne]; [reflexivity|exact IH].
Qed.

Lemma sort_by_nil_iff {A} (key : A -> Z) (l : list A) :
  Py.sort_by Z.ltb key l = [] <-> l = [].
Proof.
  split; intro H.
  - apply (f_equal (@length _)) in H. rewrite sort_by_length in H.
    now destruct l.
  - now subst.
Qed.

(** The players table after the replay: a player with recorded rounds
    carries the rating of all adjusted scores, oldest first; the others keep
    what they had. *)
Lemma update_player_ratings_players (INVALID_RATING : Q) (d : db) :
  players (snd (run (update_player_ratings INVALID_RATING) no_faults d))
  = map (fun p =>
           match q_player_adjusted_scores (pl_discord_id p) d with
           | [] => p
           | _ :: _ =>
               set_pl_rating
                 (calculate_player_rating INVALID_RATING
                    (q_player_adjusted_scores (pl_discord_id p) d)) p
           end)
        (players d).
Proof.
  rewrite update_player_ratings_no_faults. cbn [snd].
  unfold q_update_player_ratings, with_players. cbn [players].
  unfold q_update_ratings, with_scores. cbn [players].
  apply map_ext. intro p.
  change (fun item : Z * list rating_entry => snd (rated INVALID_RATING item))
    with (fun item : Z * list rating_entry =>
            (fst item,
             (fun es => calculate_player_rating INVALID_RATING
                          (map re_adjusted_score
                               (Py.sort_by Z.ltb re_timestamp es)))
               (snd item))).
  rewrite (find_dict_values
             (fun es => calculate_player_rating INVALID_RATING
                          (map re_adjusted_score
                               (Py.sort_by Z.ltb re_timestamp es)))).
  rewrite score_data_dict_get, extend_None.
  unfold q_player_adjusted_scores.
  set (F := filter (fun r => (sr_player_id r =? pl_discord_id p)%Z) (scores d)).
  destruct F as [|s F'] eqn:EF; [reflexivity|]. rewrite <- EF.
  destruct (map entry_of_row F) as [|e es] eqn:Em;
    [rewrite EF in Em; discriminate|]. rewrite <- Em.
  cbn [option_map snd].
  rewrite sorted_entries, map_map.
  change (fun x : score_row => re_adjusted_score (entry_of_row x))
    with sr_adjusted_score.
  destruct (map sr_adjusted_score (Py.sort_by Z.ltb sr_timestamp F)) eqn:E;
    [|reflexivity].
  apply map_eq_nil in E. apply sort_by_nil_iff in E. rewrite EF in E.
  discriminate.
Qed.

Lemma concat_append_to {V} (d : Py.dict Z (list V)) (k : Z) (v : V) :
  Permutation (concat (Py.values (Py.append_to d k v)))
              (concat (Py.values d) ++ [v]).
Proof.
  unfold Py.append_to. induction d as [|[k0 l0] t IH]; simpl; [reflexivity|].
  destruct (k0 =? k)%Z; simpl.
  - rewrite <- !app_assoc. apply Permutation_app_head, Permutation_app_comm.
  - rewrite IH. now rewrite app_assoc.
Qed.

(** Grouping loses no row and invents none. *)
Lemma concat_group {A V} (kf : A -> Z) (vf : A -> V) (l : list A)
      (d0 : Py.dict Z (list V)) :
  Permutation (concat (Py.values (group kf vf l d0)))
              (concat (Py.values d0) ++ map vf l).
Proof.
  revert d0. induction l as [|x t IH]; intro d0; simpl.
  - now rewrite app_nil_r.
  - unfold group in *. simpl. rewrite IH, concat_append_to.
    now rewrite <- app_assoc.
Qed.

Lemma set_at_round_ids (es : list rating_entry) (i : nat) (r : Q) :
  map re_round_id (Py.set_at es i (set_re_rating r)) = map re_round_id es.
Proof.
  revert i; induction es as [|e es IH]; intros [|i]; simpl; auto.
  now rewrite IH.
Qed.

Lemma replay_round_ids (INVALID_RATING : Q) (es : list rating_entry) :
  map re_round_id (replay INVALID_RATING es) = map re_round_id es.
Proof.
  unfold replay.
  apply (fold_left_invariant (replay_step INVALID_RATING)
           (fun l => map re_round_id l = map re_round_id es)); [|reflexivity].
  intros l i H. unfold replay_step. now rewrite set_at_round_ids.
Qed.

(** The rows sent to the [UPDATE] of the ratings carry every round id of
    the scores table, each once when the table has each once. *)
Lemma flattened_round_ids (INVALID_RATING : Q) (S : list score_row) :
  Permutation
    (map re_round_id
       (concat
          (map (fun item => snd (fst (rated INVALID_RATING item)))
               (score_data_dict
                  (map (fun r => (sr_round_id r, sr_player_id r, sr_timestamp r,
                                  sr_course_id r, sr_adjusted_score r)) S)))))
    (map sr_round_id S).
Proof.
  set (dct := score_data_dict _).
  rewrite concat_map, map_map.
  transitivity (concat (map (map re_round_id) (Py.values dct))).
  - unfold Py.values. rewrite map_map.
    assert (H : forall (l : list (Z * list rating_entry)),
               Permutation
                 (concat (map (fun x => map re_round_id
                                          (snd (fst (rated INVALID_RATING x)))) l))
                 (concat (map (fun x => map re_round_id (snd x)) l))).
    { induction l as [|[k es] t IH]; simpl; [reflexivity|].
      apply Permutation_app; [|exact IH].
      rewrite replay_round_ids. apply Permutation_map, sort_by_perm. }
    apply H.
  - rewrite <- concat_map. unfold dct.
    rewrite score_data_dict_group.
    rewrite (Permutation_map re_round_id (concat_group _ _ _ [])).
    simpl. rewrite !map_map. reflexivity.
Qed.

Lemma find_by_key {A} (key : A -> Z) (l : list A) (x : A) :
  NoDup (map key l) -> In x l ->
  find (fun v => (key v =? key x)%Z) l = Some x.
Proof.
  induction l as [|y t IH]; intros Hnd Hin; [contradiction|].
  simpl in *. inversion Hnd as [|? ? Hout Hnd']; subst.
  destruct Hin as [->|Hin]; [now rewrite Z.eqb_refl|].
  destruct (Z.eqb_spec (key y) (key x)) as [E|_]; [|now apply IH].
  exfalso. apply Hout. rewrite E. now apply in_map.
Qed.

Lemma dict_get_In {V} (d : Py.dict Z V) (k : Z) (v : V) :
  Py.get Z.eqb d k = Some v -> In (k, v) d.
Proof.
  induction d as [|[k0 v0] t IH]; simpl; [discriminate|].
  destruct (Z.eqb_spec k0 k) as [->|Hne].
  - intro H. injection H as ->. now left.
  - intro H. right. now apply IH.
Qed.

(** The entry the replay holds for the round at position [i] of a player's
    history. *)
Lemma replayed_entry (INVALID_RATING : Q) (R : list score_row) (i : nat)
      (s : score_row) :
  nth_error R i = Some s ->
  nth_error (replay INVALID_RATING (map entry_of_row R)) i =
  Some (set_re_rating
          (calculate_player_rating INVALID_RATING
             (firstn (i + 1) (map sr_adjusted_score R)))
          (entry_of_row s)).
Proof.
  intro Hi.
  destruct (replay_prefix_invariant INVALID_RATING (map entry_of_row R)
              (length (map entry_of_row R))) as (_ & _ & H).
  unfold replay. rewrite H.
  assert (Hlt : (i < length R)%nat) by (apply nth_error_Some; congruence).
  rewrite length_map. apply Nat.ltb_lt in Hlt. rewrite Hlt.
  rewrite nth_error_map, Hi. cbn [option_map]. rewrite map_map.
  reflexivity.
Qed.

(** What the [UPDATE] of the ratings finds for that round. *)
Lemma flattened_find (INVALID_RATING : Q) (d : db) (pid : Z) (i : nat)
      (s : score_row) :
  NoDup (map sr_round_id (scores d)) ->
  nth_error (rounds_of d pid) i = Some s ->
  find (fun v => (re_round_id v =? sr_round_id s)%Z)
       (concat
          (map (fun item => snd (fst (rated INVALID_RATING item)))
               (score_data_dict
                  (map (fun r => (sr_round_id r, sr_player_id r, sr_timestamp r,
                                  sr_course_id r, sr_adjusted_score r))
                       (scores d)))))
  = Some (set_re_rating
            (calculate_player_rating INVALID_RATING
               (firstn (i + 1) (q_player_adjusted_scores pid d)))
            (entry_of_row s)).
Proof.
  intros Hnd Hi.
  set (e := set_re_rating _ (entry_of_row s)).
  change (sr_round_id s) with (re_round_id e).
  apply find_by_key.
  - eapply Permutation_NoDup; [|exact Hnd].
    symmetry. apply flattened_round_ids.
  - apply in_concat.
    exists (replay INVALID_RATING (map entry_of_row (rounds_of d pid))). split.
    + apply in_map_iff.
      exists (pid, map entry_of_row
                     (filter (fun r => (sr_player_id r =? pid)%Z) (scores d))).
      split.
      * unfold rated. cbn [fst snd]. now rewrite sorted_entries.
      * apply dict_get_In. rewrite score_data_dict_get, extend_None.
        destruct (filter _ (scores d)) as [|x F] eqn:EF; [|reflexivity].
        unfold rounds_of in Hi. rewrite EF in Hi. now destruct i.
    + apply nth_error_In with i. unfold e.
      rewrite q_player_adjusted_scores_rounds. now apply replayed_entry.
Qed.

Lemma q_update_ratings_rounds (flat : list rating_entry) (d : db) (pid : Z) :
  rounds_of (q_update_ratings flat d) pid
  = map (fun s =>
           match find (fun v => (re_round_id v =? sr_round_id s)%Z) flat with
           | Some v => set_sr_rating (re_rating v) s
           | None => s
           end)
        (rounds_of d pid).
Proof.
  unfold rounds_of, q_update_ratings, with_scores. cbn [scores].
  set (g := fun s : score_row =>
              match find (fun v => (re_round_id v =? sr_round_id s)%Z) flat with
              | Some v => set_sr_rating (re_rating v) s
              | None => s
              end).
  assert (Hp : forall y, sr_player_id (g y) = sr_player_id y).
  { intro y. unfold g. now destruct (find _ flat). }
  assert (Ht : forall y, sr_timestamp (g y) = sr_timestamp y).
  { intro y. unfold g. now destruct (find _ flat). }
  rewrite filter_map_same by (intro y; now rewrite Hp).
  now rewrite sort_by_map by exact Ht.
Qed.

Lemma rounds_of_update_players (current : list (Z * Q)) (d : db) (pid : Z) :
  rounds_of (q_update_player_ratings current d) pid = rounds_of d pid.
Proof. reflexivity. Qed.

(** X4. [update_player_ratings], run without storage failure on a scores
    table whose round ids are distinct, returns and rewrites ratings only: in
    every player's history, oldest first, the k-th round carries the rating
    of the first k adjusted scores; a row of the players table whose player
    has rounds carries the rating of all of them, the other rows keep their
    rating; pending rows, courses, and every other column of the scores are
    as before. *)
Theorem update_player_ratings_history (INVALID_RATING : Q) (d : db) :
  NoDup (map sr_round_id (scores d)) ->
  exists d',
    run (update_player_ratings INVALID_RATING) no_faults d = (Ok tt, d')
    /\ pending_scores d' = pending_scores d
    /\ courses d' = courses d
    /\ map forget_rating (scores d') = map forget_rating (scores d)
    /\ (forall pid,
          map sr_rating (rounds_of d' pid) =
          map (fun k => Some (calculate_player_rating INVALID_RATING
                                (firstn k (q_player_adjusted_scores pid d))))
              (seq 1 (length (rounds_of d pid))))
    /\ players d' =
       map (fun p =>
              match q_player_adjusted_scores (pl_discord_id p) d with
              | [] => p
              | _ :: _ =>
                  set_pl_rating
                    (calculate_player_rating INVALID_RATING
                       (q_player_adjusted_scores (pl_discord_id p) d)) p
              end)
           (players d).
Proof.
  intro Hnd.
  pose proof (update_player_ratings_players INVALID_RATING d) as Hpl.
  rewrite update_player_ratings_no_faults in *. cbv zeta in *. cbn [snd] in Hpl.
  eexists. split; [reflexivity|].
  split; [reflexivity|]. split; [reflexivity|]. split; [|split].
  - unfold q_update_player_ratings, with_players, q_update_ratings, with_scores.
    cbn [scores]. rewrite map_map. apply map_ext. intro s.
    now destruct (find _ _).
  - intro pid.
    rewrite rounds_of_update_players, q_update_ratings_rounds, map_map.
    apply nth_error_ext. intro n. rewrite !nth_error_map.
    destruct (nth_error (rounds_of d pid) n) as [s|] eqn:En.
    + assert (Hlt : (n < length (rounds_of d pid))%nat)
        by (apply nth_error_Some; congruence).
      rewrite nth_error_seq. apply Nat.ltb_lt in Hlt. rewrite Hlt.
      cbn [option_map].
      rewrite (flattened_find INVALID_RATING d pid n s Hnd En).
      cbn [sr_rating set_sr_rating re_rating set_re_rating].
      now rewrite Nat.add_comm.
    + apply nth_error_None in En. rewrite nth_error_seq.
      apply Nat.ltb_ge in En. now rewrite En.
  - exact Hpl.
Qed.

(** The five verified rounds of the sample: none reaches the sixth round
    that a rating takes. *)
Lemma update_player_ratings_history_witness :
  exists d',
    run (update_player_ratings 1000) no_faults Sample.store = (Ok tt, d')
    /\ map forget_rating (scores d') = map forget_rating (scores Sample.store)
    /\ map sr_rating (rounds_of d' 7) =
       [Some 1000; Some 1000; Some 1000; Some 1000; Some 1000]
    /\ map pl_rating (players d') = [1000].
Proof.
  destruct (update_player_ratings_history 1000 Sample.store)
    as (d' & Hrun & _ & _ & Hf & Hh & Hp).
  - vm_compute. repeat constructor; simpl; intuition discriminate.
  - exists d'. split; [exact Hrun|]. split; [exact Hf|]. split.
    + rewrite Hh. reflexivity.
    + rewrite Hp. reflexivity.
Defined.

(* ================================================================== *)
(** * More of the code: display names *)

(** X5. Whatever the storage does, [change_player_display_name] touches
    nothing but names in the players table: pending rows, scores, courses,
    and the ids and ratings of the players are as before.  It reports the
    change only for a name of at most 32 characters and an author who has a
    row, and then exactly the author's rows carry the new name; in every other
    case (name too long, no row, storage failure) the store is unchanged.  A
    name of more than 32 characters is refused before any storage call. *)
Theorem change_player_display_name_effect (f : nat -> bool) (d : db)
        (player_id : Z) (new_name : string) :
  exists r d',
    run (change_player_display_name player_id new_name) f d = (r, d')
    /\ pending_scores d' = pending_scores d
    /\ scores d' = scores d
    /\ courses d' = courses d
    /\ map pl_discord_id (players d') = map pl_discord_id (players d)
    /\ map pl_rating (players d') = map pl_rating (players d)
    /\ (r = Ok (NameChanged new_name) ->
        (String.length new_name <= 32)%nat
        /\ In player_id (map pl_discord_id (players d))
        /\ players d' =
           map (fun p => if (pl_discord_id p =? player_id)%Z
                         then PlayerRow (pl_discord_id p) new_name (pl_rating p)
                         else p)
               (players d))
    /\ (r <> Ok (NameChanged new_name) -> d' = d)
    /\ ((32 < String.length new_name)%nat -> r = Ok NameTooLong).
Proof.
  unfold run, change_player_display_name.
  destruct (Nat.ltb_spec 32 (String.length new_name)) as [Hlong|Hshort].
  - do 2 eexists. split; [reflexivity|]. cbn [store snd].
    repeat split; try reflexivity; try discriminate.
  - unfold bind, select, execute, db_call, ret. cbn [store calls faults].
    destruct (f 0%nat).
    + do 2 eexists. split; [reflexivity|]. cbn [store].
      repeat split; try reflexivity; try discriminate; try lia.
    + cbn [store calls faults].
      destruct (existsb (Z.eqb player_id) (map pl_discord_id (players d))) eqn:E.
      * cbn [negb store calls faults]. destruct (f 1%nat).
        -- do 2 eexists. split; [reflexivity|]. cbn [store].
           repeat split; try reflexivity; try discriminate; try lia.
        -- do 2 eexists. split; [reflexivity|]. cbn [store].
           split; [reflexivity|]. split; [reflexivity|]. split; [reflexivity|].
           split.
           { unfold q_update_player_name, with_players. cbn [players].
             rewrite map_map. apply map_ext. intro p.
             now destruct (pl_discord_id p =? player_id)%Z. }
           split.
           { unfold q_update_player_name, with_players. cbn [players].
             rewrite map_map. apply map_ext. intro p.
             now destruct (pl_discord_id p =? player_id)%Z. }
           split.
           { intros _. split; [exact Hshort|]. split; [|reflexivity].
             apply existsb_exists in E as (x & Hx & Hid).
             apply Z.eqb_eq in Hid. now subst. }
           split; [intro H; now contradiction H|]. lia.
      * cbn [negb]. do 2 eexists. split; [reflexivity|]. cbn [store].
        repeat split; try reflexivity; try discriminate; try lia.
Qed.

Lemma q_upsert_player_names (player_id : Z) (name : string) (rating : Q)
      (d : db) (p' : player_row) :
  In p' (players (q_upsert_player player_id name rating d)) ->
  (exists p, In p (players d) /\ pl_discord_id p = pl_discord_id p' /\
             pl_player_name p = pl_player_name p')
  \/ (forall p, In p (players d) -> pl_discord_id p <> pl_discord_id p').
Proof.
  unfold q_upsert_player.
  destruct (existsb _ (players d)) eqn:E; simpl; intro Hin.
  - left. apply in_map_iff in Hin as (p & <- & Hp). exists p.
    split; [exact Hp|]. now destruct (pl_discord_id p =? player_id)%Z.
  - apply in_app_or in Hin as [Hin|[<-|[]]].
    + left. now exists p'.
    + right. intros p Hp Hid. simpl in Hid.
      assert (existsb (fun q => (pl_discord_id q =? player_id)%Z) (players d) = true).
      { apply existsb_exists. exists p. split; [exact Hp|now apply Z.eqb_eq]. }
      congruence.
Qed.

(** In the store left by [verify_score], a row of the players table has the
    id and the name of a row that was there, or an id that had no row. *)
Lemma verify_score_names (INVALID_RATING : Q) (is_moderator : bool)
      (hash : string) (f : nat -> bool) (d : db) (p' : player_row) :
  In p' (players (snd (run (verify_score INVALID_RATING is_moderator hash) f d))) ->
  (exists p, In p (players d) /\ pl_discord_id p = pl_discord_id p' /\
             pl_player_name p = pl_player_name p')
  \/ (forall p, In p (players d) -> pl_discord_id p <> pl_discord_id p').
Proof.
  destruct is_moderator; [|intro H; left; now exists p'].
  rewrite verify_score_run.
  assert (Hsame : In p' (players d) ->
            (exists p, In p (players d) /\ pl_discord_id p = pl_discord_id p' /\
                       pl_player_name p = pl_player_name p')
            \/ (forall p, In p (players d) -> pl_discord_id p <> pl_discord_id p'))
    by (intro H; left; now exists p').
  destruct (f 0%nat || q_queue_empty d); [exact Hsame|].
  destruct (if f 1%nat then None else hd_error (q_pending_round hash d));
    [|exact Hsame].
  destruct (index_or_raise _ _); [|exact Hsame].
  cbv zeta.
  destruct (f 3%nat); [exact Hsame|]. destruct (f 4%nat); [exact Hsame|].
  destruct (f 5%nat); [exact Hsame|]. destruct (f 6%nat); [exact Hsame|].
  destruct (f 7%nat); [exact Hsame|].
  cbn [snd]. intro Hin. apply q_upsert_player_names in Hin. exact Hin.
Qed.

(** What an applied name change has done. *)
Lemma change_player_display_name_applied (d d1 : db) (player_id : Z)
      (new_name : string) :
  run (change_player_display_name player_id new_name) no_faults d
    = (Ok (NameChanged new_name), d1) ->
  In player_id (map pl_discord_id (players d))
  /\ players d1 =
     map (fun p => if (pl_discord_id p =? player_id)%Z
                   then PlayerRow (pl_discord_id p) new_name (pl_rating p)
                   else p)
         (players d).
Proof.
  unfold run, change_player_display_name.
  destruct (32 <? String.length new_name)%nat; [discriminate|].
  unfold bind, select, execute, db_call, ret, no_faults. cbn [store calls faults].
  destruct (existsb (Z.eqb player_id) (map pl_discord_id (players d))) eqn:E;
    cbn [negb store calls faults]; [|discriminate].
  intro H. injection H as <-. split; [|reflexivity].
  apply existsb_exists in E as (x & Hx & Hid).
  apply Z.eqb_eq in Hid. now subst.
Qed.

(** X6. A display name survives verification.  Once the author's name
    change has been applied, no [verify_score] that follows, of any pending
    round, by anyone, with or without storage failures, changes it back:
    every row of that player still carries the new name (the name in a
    pending row is used only for a player who has no row yet). *)
Theorem display_name_survives_verification (INVALID_RATING : Q) (d d1 : db)
        (player_id : Z) (new_name hash : string) (is_moderator : bool)
        (f : nat -> bool) :
  run (change_player_display_name player_id new_name) no_faults d
    = (Ok (NameChanged new_name), d1) ->
  forall p',
    In p' (players (snd (run (verify_score INVALID_RATING is_moderator hash) f d1))) ->
    pl_discord_id p' = player_id ->
    pl_player_name p' = new_name.
Proof.
  intros Hchange p' Hin Hid.
  destruct (change_player_display_name_applied d d1 player_id new_name Hchange)
    as (Hhas & Hpl).
  apply verify_score_names in Hin as [(p & Hp & Hpid & Hname)|Hnone].
  - rewrite <- Hname. rewrite Hpl in Hp.
    apply in_map_iff in Hp as (q & <- & Hq).
    destruct (Z.eqb_spec (pl_discord_id q) player_id) as [E|Hne]; [reflexivity|].
    exfalso. congruence.
  - exfalso. apply in_map_iff in Hhas as (q & Hq1 & Hq2).
    apply (Hnone (if (pl_discord_id q =? player_id)%Z
                  then PlayerRow (pl_discord_id q) new_name (pl_rating q)
                  else q)).
    + rewrite Hpl. apply in_map_iff. now exists q.
    + rewrite Hq1, Z.eqb_refl. simpl. congruence.
Qed.

(** Player 7 takes the name "annie"; the pending round of the sample, still
    submitted under "ann", is then verified. *)
Lemma display_name_survives_verification_witness :
  Forall (fun p' => pl_discord_id p' = 7%Z -> pl_player_name p' = "annie"%string)
         (players
            (snd (run (verify_score 1000 true Sample.round) no_faults
                      (snd (run (change_player_display_name 7 "annie")
                                no_faults Sample.store))))).
Proof.
  apply Forall_forall. intros p' Hin.
  apply (display_name_survives_verification 1000 Sample.store
           (snd (run (change_player_display_name 7 "annie") no_faults Sample.store))
           7 "annie" Sample.round true no_faults);
    [reflexivity|exact Hin].
Defined.

(* ================================================================== *)
(** * More of the code: submissions *)





(* ================================================================== *)
(** * More of the code: when adjusted scores cannot be recomputed *)

Lemma mapM_raise {A B} (f : A -> result B) (l : list A) (e0 : exn) :
  (forall x e, In x l -> f x = Raise e -> e = e0) ->
  (exists x, In x l /\ f x = Raise e0) ->
  mapM f l = Raise e0.
Proof.
  induction l as [|y t IH]; intros Hall (x & Hin & Hx); [contradiction|].
  simpl. destruct (f y) as [b|e] eqn:E; simpl.
  - rewrite IH; [reflexivity| |].
    + intros z e Hz. apply Hall. now right.
    + destruct Hin as [->|Hin]; [congruence|]. now exists x.
  - f_equal. apply (Hall y); [now left|exact E].
Qed.

Lemma update_adjusted_scores_cases (f : nat -> bool) (d : db) :
  run update_adjusted_scores f d =
  if f 0%nat then (Raise StorageError, d)
  else
    match mapM (fun entry : Z * Z * Z * Q =>
                  let '(round_id, course_id, score, _) := entry in
                  index <~ index_or_raise
                             (if f 1%nat then [] else q_difficulty_indices d)
                             (course_id - 1) ;;
                  Ok (round_id, course_id, score, inject_Z score - index))
               (map (fun r => (sr_round_id r, sr_course_id r, sr_score r,
                               sr_adjusted_score r)) (scores d)) with
    | Raise e => (Raise e, d)
    | Ok rows =>
        if f 2%nat then (Raise StorageError, d)
        else (Ok tt, q_update_adjusted_scores rows d)
    end.
Proof.
  unfold run, update_adjusted_scores, get_difficulty_indices, bind, catch,
    select, execute, db_call, lift, ret. cbn [store calls faults].
  destruct (f 0%nat); [reflexivity|]. cbn [store calls faults].
  destruct (f 1%nat); cbn [store calls faults];
    (destruct (mapM _ _); [|reflexivity]);
    cbn [store calls faults]; destruct (f 2%nat); reflexivity.
Qed.

(** X9. [update_adjusted_scores] rewrites the adjusted scores in one storage
    call at its very end: whatever the storage does, it touches only the
    scores table, and when it does not return the store is as it was.  If
    the scores can be read and one of them has a course id for which
    [indices[course_id - 1]] does not exist (the list of indices being empty
    when it could not be read), it raises [IndexError]. *)
Theorem update_adjusted_scores_all_or_nothing (f : nat -> bool) (d : db) :
  exists r d',
    run update_adjusted_scores f d = (r, d')
    /\ pending_scores d' = pending_scores d
    /\ players d' = players d
    /\ courses d' = courses d
    /\ (r <> Ok tt -> d' = d)
    /\ (f 0%nat = false ->
        (exists s, In s (scores d) /\
                   Py.index (if f 1%nat then [] else q_difficulty_indices d)
                            (sr_course_id s - 1) = None) ->
        r = Raise IndexError).
Proof.
  rewrite update_adjusted_scores_cases.
  destruct (f 0%nat).
  { do 2 eexists. split; [reflexivity|]. repeat split; try reflexivity.
    discriminate. }
  set (indices := if f 1%nat then [] else q_difficulty_indices d).
  destruct (mapM _ _) as [rows|e] eqn:E.
  - assert (Hnone : ~ exists s, In s (scores d) /\
                       Py.index indices (sr_course_id s - 1) = None).
    { intros (s & Hs & Hi).
      rewrite (mapM_raise _ _ IndexError) in E; [discriminate| |].
      - intros [[[rid cid] sc] adj] e _. unfold index_or_raise.
        destruct (Py.index indices (cid - 1)); simpl; congruence.
      - exists (sr_round_id s, sr_course_id s, sr_score s, sr_adjusted_score s).
        split; [apply in_map_iff; now exists s|].
        unfold index_or_raise. now rewrite Hi. }
    destruct (f 2%nat); do 2 eexists; (split; [reflexivity|]);
      repeat split; try reflexivity; try (intros _ H; contradiction).
    intro H. now contradiction H.
  - do 2 eexists. split; [reflexivity|]. repeat split; try reflexivity.
    intros _ (s & Hs & Hi). f_equal.
    rewrite (mapM_raise _ _ IndexError) in E; [congruence| |].
    + intros [[[rid cid] sc] adj] e' _. unfold index_or_raise.
      destruct (Py.index indices (cid - 1)); simpl; congruence.
    + exists (sr_round_id s, sr_course_id s, sr_score s, sr_adjusted_score s).
      split; [apply in_map_iff; now exists s|].
      unfold index_or_raise. now rewrite Hi.
Qed.

(** X10. One score with a course id outside the list of indices stops the
    whole ranking job: without any storage failure, [generate_rankings_table]
    raises [IndexError] out of [update_adjusted_scores]; it is not caught,
    nothing is written and no ranking is published. *)
Theorem generate_rankings_table_unknown_course (INVALID_RATING : Q) (d : db)
        (s : score_row) :
  In s (scores d) ->
  Py.index (q_difficulty_indices d) (sr_course_id s - 1) = None ->
  run (generate_rankings_table INVALID_RATING) no_faults d = (Raise IndexError, d).
Proof.
  intros Hs Hi.
  pose proof (update_adjusted_scores_cases no_faults d) as Hrun.
  unfold no_faults in Hrun at 2 3 4.
  rewrite (mapM_raise _ _ IndexError) in Hrun.
  - unfold run in *. unfold generate_rankings_table, bind at 1.
    destruct (update_adjusted_scores (World d 0 no_faults)) as [r w].
    injection Hrun as -> <-. reflexivity.
  - intros [[[rid cid] sc] adj] e _. unfold index_or_raise.
    destruct (Py.index (q_difficulty_indices d) (cid - 1)); simpl; congruence.
  - exists (sr_round_id s, sr_course_id s, sr_score s, sr_adjusted_score s).
    split; [apply in_map_iff; now exists s|].
    unfold index_or_raise. now rewrite Hi.
Qed.

(** A thirteenth course id on a roster of two. *)
Lemma generate_rankings_table_unknown_course_witness :
  run (generate_rankings_table 1000) no_faults
      (with_scores Sample.store
         (scores Sample.store ++ [ScoreRow 6 60 13 7 "Yoshi" 3 0 None]))
  = (Raise IndexError,
     with_scores Sample.store
       (scores Sample.store ++ [ScoreRow 6 60 13 7 "Yoshi" 3 0 None])).
Proof.
  apply (generate_rankings_table_unknown_course 1000 _
           (ScoreRow 6 60 13 7 "Yoshi" 3 0 None)).
  - apply in_or_app. right. now left.
  - reflexivity.
Defined.

(* ================================================================== *)
(** * More of the code: course ids in the tables *)

Lemma ceil_half (course_index nine_index : Z) :
  (0 <= nine_index <= 1)%Z ->
  (Qceiling (inject_Z (profile_course_id course_index nine_index) / inject_Z 2) - 1
   = course_index)%Z.
Proof.
  intro H. unfold profile_course_id, Qceiling, Qfloor, Qdiv, Qmult, Qinv, Qopp,
             inject_Z. cbn [Qnum Qden].
  change (Z.pos (1 * 2)) with 2%Z.
  Z.to_euclidean_division_equations. lia.
Qed.

Lemma index_nth {A} (l : list A) (i : nat) (x : A) :
  nth_error l i = Some x -> index_or_raise l (Z.of_nat i) = Ok x.
Proof.
  intro H. unfold index_or_raise, Py.index.
  replace (0 <=? Z.of_nat i)%Z with true by (symmetry; apply Z.leb_le; lia).
  now rewrite Nat2Z.id, H.
Qed.

Lemma profile_entry (average_dict : Py.dict Z string) (course_index : nat)
      (course : string) :
  foldM (profile_cell average_dict (Z.of_nat course_index)) (seq 0 2)
        [course; "--"%string; "--"%string]
  = Ok [course;
        shown average_dict (profile_course_id (Z.of_nat course_index) 0);
        shown average_dict (profile_course_id (Z.of_nat course_index) 1)].
Proof.
  unfold shown. cbn [seq foldM]. unfold profile_cell at 1.
  cbn [Z.of_nat].
  destruct (Py.get Z.eqb average_dict
              (profile_course_id (Z.of_nat course_index) 0)) as [a0|];
    cbn [rbind length Nat.ltb Nat.leb Nat.add Py.set_at];
    unfold profile_cell; change (Z.of_nat 1) with 1%Z;
    destruct (Py.get Z.eqb average_dict
                (profile_course_id (Z.of_nat course_index) 1)) as [a1|];
    reflexivity.
Qed.

(** X11. With two nines, the profile's table of averages never raises, has
    one row per course, and its row for the course at position [ci] is the
    course's name followed by what is held for the ids [2 ci + 1] and
    [2 ci + 2] ("--" when nothing is held); and these are the ids that the
    recent-scores table labels with that course and the front and back nine:
    the two tables agree on what a course id stands for. *)
Theorem profile_cells_labelled (COURSES NINES : list string)
        (average_dict : Py.dict Z string) :
  length NINES = 2%nat ->
  exists rows,
    profile_rows COURSES NINES average_dict = Ok rows
    /\ length rows = length COURSES
    /\ forall ci course,
         nth_error COURSES ci = Some course ->
         nth_error rows ci =
           Some [course;
                 shown average_dict (profile_course_id (Z.of_nat ci) 0);
                 shown average_dict (profile_course_id (Z.of_nat ci) 1)]
         /\ forall ni nine,
              nth_error NINES ni = Some nine ->
              course_label COURSES NINES
                (profile_course_id (Z.of_nat ci) (Z.of_nat ni)) = Ok course
              /\ nine_label NINES
                   (profile_course_id (Z.of_nat ci) (Z.of_nat ni)) = Ok nine.
Proof.
  intro H2. unfold profile_rows. rewrite H2.
  set (row := fun ci : nat =>
                [nth ci COURSES ""%string;
                 shown average_dict (profile_course_id (Z.of_nat ci) 0);
                 shown average_dict (profile_course_id (Z.of_nat ci) 1)]).
  exists (map row (seq 0 (length COURSES))). split; [|split].
  - apply mapM_ok. intros ci Hci. apply in_seq in Hci.
    rewrite (index_nth COURSES ci (nth ci COURSES ""%string)).
    + cbn [rbind]. now apply profile_entry.
    + apply nth_error_nth'. lia.
  - now rewrite length_map, length_seq.
  - intros ci course Hc.
    assert (Hlt : (ci < length COURSES)%nat)
      by (apply nth_error_Some; congruence).
    split.
    + rewrite nth_error_map, nth_error_seq.
      apply Nat.ltb_lt in Hlt. rewrite Hlt. cbn [option_map Nat.add].
      unfold row. now rewrite (nth_error_nth _ _ _ Hc).
    + intros ni nine Hn.
      assert (Hni : (ni < 2)%nat)
        by (rewrite <- H2; apply nth_error_Some; congruence).
      split.
      * unfold course_label, py_div, Py.len. rewrite H2.
        change (Qeq_bool (inject_Z (Z.of_nat 2)) 0) with false.
        cbn [rbind]. change (Z.of_nat 2) with 2%Z.
        rewrite ceil_half by lia. now apply index_nth.
      * unfold nine_label, profile_course_id.
        replace ((Z.of_nat ci * 2 + Z.of_nat ni + 1 - 1) mod 2)%Z
          with (Z.of_nat ni).
        -- now apply index_nth.
        -- Z.to_euclidean_division_equations. lia.
Qed.

Lemma profile_cells_labelled_witness :
  exists rows,
    profile_rows ["Toad Highlands"; "Koopa Park"]%string ["Front"; "Back"]%string
                 [(2%Z, "+1.50"%string); (3%Z, "-0.25"%string)] = Ok rows
    /\ length rows = 2%nat
    /\ forall ci course,
         nth_error ["Toad Highlands"; "Koopa Park"]%string ci = Some course ->
         nth_error rows ci =
           Some [course;
                 shown [(2%Z, "+1.50"%string); (3%Z, "-0.25"%string)]
                       (profile_course_id (Z.of_nat ci) 0);
                 shown [(2%Z, "+1.50"%string); (3%Z, "-0.25"%string)]
                       (profile_course_id (Z.of_nat ci) 1)]
         /\ forall ni nine,
              nth_error ["Front"; "Back"]%string ni = Some nine ->
              course_label ["Toad Highlands"; "Koopa Park"]%string
                           ["Front"; "Back"]%string
                (profile_course_id (Z.of_nat ci) (Z.of_nat ni)) = Ok course
              /\ nine_label ["Front"; "Back"]%string
                   (profile_course_id (Z.of_nat ci) (Z.of_nat ni)) = Ok nine.
Proof.
  apply (profile_cells_labelled ["Toad Highlands"; "Koopa Park"]%string
           ["Front"; "Back"]%string). reflexivity.
Defined.

Lemma index_out_of_range {A} (l : list A) (i : nat) :
  (length l <= i)%nat -> index_or_raise l (Z.of_nat i) = Raise IndexError.
Proof.
  intro H. unfold index_or_raise, Py.index.
  replace (0 <=? Z.of_nat i)%Z with true by (symmetry; apply Z.leb_le; lia).
  rewrite Nat2Z.id. apply nth_error_None in H. now rewrite H.
Qed.

(** X12. The sheet of difficulty indices.  Without storage failure: if the
    courses table has at least two rows per course of [COURSES], the sheet
    gets one row per course, holding for the course at position [ci] the two
    indices that [verify_score] subtracts for the course ids [2 ci + 1] and
    [2 ci + 2]; if it has fewer, [IndexError] is raised and nothing is
    written.  The store is never changed. *)
Theorem generate_difficulty_indices_sheet_rows (COURSES : list string) (d : db) :
  ((2 * length COURSES <= length (courses d))%nat ->
   exists table,
     run (generate_difficulty_indices_sheet COURSES) no_faults d = (Ok table, d)
     /\ length table = length COURSES
     /\ forall ci, (ci < length COURSES)%nat ->
        exists front_index back_index,
          nth_error table ci = Some [front_index; back_index]
          /\ index_or_raise (q_difficulty_indices d)
               (profile_course_id (Z.of_nat ci) 0 - 1) = Ok front_index
          /\ index_or_raise (q_difficulty_indices d)
               (profile_course_id (Z.of_nat ci) 1 - 1) = Ok back_index)
  /\
  ((length (courses d) < 2 * length COURSES)%nat ->
   run (generate_difficulty_indices_sheet COURSES) no_faults d
   = (Raise IndexError, d)).
Proof.
  assert (Hlen : length (q_difficulty_indices d) = length (courses d)).
  { unfold q_difficulty_indices. now rewrite length_map, sort_by_length. }
  assert (Hrun : run (generate_difficulty_indices_sheet COURSES) no_faults d =
            match mapM (fun course_index =>
                          front_index <~ index_or_raise (q_difficulty_indices d)
                                           (Z.of_nat course_index * 2) ;;
                          back_index <~ index_or_raise (q_difficulty_indices d)
                                          (Z.of_nat course_index * 2 + 1) ;;
                          Ok [front_index; back_index])
                       (seq 0 (length COURSES)) with
            | Ok table => (Ok table, d)
            | Raise e => (Raise e, d)
            end).
  { unfold run, generate_difficulty_indices_sheet, bind, select, db_call, lift,
      no_faults. cbn [store calls faults]. now destruct (mapM _ _). }
  rewrite Hrun. split.
  - intro Hrows.
    set (ix := fun i : nat => nth i (q_difficulty_indices d) 0).
    assert (Hix : forall i, (i < length (courses d))%nat ->
              index_or_raise (q_difficulty_indices d) (Z.of_nat i) = Ok (ix i)).
    { intros i Hi. apply index_nth, nth_error_nth'. lia. }
    rewrite (mapM_ok _ (fun ci => [ix (ci * 2)%nat; ix (ci * 2 + 1)%nat])).
    + eexists. split; [reflexivity|].
      split; [now rewrite length_map, length_seq|].
      intros ci Hci. exists (ix (ci * 2)%nat), (ix (ci * 2 + 1)%nat).
      split; [|split].
      * rewrite nth_error_map, nth_error_seq.
        apply Nat.ltb_lt in Hci. now rewrite Hci.
      * unfold profile_course_id.
        replace (Z.of_nat ci * 2 + 0 + 1 - 1)%Z with (Z.of_nat (ci * 2)) by lia.
        apply Hix. lia.
      * unfold profile_course_id.
        replace (Z.of_nat ci * 2 + 1 + 1 - 1)%Z with (Z.of_nat (ci * 2 + 1)) by lia.
        apply Hix. lia.
    + intros ci Hci. apply in_seq in Hci.
      replace (Z.of_nat ci * 2)%Z with (Z.of_nat (ci * 2)) by lia.
      replace (Z.of_nat (ci * 2) + 1)%Z with (Z.of_nat (ci * 2 + 1)) by lia.
      rewrite !Hix by lia. reflexivity.
  - intro Hfew.
    rewrite (mapM_raise _ _ IndexError); [reflexivity| |].
    + intros ci e _.
      destruct (index_or_raise (q_difficulty_indices d) (Z.of_nat ci * 2))
        as [x|e1] eqn:E1; cbn [rbind].
      * destruct (index_or_raise (q_difficulty_indices d) (Z.of_nat ci * 2 + 1))
          as [y|e2] eqn:E2; cbn [rbind]; [discriminate|].
        unfold index_or_raise in E2.
        destruct (Py.index _ _); [discriminate|]. congruence.
      * unfold index_or_raise in E1.
        destruct (Py.index _ _); [discriminate|]. congruence.
    + exists (length COURSES - 1)%nat. split; [apply in_seq; lia|].
      destruct (index_or_raise (q_difficulty_indices d)
                  (Z.of_nat (length COURSES - 1) * 2)) as [x|e1] eqn:E1;
        cbn [rbind].
      * replace (Z.of_nat (length COURSES - 1) * 2 + 1)%Z
          with (Z.of_nat ((length COURSES - 1) * 2 + 1)) by lia.
        rewrite index_out_of_range by lia. reflexivity.
      * unfold index_or_raise in E1.
        destruct (Py.index _ _); [discriminate|]. congruence.
Qed.

(** Two courses in [COURSES], two rows in the courses table. *)
Lemma generate_difficulty_indices_sheet_rows_witness :
  (exists table,
     run (generate_difficulty_indices_sheet ["Toad Highlands"%string])
         no_faults Sample.store = (Ok table, Sample.store)
     /\ length table = 1%nat
     /\ forall ci, (ci < 1)%nat ->
        exists front_index back_index,
          nth_error table ci = Some [front_index; back_index]
          /\ index_or_raise (q_difficulty_indices Sample.store)
               (profile_course_id (Z.of_nat ci) 0 - 1) = Ok front_index
          /\ index_or_raise (q_difficulty_indices Sample.store)
               (profile_course_id (Z.of_nat ci) 1 - 1) = Ok back_index)
  /\
  run (generate_difficulty_indices_sheet ["Toad Highlands"; "Koopa Park"]%string)
      no_faults Sample.store
  = (Raise IndexError, Sample.store).
Proof.
  split.
  - apply (proj1 (generate_difficulty_indices_sheet_rows
                    ["Toad Highlands"%string] Sample.store)).
    simpl. lia.
  - apply (proj2 (generate_difficulty_indices_sheet_rows
                    ["Toad Highlands"; "Koopa Park"]%string Sample.store)).
    simpl. lia.
Defined.

(* ------------------------------------------------------------------ *)
(** ** The import from the spreadsheet *)

Section ImportFacts.
Variable INVALID_RATING : Q.
Variable CHARACTERS : list string.
Variable py_int : string -> option Z.

Lemma first_invalid_none (data : list (list string)) (i : nat) :
  first_invalid CHARACTERS py_int data i = Returns None <->
  Forall (fun row => check_row_valid CHARACTERS py_int row = Returns true) data.
Proof.
  revert i. induction data as [|row rest IH]; intro i; simpl.
  - split; [constructor|reflexivity].
  - destruct (check_row_valid CHARACTERS py_int row) as [[|]|e] eqn:E.
    + rewrite IH. split; [now constructor|].
      intro H. now inversion H.
    + split; [discriminate|]. intro H. inversion H. congruence.
    + split; [discriminate|]. intro H. inversion H. congruence.
Qed.

Lemma first_invalid_split (before after : list (list string))
      (row : list string) (i : nat) :
  Forall (fun r => check_row_valid CHARACTERS py_int r = Returns true) before ->
  first_invalid CHARACTERS py_int (before ++ row :: after) i =
  match check_row_valid CHARACTERS py_int row with
  | Returns true => first_invalid CHARACTERS py_int after (S (i + length before))
  | Returns false => Returns (Some (i + length before + 2)%nat)
  | Throws e => Throws e
  end.
Proof.
  revert i. induction before as [|r t IH]; intros i H; simpl.
  - rewrite !Nat.add_0_r. reflexivity.
  - inversion H as [|? ? Hr Ht]; subst. rewrite Hr, IH by assumption.
    replace (S i + length t)%nat with (i + S (length t))%nat by lia.
    reflexivity.
Qed.

(** What [check_row_valid] accepts. *)
Lemma check_row_valid_true (row : list string) :
  check_row_valid CHARACTERS py_int row = Returns true <->
  exists timestamp course_id player_id character score c,
    row = [timestamp; course_id; player_id; character; score]
    /\ Forall (fun element => element <> ""%string) row
    /\ py_int course_id = Some c /\ (1 <= c <= 12)%Z
    /\ In character CHARACTERS.
Proof.
  unfold check_row_valid. split.
  - destruct (length row <? 5)%nat eqn:El; [discriminate|].
    destruct (existsb _ row) eqn:Ee; [discriminate|].
    destruct row as [|t [|c [|p [|ch [|s [|x rest]]]]]]; try discriminate.
    destruct (py_int c) as [n|] eqn:En; [|discriminate].
    destruct ((12 <? n)%Z || (n <? 1)%Z) eqn:Er; [discriminate|].
    destruct (existsb (String.eqb ch) CHARACTERS) eqn:Ec; [|discriminate].
    intros _. exists t, c, p, ch, s, n.
    split; [reflexivity|]. split; [|split; [exact En|split]].
    + apply Forall_forall. intros e He ->.
      assert (existsb (fun element => String.eqb element "") [t; c; p; ch; s] = true)
        by (apply existsb_exists; exists ""%string; split; [exact He|reflexivity]).
      congruence.
    + apply orb_false_iff in Er as [E1 E2].
      apply Z.ltb_ge in E1. apply Z.ltb_ge in E2. lia.
    + apply existsb_exists in Ec as (x & Hx & Heq).
      apply String.eqb_eq in Heq. now subst.
  - intros (t & c & p & ch & s & n & -> & Hne & En & Hr & Hc).
    cbn [length Nat.ltb Nat.leb].
    replace (existsb _ [t; c; p; ch; s]) with false.
    + rewrite En.
      replace ((12 <? n)%Z || (n <? 1)%Z) with false
        by (symmetry; apply orb_false_iff; split; apply Z.ltb_ge; lia).
      replace (existsb (String.eqb ch) CHARACTERS) with true; [reflexivity|].
      symmetry. apply existsb_exists. exists ch. split; [exact Hc|].
      apply String.eqb_refl.
    + symmetry. apply not_true_is_false. intro H.
      apply existsb_exists in H as (x & Hx & Heq).
      apply String.eqb_eq in Heq. subst x.
      rewrite Forall_forall in Hne. now apply (Hne _ Hx).
Qed.

Lemma parse_rows_raise (data : list (list string)) :
  (exists row, In row data /\ parse_row py_int row = Throws ValueError) ->
  parse_rows py_int data = Throws ValueError.
Proof.
  assert (Hall : forall row e, parse_row py_int row = Throws e -> e = ValueError).
  { intros row e. unfold parse_row.
    destruct row as [|t [|c [|p [|ch [|s [|x rest]]]]]];
      try (intro H; now injection H as <-).
    destruct (py_int t), (py_int c), (py_int p), (py_int s);
      intro H; try discriminate; now injection H as <-. }
  induction data as [|r t IH]; intros (row & Hin & Hrow); [contradiction|].
  simpl. destruct (parse_row py_int r) as [v|e] eqn:E.
  - destruct Hin as [->|Hin]; [congruence|].
    rewrite IH; [reflexivity|]. now exists row.
  - f_equal. now apply (Hall r).
Qed.

(** The command with the moderator's role, up to the first storage call. *)
Lemma import_invalid (scores_sheet players_sheet : list (list string))
      (f : nat -> bool) (d : db) :
  first_invalid CHARACTERS py_int scores_sheet 0 <> Returns None ->
  c_run (update_database_from_spreadsheet INVALID_RATING CHARACTERS py_int true
           scores_sheet players_sheet) f d =
  (Returns (match first_invalid CHARACTERS py_int scores_sheet 0 with
            | Returns (Some n) => InvalidRow n
            | Returns None => Finished
            | Throws e => ImportError e
            end), d).
Proof.
  intro H. unfold c_run, update_database_from_spreadsheet, c_catch, c_bind,
    of_outcome, c_ret. cbn [negb].
  destruct (first_invalid CHARACTERS py_int scores_sheet 0) as [[n|]|e];
    [reflexivity|congruence|reflexivity].
Qed.

End ImportFacts.

(** X13. [update_database_from_spreadsheet] validates the whole sheet of
    scores before its first storage call: whatever the storage does, if the
    run leaves the store other than it found it, then the caller is a
    moderator and [check_row_valid] returned [True] for every row of the
    sheet. *)
Theorem import_writes_only_after_validation (INVALID_RATING : Q)
        (CHARACTERS : list string) (py_int : string -> option Z)
        (is_moderator : bool) (scores_sheet players_sheet : list (list string))
        (f : nat -> bool) (d : db) :
  snd (c_run (update_database_from_spreadsheet INVALID_RATING CHARACTERS py_int
                is_moderator scores_sheet players_sheet) f d) <> d ->
  is_moderator = true
  /\ Forall (fun row => check_row_valid CHARACTERS py_int row = Returns true)
            scores_sheet.
Proof.
  intro H. destruct is_moderator; [|exfalso; apply H; reflexivity].
  split; [reflexivity|]. apply (first_invalid_none _ _ _ 0%nat).
  destruct (first_invalid CHARACTERS py_int scores_sheet 0) as [[n|]|e] eqn:E;
    [exfalso|reflexivity|exfalso]; apply H;
    rewrite import_invalid by (rewrite E; discriminate); reflexivity.
Qed.

Lemma import_writes_only_after_validation_witness :
  Forall (fun row => check_row_valid Sheet.CHARACTERS Sheet.int row = Returns true)
         Sheet.rounds.
Proof.
  apply (import_writes_only_after_validation 1000 Sheet.CHARACTERS Sheet.int
           true Sheet.rounds Sheet.names no_faults Sheet.store).
  vm_compute. discriminate.
Defined.

(** X14. The row named in the refusal.  When the rows before a row of the
    sheet are all valid and [check_row_valid] returns [False] for that row
    (or raises: a row of more than five cells, a course that is no number),
    the command answers with the number of that row in the sheet, which is
    its index plus 2 for the header line (or with the exception), and no
    storage call is made: the store is as before even when every call
    would fail. *)
Theorem import_names_first_invalid_row (INVALID_RATING : Q)
        (CHARACTERS : list string) (py_int : string -> option Z)
        (before after : list (list string)) (row : list string)
        (players_sheet : list (list string)) (f : nat -> bool) (d : db) :
  Forall (fun r => check_row_valid CHARACTERS py_int r = Returns true) before ->
  check_row_valid CHARACTERS py_int row <> Returns true ->
  c_run (update_database_from_spreadsheet INVALID_RATING CHARACTERS py_int true
           (before ++ row :: after) players_sheet) f d =
  (Returns (match check_row_valid CHARACTERS py_int row with
            | Returns _ => InvalidRow (length before + 2)
            | Throws e => ImportError e
            end), d).
Proof.
  intros Hb Hrow.
  pose proof (first_invalid_split CHARACTERS py_int before after row 0 Hb) as Hs.
  rewrite import_invalid; rewrite Hs;
    destruct (check_row_valid CHARACTERS py_int row) as [[|]|e];
    try reflexivity; try congruence; discriminate.
Qed.

Lemma import_names_first_invalid_row_witness :
  c_run (update_database_from_spreadsheet 1000 Sheet.CHARACTERS Sheet.int true
           Sheet.short_rounds Sheet.names) (fun _ => true) Sheet.store =
  (Returns (InvalidRow 3), Sheet.store).
Proof.
  apply (import_names_first_invalid_row 1000 Sheet.CHARACTERS Sheet.int
           [ ["10"; "1"; "7"; "Yoshi"; "2"] ]%string []
           ["20"; "2"; "7"; "Peach"]%string Sheet.names (fun _ => true)
           Sheet.store).
  - repeat constructor.
  - vm_compute. discriminate.
Defined.

(** X15. What validation lets through.  [check_row_valid] reads the course
    as a number and no other cell, and the scores and players tables are
    emptied before the rows are converted.  So when every row is valid and
    a timestamp, a player id or a score of some row is not a number, a run
    whose first storage call goes through answers with the [ValueError] and
    leaves both tables empty and the round ids restarted; the pending
    scores and the courses are kept. *)
Theorem import_unread_number_empties_ledger (INVALID_RATING : Q)
        (CHARACTERS : list string) (py_int : string -> option Z)
        (scores_sheet players_sheet : list (list string))
        (f : nat -> bool) (d : db) :
  Forall (fun row => check_row_valid CHARACTERS py_int row = Returns true)
         scores_sheet ->
  (exists timestamp course_id player_id character score,
      In [timestamp; course_id; player_id; character; score] scores_sheet
      /\ (py_int timestamp = None \/ py_int player_id = None
          \/ py_int score = None)) ->
  f 0%nat = false ->
  c_run (update_database_from_spreadsheet INVALID_RATING CHARACTERS py_int true
           scores_sheet players_sheet) f d =
  (Returns (ImportError ValueError),
   Db (pending_scores d) [] [] (courses d) 1).
Proof.
  intros Hvalid (t & c & p & ch & s & Hin & Hnone) Hf.
  apply (first_invalid_none _ _ _ 0%nat) in Hvalid.
  unfold c_run, update_database_from_spreadsheet, c_catch, c_bind, of_outcome,
    of_M, execute, db_call, c_ret. cbn [negb].
  rewrite Hvalid. cbn [store calls faults]. rewrite Hf.
  rewrite parse_rows_raise; [reflexivity|].
  exists [t; c; p; ch; s]. split; [exact Hin|]. unfold parse_row.
  destruct Hnone as [E|[E|E]]; rewrite E;
    repeat match goal with |- context [match py_int ?x with _ => _ end] =>
             destruct (py_int x) end; reflexivity.
Qed.

Lemma import_unread_number_empties_ledger_witness :
  c_run (update_database_from_spreadsheet 1000 Sheet.CHARACTERS Sheet.int true
           Sheet.unread_rounds Sheet.names) no_faults Sheet.store =
  (Returns (ImportError ValueError),
   Db [Sample.pending] [] [] Sheet.courses 1).
Proof.
  apply (import_unread_number_empties_ledger 1000 Sheet.CHARACTERS Sheet.int
           Sheet.unread_rounds Sheet.names no_faults Sheet.store).
  - repeat constructor.
  - exists "20"%string, "2"%string, "7"%string, "Peach"%string, "two"%string.
    split; [right; left; reflexivity|right; right; reflexivity].
  - reflexivity.
Defined.

(* ------------------------------------------------------------------ *)
(** ** The store after an import *)

Lemma q_insert_scores_numbered (rows : list (Z * Z * Z * string * Z)) (d : db) :
  q_insert_scores rows d =
  Db (pending_scores d) (scores d ++ numbered (next_round_id d) rows)
     (players d) (courses d) (next_round_id d + Z.of_nat (length rows)).
Proof.
  unfold q_insert_scores. revert d.
  induction rows as [|[[[[t c] p] ch] s] rest IH]; intro d.
  - simpl. rewrite app_nil_r, Z.add_0_r. now destruct d.
  - cbn [fold_left]. rewrite IH. unfold q_insert_score.
    cbn [pending_scores scores players courses next_round_id numbered length].
    rewrite <- app_assoc. cbn [app]. f_equal. lia.
Qed.

Lemma numbered_round_ids (rows : list (Z * Z * Z * string * Z)) (first : Z) :
  map sr_round_id (numbered first rows)
  = map (fun i => (first + Z.of_nat i)%Z) (seq 0 (length rows)).
Proof.
  revert first. induction rows as [|[[[[t c] p] ch] s] rest IH]; intro first.
  - reflexivity.
  - cbn [numbered map length seq sr_round_id]. rewrite IH, <- seq_shift, map_map.
    f_equal; [simpl; lia|]. apply map_ext. intro i. lia.
Qed.

Lemma numbered_NoDup (rows : list (Z * Z * Z * string * Z)) (first : Z) :
  NoDup (map sr_round_id (numbered first rows)).
Proof.
  rewrite numbered_round_ids. apply Finite.Injective_map_NoDup.
  - intros i j H. lia.
  - apply seq_NoDup.
Qed.

Lemma numbered_courses (rows : list (Z * Z * Z * string * Z)) (first : Z)
      (s : score_row) :
  In s (numbered first rows) ->
  exists row, In row rows /\ sr_course_id s = snd (fst (fst (fst row))).
Proof.
  revert first. induction rows as [|[[[[t c] p] ch] sc] rest IH]; intro first;
    [contradiction|].
  cbn [numbered]. intros [<-|H].
  - eexists. split; [left; reflexivity|reflexivity].
  - destruct (IH _ H) as (row & Hrow & Hc). exists row. split; [now right|exact Hc].
Qed.

Section ImportRun.
Variable INVALID_RATING : Q.
Variable CHARACTERS : list string.
Variable py_int : string -> option Z.

(** The courses of a sheet that is valid and read are numbered 1 to 12. *)
Lemma parse_rows_courses (data : list (list string))
      (rows : list (Z * Z * Z * string * Z)) :
  Forall (fun row => check_row_valid CHARACTERS py_int row = Returns true) data ->
  parse_rows py_int data = Returns rows ->
  Forall (fun row => (1 <= snd (fst (fst (fst row))) <= 12)%Z) rows.
Proof.
  revert rows. induction data as [|r t IH]; intros rows Hv Hp.
  - injection Hp as <-. constructor.
  - inversion Hv as [|? ? Hr Ht]; subst. simpl in Hp.
    destruct (parse_row py_int r) as [v|e] eqn:Ev; [|discriminate].
    destruct (parse_rows py_int t) as [vs|e] eqn:Evs; [|discriminate].
    injection Hp as <-. constructor; [|now apply IH].
    apply check_row_valid_true in Hr
      as (ts & c & p & ch & s & n & -> & _ & Hn & Hrange & _).
    unfold parse_row in Ev. rewrite Hn in Ev.
    destruct (py_int ts), (py_int p), (py_int s); try discriminate.
    injection Ev as <-. exact Hrange.
Qed.

End ImportRun.

Lemma update_adjusted_scores_world (d : db) (n : nat) :
  (forall s, In s (scores d) ->
             (1 <= sr_course_id s <= Z.of_nat (length (courses d)))%Z) ->
  update_adjusted_scores (World d n no_faults) =
  (Ok tt,
   World (q_update_adjusted_scores
            (map (fun s => readjusted (q_difficulty_indices d)
                             (sr_round_id s, sr_course_id s, sr_score s,
                              sr_adjusted_score s))
                 (scores d)) d)
         (3 + n) no_faults).
Proof.
  intros Hknown.
  unfold update_adjusted_scores, get_difficulty_indices, bind, catch, select,
    execute, db_call, lift, no_faults. simpl.
  rewrite (mapM_ok _ (readjusted (q_difficulty_indices d))).
  - rewrite map_map. reflexivity.
  - intros [[[rid cid] sc] adj] Hin.
    apply in_map_iff in Hin as (s & Heq & Hs). injection Heq as <- <- <- <-.
    specialize (Hknown s Hs).
    assert (Hlen : length (q_difficulty_indices d) = length (courses d))
      by (unfold q_difficulty_indices; now rewrite length_map, sort_by_length).
    destruct (nth_error (q_difficulty_indices d) (Z.to_nat (sr_course_id s - 1)))
      as [x|] eqn:Ex.
    + pose proof (index_nth _ _ _ Ex) as Hi.
      rewrite Z2Nat.id in Hi by lia.
      unfold readjusted. unfold index_or_raise in *.
      destruct (Py.index (q_difficulty_indices d) (sr_course_id s - 1));
        [reflexivity|discriminate].
    + apply nth_error_None in Ex. lia.
Qed.

Lemma update_player_ratings_world (INVALID_RATING : Q) (d : db) (n : nat) :
  update_player_ratings INVALID_RATING (World d n no_faults) =
  (Ok tt,
   World (snd (run (update_player_ratings INVALID_RATING) no_faults d))
         (3 + n) no_faults).
Proof.
  rewrite update_player_ratings_no_faults. cbv zeta. cbn [snd].
  unfold run, update_player_ratings, bind, select, execute, db_call, lift,
    no_faults. cbn [store calls faults].
  rewrite rate_players_ok. cbn [store calls faults]. now rewrite !map_map.
Qed.

(** The rating history that [update_player_ratings] leaves, read in the
    store it leaves. *)
Lemma replayed_store (INVALID_RATING : Q) (d : db) :
  NoDup (map sr_round_id (scores d)) ->
  let d' := snd (run (update_player_ratings INVALID_RATING) no_faults d) in
  pending_scores d' = pending_scores d
  /\ courses d' = courses d
  /\ next_round_id d' = next_round_id d
  /\ map forget_rating (scores d') = map forget_rating (scores d)
  /\ forall pid,
       map sr_rating (rounds_of d' pid) =
       map (fun k => Some (calculate_player_rating INVALID_RATING
                             (firstn k (q_player_adjusted_scores pid d'))))
           (seq 1 (length (rounds_of d' pid))).
Proof.
  intro Hnd. cbv zeta.
  rewrite update_player_ratings_no_faults. cbv zeta. cbn [snd].
  split; [reflexivity|]. split; [reflexivity|]. split; [reflexivity|].
  split.
  - unfold q_update_player_ratings, with_players, q_update_ratings, with_scores.
    cbn [scores]. rewrite map_map. apply map_ext. intro s.
    now destruct (find _ _).
  - intro pid.
    rewrite !q_player_adjusted_scores_rounds.
    rewrite rounds_of_update_players, q_update_ratings_rounds, !map_map.
    rewrite length_map.
    assert (Hadj : map (fun x => sr_adjusted_score
                          match find (fun v => (re_round_id v =? sr_round_id x)%Z)
                                  (concat
                                     (map (fun item => snd (fst (rated INVALID_RATING item)))
                                        (score_data_dict
                                           (map (fun r => (sr_round_id r, sr_player_id r,
                                                           sr_timestamp r, sr_course_id r,
                                                           sr_adjusted_score r))
                                              (scores d))))) with
                          | Some v => set_sr_rating (re_rating v) x
                          | None => x
                          end) (rounds_of d pid)
                   = map sr_adjusted_score (rounds_of d pid)).
    { apply map_ext. intro x. now destruct (find _ _). }
    rewrite Hadj. rewrite <- q_player_adjusted_scores_rounds.
    apply nth_error_ext. intro n. rewrite !nth_error_map.
    destruct (nth_error (rounds_of d pid) n) as [s|] eqn:En.
    + assert (Hlt : (n < length (rounds_of d pid))%nat)
        by (apply nth_error_Some; congruence).
      rewrite nth_error_seq. apply Nat.ltb_lt in Hlt. rewrite Hlt.
      cbn [option_map].
      rewrite (flattened_find INVALID_RATING d pid n s Hnd En).
      cbn [sr_rating set_sr_rating re_rating set_re_rating].
      now rewrite Nat.add_comm.
    + apply nth_error_None in En. rewrite nth_error_seq.
      apply Nat.ltb_ge in En. now rewrite En.
Qed.

(** Every row has a rating once its player's history carries one at every
    place. *)
Lemma rated_rows (INVALID_RATING : Q) (d : db) :
  (forall pid,
      map sr_rating (rounds_of d pid) =
      map (fun k => Some (calculate_player_rating INVALID_RATING
                            (firstn k (q_player_adjusted_scores pid d))))
          (seq 1 (length (rounds_of d pid)))) ->
  forall s, In s (scores d) -> sr_rating s <> None.
Proof.
  intros H s Hs.
  assert (Hin : In s (rounds_of d (sr_player_id s))).
  { unfold rounds_of. apply sort_by_In. apply filter_In.
    split; [exact Hs|apply Z.eqb_refl]. }
  apply (in_map sr_rating) in Hin. rewrite H in Hin.
  apply in_map_iff in Hin as (k & Hk & _). congruence.
Qed.

Section ImportPlayers.
Variable py_int : string -> option Z.

(** The loop over the sheet "Players" writes to the players table only. *)
Lemma import_players_keeps (data : list (list string)) :
  forall (unnamed no_score : list Z) (w : world),
    let w' := snd (import_players py_int data unnamed no_score w) in
    pending_scores (store w') = pending_scores (store w)
    /\ scores (store w') = scores (store w)
    /\ courses (store w') = courses (store w)
    /\ next_round_id (store w') = next_round_id (store w).
Proof.
  induction data as [|entry rest IH]; intros unnamed no_score w; cbv zeta.
  - simpl. auto.
  - cbn [import_players]. unfold c_bind, of_outcome, of_M, select, execute,
      db_call, c_throw.
    destruct entry as [|first cells]; [simpl; auto|].
    destruct (py_int first) as [player_id|]; [|simpl; auto].
    destruct cells as [|player_name cells].
    + cbn [length Nat.eqb]. apply IH.
    + cbn [length Nat.eqb].
      destruct (faults w (calls w)); [simpl; auto|].
      destruct (q_latest_rating player_id (store w)) as [|[rating|] ratings].
      * specialize (IH unnamed (no_score ++ [player_id])
                       (World (store w) (S (calls w)) (faults w))).
        exact IH.
      * cbn [store calls faults].
        destruct (faults w (S (calls w))); [simpl; auto|].
        specialize (IH unnamed no_score
                       (World (q_upsert_named_player player_id player_name rating
                                 (store w))
                              (S (S (calls w))) (faults w))).
        cbv zeta in IH. cbn [store] in IH.
        destruct IH as (H1 & H2 & H3 & H4).
        rewrite H1, H2, H3, H4. unfold q_upsert_named_player, with_players.
        destruct (existsb _ _); simpl; auto.
      * simpl; auto.
Qed.

End ImportPlayers.

(** A row of the ledger is adjusted by the index that [indices] holds for
    its course. *)
Lemma forget_rating_columns (s : score_row) :
  raw_columns (forget_rating s) = raw_columns s
  /\ sr_adjusted_score (forget_rating s) = sr_adjusted_score s
  /\ sr_course_id (forget_rating s) = sr_course_id s
  /\ sr_score (forget_rating s) = sr_score s.
Proof. now destruct s. Qed.

Lemma Forall_forget_rating (P : score_row -> Prop) (l l' : list score_row) :
  (forall s, P (forget_rating s) <-> P s) ->
  map forget_rating l' = map forget_rating l ->
  Forall P l -> Forall P l'.
Proof.
  intros HP Heq H.
  assert (H1 : Forall P (map forget_rating l)).
  { rewrite Forall_map. eapply Forall_impl; [|exact H]. intros s Hs. now apply HP. }
  rewrite <- Heq in H1. rewrite Forall_map in H1.
  eapply Forall_impl; [|exact H1]. intros s Hs. now apply HP.
Qed.

Section ImportStore.
Variable INVALID_RATING : Q.
Variable CHARACTERS : list string.
Variable py_int : string -> option Z.

(** The run up to the loop over the sheet "Players". *)
Lemma import_until_players (scores_sheet players_sheet : list (list string))
      (rows : list (Z * Z * Z * string * Z)) (d : db) :
  Forall (fun row => check_row_valid CHARACTERS py_int row = Returns true)
         scores_sheet ->
  parse_rows py_int scores_sheet = Returns rows ->
  (12 <= length (courses d))%nat ->
  exists d3,
    c_run (update_database_from_spreadsheet INVALID_RATING CHARACTERS py_int true
             scores_sheet players_sheet) no_faults d
    = match import_players py_int players_sheet [] [] (World d3 9 no_faults) with
      | (Returns (unnamed_players, no_score_players), w) =>
          (Returns match unnamed_players, no_score_players with
                   | _ :: _, _ => UnnamedPlayers unnamed_players
                   | [], _ :: _ => NoScorePlayers unnamed_players
                   | [], [] => Finished
                   end,
           store w)
      | (Throws e, w) => (Returns (ImportError e), store w)
      end
    /\ pending_scores d3 = pending_scores d
    /\ courses d3 = courses d
    /\ next_round_id d3 = (1 + Z.of_nat (length rows))%Z
    /\ players d3 = []
    /\ map raw_columns (scores d3) = map raw_columns (numbered 1 rows)
    /\ Forall (fun s =>
                 exists index,
                   index_or_raise (q_difficulty_indices d) (sr_course_id s - 1)
                   = Ok index
                   /\ sr_adjusted_score s = inject_Z (sr_score s) - index)
              (scores d3)
    /\ forall pid,
         map sr_rating (rounds_of d3 pid) =
         map (fun k => Some (calculate_player_rating INVALID_RATING
                               (firstn k (q_player_adjusted_scores pid d3))))
             (seq 1 (length (rounds_of d3 pid))).
Proof.
  intros Hvalid Hparse Hcourses.
  pose proof (parse_rows_courses CHARACTERS py_int _ _ Hvalid Hparse) as Hrange.
  apply (first_invalid_none _ _ _ 0%nat) in Hvalid.
  set (d1 := q_insert_scores rows (q_truncate d)).
  assert (E1 : d1 = Db (pending_scores d) (numbered 1 rows) [] (courses d)
                       (1 + Z.of_nat (length rows))).
  { unfold d1. rewrite q_insert_scores_numbered. reflexivity. }
  assert (Hknown : forall s, In s (scores d1) ->
                     (1 <= sr_course_id s <= Z.of_nat (length (courses d1)))%Z).
  { rewrite E1. cbn [scores courses]. intros s Hs.
    apply numbered_courses in Hs as (row & Hrow & ->).
    rewrite Forall_forall in Hrange. specialize (Hrange row Hrow). lia. }
  assert (Hnd1 : NoDup (map sr_round_id (scores d1))).
  { rewrite E1. cbn [scores]. apply numbered_NoDup. }
  set (d2 := q_update_adjusted_scores
               (map (fun s => readjusted (q_difficulty_indices d1)
                                (sr_round_id s, sr_course_id s, sr_score s,
                                 sr_adjusted_score s))
                    (scores d1)) d1).
  assert (E2 : scores d2 =
               map (fun s =>
                      set_sr_adjusted_score
                        (snd (readjusted (q_difficulty_indices d1)
                                (sr_round_id s, sr_course_id s, sr_score s,
                                 sr_adjusted_score s))) s)
                   (scores d1))
    by (apply q_update_adjusted_scores_scores; exact Hnd1).
  assert (Hnd2 : NoDup (map sr_round_id (scores d2))).
  { rewrite E2, map_map.
    erewrite map_ext; [exact Hnd1|]. intro s. now destruct s. }
  pose proof (replayed_store INVALID_RATING d2 Hnd2) as Hrep. cbv zeta in Hrep.
  pose proof (update_player_ratings_players INVALID_RATING d2) as Hpl.
  set (d3 := snd (run (update_player_ratings INVALID_RATING) no_faults d2)) in *.
  destruct Hrep as (Hp3 & Hc3 & Hn3 & Hs3 & Hh3).
  exists d3. split; [|split; [|split; [|split; [|split; [|split; [|split]]]]]].
  - unfold c_run, update_database_from_spreadsheet. cbn [negb].
    unfold c_catch, c_bind, of_outcome, of_M, c_ret.
    rewrite Hvalid. unfold execute at 1, db_call. cbn [store calls faults no_faults].
    rewrite Hparse. unfold execute at 1, db_call. cbn [store calls faults no_faults].
    fold d1. rewrite (update_adjusted_scores_world d1 2 Hknown). fold d2.
    rewrite (update_player_ratings_world INVALID_RATING d2). fold d3.
    unfold select, db_call. cbn [store calls faults no_faults Nat.add].
    destruct (import_players py_int players_sheet [] [] (World d3 9 no_faults))
      as [[[u ns]|e] w]; [|reflexivity].
    destruct u, ns; reflexivity.
  - rewrite Hp3. unfold d2. cbn [pending_scores q_update_adjusted_scores with_scores].
    rewrite E1. reflexivity.
  - rewrite Hc3. unfold d2. cbn [courses q_update_adjusted_scores with_scores].
    rewrite E1. reflexivity.
  - rewrite Hn3. unfold d2. cbn [next_round_id q_update_adjusted_scores with_scores].
    rewrite E1. reflexivity.
  - rewrite Hpl. unfold d2. cbn [players q_update_adjusted_scores with_scores].
    rewrite E1. reflexivity.
  - transitivity (map raw_columns (map forget_rating (scores d3))).
    + rewrite map_map. apply map_ext. intro s. symmetry.
      apply forget_rating_columns.
    + rewrite Hs3, E2, !map_map. rewrite E1. cbn [scores].
      apply map_ext. intro s. now destruct s.
  - apply (Forall_forget_rating _ (scores d2)); [|exact Hs3|].
    + intro s. now destruct s.
    + rewrite E2. rewrite Forall_map. apply Forall_forall. intros s Hs.
      specialize (Hknown s Hs).
      assert (Hidx : q_difficulty_indices d1 = q_difficulty_indices d)
        by (rewrite E1; reflexivity).
      rewrite Hidx.
      assert (Hlen : length (q_difficulty_indices d) = length (courses d))
        by (unfold q_difficulty_indices; now rewrite length_map, sort_by_length).
      assert (Hc1 : courses d1 = courses d) by (rewrite E1; reflexivity).
      rewrite Hc1 in Hknown.
      destruct (nth_error (q_difficulty_indices d) (Z.to_nat (sr_course_id s - 1)))
        as [x|] eqn:Ex; [|apply nth_error_None in Ex; lia].
      pose proof (index_nth _ _ _ Ex) as Hi. rewrite Z2Nat.id in Hi by lia.
      exists x. destruct s as [rid ts cid pid ch sc adj rat].
      cbn [sr_course_id sr_score sr_adjusted_score set_sr_adjusted_score
           readjusted snd sr_round_id] in *.
      split; [exact Hi|]. unfold index_or_raise in Hi.
      destruct (Py.index (q_difficulty_indices d) (cid - 1)); [|discriminate].
      now injection Hi as ->.
  - exact Hh3.
Qed.

End ImportStore.

Lemma rounds_of_scores (d d' : db) (pid : Z) :
  scores d' = scores d -> rounds_of d' pid = rounds_of d pid.
Proof. unfold rounds_of. now intros ->. Qed.

(** X16. A sheet that is valid and whose numbers can all be read replaces
    the ledger.  With at least twelve rows in the courses table and no
    storage failure, the command returns, whatever the sheet "Players"
    holds, and then: the scores table holds the rows of the sheet in their
    order, numbered from 1, with the cells as read; every adjusted score is
    the score minus the index stored for its course, so the recomputation
    cannot run out of indices; in every player's history, oldest first,
    the k-th round carries the rating of the first k adjusted scores; the
    pending scores and the courses are untouched. *)
Theorem import_replaces_ledger (INVALID_RATING : Q) (CHARACTERS : list string)
        (py_int : string -> option Z)
        (scores_sheet players_sheet : list (list string))
        (rows : list (Z * Z * Z * string * Z)) (d : db) :
  Forall (fun row => check_row_valid CHARACTERS py_int row = Returns true)
         scores_sheet ->
  parse_rows py_int scores_sheet = Returns rows ->
  (12 <= length (courses d))%nat ->
  exists response d',
    c_run (update_database_from_spreadsheet INVALID_RATING CHARACTERS py_int true
             scores_sheet players_sheet) no_faults d = (Returns response, d')
    /\ pending_scores d' = pending_scores d
    /\ courses d' = courses d
    /\ next_round_id d' = (1 + Z.of_nat (length rows))%Z
    /\ map raw_columns (scores d') = map raw_columns (numbered 1 rows)
    /\ Forall (fun s =>
                 exists index,
                   index_or_raise (q_difficulty_indices d) (sr_course_id s - 1)
                   = Ok index
                   /\ sr_adjusted_score s = inject_Z (sr_score s) - index)
              (scores d')
    /\ forall pid,
         map sr_rating (rounds_of d' pid) =
         map (fun k => Some (calculate_player_rating INVALID_RATING
                               (firstn k (q_player_adjusted_scores pid d'))))
             (seq 1 (length (rounds_of d' pid))).
Proof.
  intros Hvalid Hparse Hcourses.
  destruct (import_until_players INVALID_RATING CHARACTERS py_int scores_sheet
              players_sheet rows d Hvalid Hparse Hcourses)
    as (d3 & Hrun & Hp & Hc & Hn & _ & Hraw & Hadj & Hhist).
  pose proof (import_players_keeps py_int players_sheet [] []
                (World d3 9 no_faults)) as Hkeep.
  cbv zeta in Hkeep. cbn [store] in Hkeep.
  destruct Hkeep as (Kp & Ks & Kc & Kn).
  rewrite Hrun.
  assert (Hfacts :
            forall w, w = snd (import_players py_int players_sheet [] []
                                 (World d3 9 no_faults)) ->
            pending_scores (store w) = pending_scores d
            /\ courses (store w) = courses d
            /\ next_round_id (store w) = (1 + Z.of_nat (length rows))%Z
            /\ map raw_columns (scores (store w)) = map raw_columns (numbered 1 rows)
            /\ Forall (fun s =>
                         exists index,
                           index_or_raise (q_difficulty_indices d)
                                          (sr_course_id s - 1) = Ok index
                           /\ sr_adjusted_score s = inject_Z (sr_score s) - index)
                      (scores (store w))
            /\ forall pid,
                 map sr_rating (rounds_of (store w) pid) =
                 map (fun k => Some (calculate_player_rating INVALID_RATING
                                       (firstn k (q_player_adjusted_scores pid
                                                    (store w)))))
                     (seq 1 (length (rounds_of (store w) pid)))).
  { intros w ->.
    split; [congruence|]. split; [congruence|]. split; [congruence|].
    split; [now rewrite Ks|]. split; [now rewrite Ks|].
    intro pid. rewrite !q_player_adjusted_scores_rounds.
    rewrite (rounds_of_scores d3 _ pid Ks).
    rewrite <- q_player_adjusted_scores_rounds. apply Hhist. }
  destruct (import_players py_int players_sheet [] [] (World d3 9 no_faults))
    as [[[u ns]|e] w]; do 2 eexists; (split; [reflexivity|]);
    apply Hfacts; reflexivity.
Qed.

Lemma import_replaces_ledger_witness :
  exists d',
    c_run (update_database_from_spreadsheet 1000 Sheet.CHARACTERS Sheet.int true
             Sheet.rounds Sheet.names) no_faults Sheet.store
    = (Returns (UnnamedPlayers [9%Z]), d')
    /\ map raw_columns (scores d') =
       [ (1, 10, 1, 7, "Yoshi", 2); (2, 20, 2, 7, "Peach", -1);
         (3, 15, 12, 9, "Luigi", 4) ]%Z%string.
Proof.
  destruct (import_replaces_ledger 1000 Sheet.CHARACTERS Sheet.int Sheet.rounds
              Sheet.names
              [ (10, 1, 7, "Yoshi", 2); (20, 2, 7, "Peach", -1);
                (15, 12, 9, "Luigi", 4) ]%Z%string Sheet.store)
    as (response & d' & Hrun & _ & _ & _ & Hraw & _).
  - repeat constructor.
  - reflexivity.
  - vm_compute. lia.
  - exists d'. split; [|exact Hraw].
    rewrite Hrun. f_equal.
    assert (H : fst (c_run (update_database_from_spreadsheet 1000 Sheet.CHARACTERS
                              Sheet.int true Sheet.rounds Sheet.names)
                       no_faults Sheet.store) = Returns (UnnamedPlayers [9%Z]))
      by (vm_compute; reflexivity).
    rewrite Hrun in H. exact H.
Defined.

(* ------------------------------------------------------------------ *)
(** ** The players table after an import *)

Lemma max_attained (l : list Z) (a : Z) :
  In (fold_left Z.max l a) (a :: l)
  /\ forall x, In x (a :: l) -> (x <= fold_left Z.max l a)%Z.
Proof.
  revert a. induction l as [|y t IH]; intro a; simpl.
  - split; [now left|]. intros x [->|[]]. lia.
  - destruct (IH (Z.max a y)) as [Hin Hle]. split.
    + destruct Hin as [E|Hin]; [|now right; right].
      destruct (Z.max_spec a y) as [[_ Em]|[_ Em]];
        [right; left|left]; congruence.
    + specialize (Hle (Z.max a y) (or_introl eq_refl)) as Hm.
      intros x [E|[E|Hx]]; [lia|lia|].
      apply Hle. now right.
Qed.

Lemma filter_unique_key {A} (key : A -> Z) (l : list A) (x : A) :
  NoDup (map key l) -> In x l ->
  filter (fun y => (key y =? key x)%Z) l = [x].
Proof.
  induction l as [|y t IH]; intros Hnd Hin; [contradiction|].
  simpl in *. inversion Hnd as [|? ? Hout Hnd']; subst.
  destruct Hin as [->|Hin].
  - rewrite Z.eqb_refl. f_equal. apply filter_none. intros z Hz.
    apply Z.eqb_neq. intro E. apply Hout. rewrite <- E. now apply in_map.
  - destruct (Z.eqb_spec (key y) (key x)) as [E|_]; [|now apply IH].
    exfalso. apply Hout. rewrite E. now apply in_map.
Qed.

Lemma sorted_max_is_last {A} (key : A -> Z) (l : list A) (i : nat) (x : A) :
  StronglySorted (Py.in_order Z.ltb key) l ->
  NoDup (map key l) ->
  nth_error l i = Some x ->
  (forall y, In y l -> (key y <= key x)%Z) ->
  S i = length l.
Proof.
  intro Hs. revert i. induction Hs as [|a t Hs IH Ha]; intros i Hnd Hi Hmax.
  - now destruct i.
  - simpl in Hnd. inversion Hnd as [|? ? Hout Hnd']; subst.
    destruct i as [|j].
    + injection Hi as ->. destruct t as [|y t']; [reflexivity|]. exfalso.
      assert (Hy : (key y <= key x)%Z) by (apply Hmax; right; now left).
      rewrite Forall_forall in Ha. specialize (Ha y (or_introl eq_refl)).
      unfold Py.in_order in Ha. apply Z.ltb_ge in Ha.
      apply Hout. left. lia.
    + simpl. f_equal. apply IH; [exact Hnd'|exact Hi|].
      intros y Hy. apply Hmax. now right.
Qed.

Lemma latest_rating_scores (d d' : db) (player_id : Z) :
  scores d' = scores d ->
  q_latest_rating player_id d' = q_latest_rating player_id d.
Proof. unfold q_latest_rating. now intros ->. Qed.

(** The query answers with no row exactly for a player without a round. *)
Lemma latest_rating_nil (d : db) (player_id : Z) :
  q_latest_rating player_id d = [] <->
  existsb (fun s => (sr_player_id s =? player_id)%Z) (scores d) = false.
Proof.
  unfold q_latest_rating.
  destruct (filter (fun r => (sr_player_id r =? player_id)%Z) (scores d))
    as [|first others] eqn:EF.
  - split; [|reflexivity]. intros _. apply not_true_is_false. intro H.
    apply existsb_exists in H as (s & Hs & Hp).
    assert (Hin : In s []) by (rewrite <- EF; apply filter_In; auto).
    contradiction.
  - split.
    + intro H. exfalso.
      destruct (max_attained (map sr_timestamp others) (sr_timestamp first))
        as [Hin _].
      change (sr_timestamp first :: map sr_timestamp others)
        with (map sr_timestamp (first :: others)) in Hin.
      apply in_map_iff in Hin as (s & Hts & Hs).
      apply map_eq_nil in H.
      assert (Hf : In s (filter (fun r => (sr_timestamp r =?
                     fold_left Z.max (map sr_timestamp others)
                               (sr_timestamp first))%Z) (first :: others)))
        by (apply filter_In; split; [exact Hs|now apply Z.eqb_eq]).
      rewrite H in Hf. contradiction.
    + intro H. exfalso.
      assert (Hin : In first (filter (fun r => (sr_player_id r =? player_id)%Z)
                                (scores d))) by (rewrite EF; now left).
      apply filter_In in Hin as [Hin Hp].
      assert (existsb (fun s => (sr_player_id s =? player_id)%Z) (scores d) = true)
        by (apply existsb_exists; now exists first).
      congruence.
Qed.

(** When a player's timestamps are distinct, the rating of the latest round
    is the rating of all the adjusted scores. *)
Lemma latest_rating_current (INVALID_RATING : Q) (d : db) (player_id : Z)
      (rating : Q) :
  (forall pid,
      map sr_rating (rounds_of d pid) =
      map (fun k => Some (calculate_player_rating INVALID_RATING
                            (firstn k (q_player_adjusted_scores pid d))))
          (seq 1 (length (rounds_of d pid)))) ->
  NoDup (map sr_timestamp (rounds_of d player_id)) ->
  hd_error (q_latest_rating player_id d) = Some (Some rating) ->
  rating = calculate_player_rating INVALID_RATING
             (q_player_adjusted_scores player_id d).
Proof.
  intros Hhist Hnd Hhd. unfold q_latest_rating in Hhd.
  pose proof (sort_by_perm Z.ltb sr_timestamp
                (filter (fun r => (sr_player_id r =? player_id)%Z) (scores d)))
    as Hperm.
  fold (rounds_of d player_id) in Hperm.
  destruct (filter (fun r => (sr_player_id r =? player_id)%Z) (scores d))
    as [|first others] eqn:EF; [discriminate|].
  destruct (max_attained (map sr_timestamp others) (sr_timestamp first))
    as [Hin Hmax].
  set (latest := fold_left Z.max (map sr_timestamp others) (sr_timestamp first))
    in *.
  change (sr_timestamp first :: map sr_timestamp others)
    with (map sr_timestamp (first :: others)) in Hin, Hmax.
  apply in_map_iff in Hin as (s & Hts & Hs).
  assert (HndF : NoDup (map sr_timestamp (first :: others))).
  { eapply Permutation_NoDup; [|exact Hnd]. apply Permutation_map.
    now symmetry. }
  rewrite <- Hts in Hhd.
  rewrite (filter_unique_key sr_timestamp (first :: others) s HndF Hs) in Hhd.
  cbn [map hd_error] in Hhd. injection Hhd as Hr.
  assert (HsR : In s (rounds_of d player_id))
    by (eapply Permutation_in; [symmetry; exact Hperm|exact Hs]).
  apply In_nth_error in HsR as [i Hi].
  assert (Hlast : S i = length (rounds_of d player_id)).
  { apply (sorted_max_is_last sr_timestamp _ i s).
    - apply sort_by_sorted.
      + intros a b H. apply Z.ltb_lt in H. apply Z.ltb_ge. lia.
      + intros a b c H1 H2. apply Z.ltb_ge in H1, H2. apply Z.ltb_ge. lia.
    - exact Hnd.
    - exact Hi.
    - intros y Hy. rewrite Hts. apply Hmax. apply in_map.
      eapply Permutation_in; [exact Hperm|exact Hy]. }
  pose proof (f_equal (fun l => nth_error l i) (Hhist player_id)) as Hn.
  cbv beta in Hn. rewrite !nth_error_map, Hi, nth_error_seq in Hn.
  assert (Hlt : (i <? length (rounds_of d player_id))%nat = true)
    by (apply Nat.ltb_lt; lia).
  rewrite Hlt in Hn. cbn [option_map] in Hn.
  replace (1 + i)%nat with (length (q_player_adjusted_scores player_id d)) in Hn
    by (rewrite q_player_adjusted_scores_rounds, length_map; lia).
  rewrite firstn_all in Hn. congruence.
Qed.

Lemma upsert_named_player (player_id : Z) (player_name : string) (rating : Q)
      (d : db) :
  let d' := q_upsert_named_player player_id player_name rating d in
  pending_scores d' = pending_scores d
  /\ scores d' = scores d
  /\ (NoDup (map pl_discord_id (players d)) ->
      NoDup (map pl_discord_id (players d')))
  /\ (forall p, In p (players d') ->
                In p (players d) \/ p = PlayerRow player_id player_name rating)
  /\ (forall p, In p (players d) ->
                exists p', In p' (players d')
                           /\ pl_discord_id p' = pl_discord_id p)
  /\ exists p', In p' (players d') /\ pl_discord_id p' = player_id.
Proof.
  cbv zeta. unfold q_upsert_named_player, with_players.
  destruct (existsb (fun p => (pl_discord_id p =? player_id)%Z) (players d))
    eqn:Ex; cbn [pending_scores scores players].
  - set (g := fun p : player_row =>
                if (pl_discord_id p =? player_id)%Z
                then PlayerRow (pl_discord_id p) player_name rating else p).
    assert (Hg : forall p, pl_discord_id (g p) = pl_discord_id p).
    { intro p. unfold g. now destruct (pl_discord_id p =? player_id)%Z. }
    split; [reflexivity|]. split; [reflexivity|]. split; [|split; [|split]].
    + intro Hnd. rewrite map_map. erewrite map_ext; [exact Hnd|exact Hg].
    + intros p Hp. apply in_map_iff in Hp as (p0 & <- & Hp0). unfold g.
      destruct (Z.eqb_spec (pl_discord_id p0) player_id) as [->|_]; auto.
    + intros p Hp. exists (g p). split; [now apply in_map|apply Hg].
    + apply existsb_exists in Ex as (p & Hp & E). apply Z.eqb_eq in E.
      exists (g p). split; [now apply in_map|]. now rewrite Hg.
  - split; [reflexivity|]. split; [reflexivity|]. split; [|split; [|split]].
    + intro Hnd. rewrite map_app. cbn [map pl_discord_id].
      apply NoDup_app; [exact Hnd|repeat constructor; intros []|].
      intros x Hx [E0|[]]. subst x.
      apply in_map_iff in Hx as (p & E & Hp).
      assert (existsb (fun p => (pl_discord_id p =? player_id)%Z) (players d)
              = true)
        by (apply existsb_exists; exists p; split; [exact Hp|now apply Z.eqb_eq]).
      congruence.
    + intros p Hp. apply in_app_iff in Hp as [Hp|[<-|[]]]; auto.
    + intros p Hp. exists p. split; [apply in_app_iff; now left|reflexivity].
    + eexists. split; [apply in_app_iff; right; now left|reflexivity].
Qed.

Section ImportLoop.
Variable py_int : string -> option Z.

(** The loop over a sheet "Players" that can be read, on a ledger in which
    every row has a rating. *)
Lemma import_players_run (ledger : list score_row) :
  (forall s, In s ledger -> sr_rating s <> None) ->
  forall (data : list (list string)),
    Forall (readable py_int) data ->
    forall (unnamed no_score : list Z) (d : db) (n : nat),
      scores d = ledger ->
      exists w',
        import_players py_int data unnamed no_score (World d n no_faults)
        = (Returns (unnamed ++ unnamed_ids py_int data,
                    no_score ++ no_score_ids py_int ledger data), w')
        /\ scores (store w') = ledger
        /\ (NoDup (map pl_discord_id (players d)) ->
            NoDup (map pl_discord_id (players (store w'))))
        /\ (forall p, In p (players (store w')) ->
                      In p (players d)
                      \/ exists first player_name cells,
                           In (first :: player_name :: cells) data
                           /\ py_int first = Some (pl_discord_id p)
                           /\ pl_player_name p = player_name
                           /\ hd_error (q_latest_rating (pl_discord_id p) d)
                              = Some (Some (pl_rating p)))
        /\ (forall p, In p (players d) ->
                      exists p', In p' (players (store w'))
                                 /\ pl_discord_id p' = pl_discord_id p)
        /\ (forall first player_name cells player_id,
               In (first :: player_name :: cells) data ->
               py_int first = Some player_id ->
               existsb (fun s => (sr_player_id s =? player_id)%Z) ledger = true ->
               exists p', In p' (players (store w'))
                          /\ pl_discord_id p' = player_id).
Proof.
  intros Hrated data. induction data as [|entry rest IH];
    intros Hread unnamed no_score d n Hd.
  - eexists. split; [cbn; now rewrite !app_nil_r|].
    cbn [store]. split; [exact Hd|]. split; [auto|]. split; [auto|].
    split; [intros p Hp; now exists p|]. intros ? ? ? ? [].
  - inversion Hread as [|? ? (first & cells & player_id & -> & Hid) Hrest]; subst.
    cbn [import_players]. unfold c_bind at 1. unfold of_outcome at 1.
    unfold c_bind at 1. unfold of_outcome at 1. rewrite Hid.
    destruct cells as [|player_name cells].
    + cbn [length Nat.eqb].
      destruct (IH Hrest (unnamed ++ [player_id]) no_score d n eq_refl)
        as (w' & Hrun & Hs & Hnd & Hfrom & Hkeep & Hnamed).
      exists w'. split.
      { rewrite Hrun. cbn [unnamed_ids no_score_ids flat_map]. rewrite Hid.
        now rewrite <- app_assoc. }
      split; [exact Hs|]. split; [exact Hnd|]. split; [|split; [exact Hkeep|]].
      * intros p Hp. destruct (Hfrom p Hp) as [H|(f & nm & cs & Hin & H)];
          [now left|right]. exists f, nm, cs. split; [now right|exact H].
      * intros f nm cs pid [E|Hin] Hf Hex; [discriminate|].
        now apply (Hnamed f nm cs pid).
    + cbn [length Nat.eqb]. unfold c_bind at 1. unfold of_M at 1.
      unfold select, db_call. cbn [store calls faults no_faults].
      destruct (q_latest_rating player_id d) as [|[rating|] ratings] eqn:Elat.
      * apply latest_rating_nil in Elat.
        destruct (IH Hrest unnamed (no_score ++ [player_id]) d (S n) eq_refl)
          as (w' & Hrun & Hs & Hnd & Hfrom & Hkeep & Hnamed).
        exists w'. split.
        { rewrite Hrun. cbn [unnamed_ids no_score_ids flat_map]. rewrite Hid.
          rewrite Elat. cbn [app]. now rewrite <- app_assoc. }
        split; [exact Hs|]. split; [exact Hnd|]. split; [|split; [exact Hkeep|]].
        -- intros p Hp. destruct (Hfrom p Hp) as [H|(f & nm & cs & Hin & H)];
             [now left|right]. exists f, nm, cs. split; [now right|exact H].
        -- intros f nm cs pid [E|Hin] Hf Hex.
           ++ injection E as <- <- <-. rewrite Hid in Hf.
              injection Hf as <-. congruence.
           ++ now apply (Hnamed f nm cs pid).
      * assert (Hsome : existsb (fun s => (sr_player_id s =? player_id)%Z)
                                (scores d) = true).
        { destruct (existsb _ (scores d)) eqn:Ex; [reflexivity|].
          apply latest_rating_nil in Ex. congruence. }
        unfold c_bind at 1. unfold of_M at 1. unfold execute, db_call.
        cbn [store calls faults no_faults].
        destruct (upsert_named_player player_id player_name rating d)
          as (_ & Us & Und & Ufrom & Ukeep & Uthere).
        set (d1 := q_upsert_named_player player_id player_name rating d) in *.
        destruct (IH Hrest unnamed no_score d1 (S (S n)) Us)
          as (w' & Hrun & Hs & Hnd & Hfrom & Hkeep & Hnamed).
        exists w'. split.
        { rewrite Hrun. cbn [unnamed_ids no_score_ids flat_map]. rewrite Hid.
          rewrite Hsome. reflexivity. }
        split; [exact Hs|]. split; [auto|]. split; [|split].
        -- intros p Hp. destruct (Hfrom p Hp) as [H|(f & nm & cs & Hin & H)].
           ++ destruct (Ufrom p H) as [H0| ->]; [now left|right].
              exists first, player_name, cells. split; [now left|].
              cbn [pl_discord_id pl_player_name pl_rating].
              split; [exact Hid|]. split; [reflexivity|]. now rewrite Elat.
           ++ right. exists f, nm, cs. split; [now right|].
              rewrite (latest_rating_scores d d1 _ Us) in H. exact H.
        -- intros p Hp. destruct (Ukeep p Hp) as (p1 & Hp1 & E1).
           destruct (Hkeep p1 Hp1) as (p2 & Hp2 & E2).
           exists p2. split; [exact Hp2|congruence].
        -- intros f nm cs pid [E|Hin] Hf Hex.
           ++ injection E as <- <- <-. rewrite Hid in Hf.
              injection Hf as <-.
              destruct Uthere as (p1 & Hp1 & E1).
              destruct (Hkeep p1 Hp1) as (p2 & Hp2 & E2).
              exists p2. split; [exact Hp2|congruence].
           ++ now apply (Hnamed f nm cs pid).
      * exfalso.
        assert (Hin : In None (q_latest_rating player_id d))
          by (rewrite Elat; now left).
        unfold q_latest_rating in Hin.
        destruct (filter _ (scores d)) as [|fst_row others] eqn:EF;
          [contradiction|].
        apply in_map_iff in Hin as (s & Hnone & Hs).
        apply filter_In in Hs as [Hs _].
        assert (Hsd : In s (scores d)).
        { assert (H : In s (filter (fun r => (sr_player_id r =? player_id)%Z)
                              (scores d))) by (rewrite EF; exact Hs).
          now apply filter_In in H. }
        now apply (Hrated s).
Qed.

End ImportLoop.

(** X17. The players table after an import.  Under the conditions of X16
    and with a sheet "Players" whose every entry starts with a number, the
    command does not answer with an error.  It names the ids that have no
    name, if there are any; otherwise, if some named id has no round in the
    new ledger, it says so, and the list it prints is that of the unnamed
    ids, which is then empty; otherwise it reports success.  The players
    table holds each id once.  Every row of it comes from an entry of the
    sheet with that id and that name, and carries the rating stored with
    the first row of the player's latest timestamp; when the player's
    timestamps are distinct, that is the rating of all the player's adjusted
    scores, oldest first.  Every named entry whose id has a round in the
    ledger has a row in the players table. *)
Theorem import_fills_players (INVALID_RATING : Q) (CHARACTERS : list string)
        (py_int : string -> option Z)
        (scores_sheet players_sheet : list (list string))
        (rows : list (Z * Z * Z * string * Z)) (d : db) :
  Forall (fun row => check_row_valid CHARACTERS py_int row = Returns true)
         scores_sheet ->
  parse_rows py_int scores_sheet = Returns rows ->
  (12 <= length (courses d))%nat ->
  Forall (readable py_int) players_sheet ->
  exists d',
    c_run (update_database_from_spreadsheet INVALID_RATING CHARACTERS py_int true
             scores_sheet players_sheet) no_faults d
    = (Returns match unnamed_ids py_int players_sheet,
                     no_score_ids py_int (scores d') players_sheet with
               | _ :: _, _ => UnnamedPlayers (unnamed_ids py_int players_sheet)
               | [], _ :: _ => NoScorePlayers []
               | [], [] => Finished
               end,
       d')
    /\ NoDup (map pl_discord_id (players d'))
    /\ (forall p, In p (players d') ->
          exists first player_name cells,
            In (first :: player_name :: cells) players_sheet
            /\ py_int first = Some (pl_discord_id p)
            /\ pl_player_name p = player_name
            /\ hd_error (q_latest_rating (pl_discord_id p) d')
               = Some (Some (pl_rating p))
            /\ (NoDup (map sr_timestamp (rounds_of d' (pl_discord_id p))) ->
                pl_rating p =
                calculate_player_rating INVALID_RATING
                  (q_player_adjusted_scores (pl_discord_id p) d')))
    /\ (forall first player_name cells player_id,
          In (first :: player_name :: cells) players_sheet ->
          py_int first = Some player_id ->
          (exists s, In s (scores d') /\ sr_player_id s = player_id) ->
          exists p, In p (players d') /\ pl_discord_id p = player_id).
Proof.
  intros Hvalid Hparse Hcourses Hread.
  destruct (import_until_players INVALID_RATING CHARACTERS py_int scores_sheet
              players_sheet rows d Hvalid Hparse Hcourses)
    as (d3 & Hrun & _ & _ & _ & Hpl & _ & _ & Hhist).
  pose proof (rated_rows INVALID_RATING d3 Hhist) as Hrated.
  destruct (import_players_run py_int (scores d3) Hrated players_sheet Hread
              [] [] d3 9%nat eq_refl)
    as (w' & Hloop & Hs & Hnd & Hfrom & _ & Hnamed).
  rewrite Hloop in Hrun. cbn [app] in Hrun.
  assert (Hhist' : forall pid,
             map sr_rating (rounds_of (store w') pid) =
             map (fun k => Some (calculate_player_rating INVALID_RATING
                                   (firstn k (q_player_adjusted_scores pid
                                                (store w')))))
                 (seq 1 (length (rounds_of (store w') pid)))).
  { intro pid. rewrite !q_player_adjusted_scores_rounds.
    rewrite (rounds_of_scores d3 _ pid Hs).
    rewrite <- q_player_adjusted_scores_rounds. apply Hhist. }
  exists (store w'). split; [|split; [|split]].
  - rewrite Hrun, Hs.
    destruct (unnamed_ids py_int players_sheet),
             (no_score_ids py_int (scores d3) players_sheet); reflexivity.
  - apply Hnd. rewrite Hpl. constructor.
  - intros p Hp. destruct (Hfrom p Hp) as [H|(f & nm & cs & Hin & Hf & Hn & Hr)].
    + rewrite Hpl in H. contradiction.
    + exists f, nm, cs. rewrite (latest_rating_scores d3 (store w') _ Hs).
      repeat (split; [assumption|]).
      intro Hts. apply latest_rating_current; [exact Hhist'|exact Hts|].
      now rewrite (latest_rating_scores d3 (store w') _ Hs).
  - intros f nm cs pid Hin Hf (s & Hsin & Hsp).
    apply (Hnamed f nm cs pid Hin Hf). apply existsb_exists.
    exists s. rewrite <- Hs. split; [exact Hsin|now apply Z.eqb_eq].
Qed.

Lemma import_fills_players_witness :
  exists d',
    c_run (update_database_from_spreadsheet 1000 Sheet.CHARACTERS Sheet.int true
             Sheet.rounds Sheet.names) no_faults Sheet.store
    = (Returns match unnamed_ids Sheet.int Sheet.names,
                     no_score_ids Sheet.int (scores d') Sheet.names with
               | _ :: _, _ => UnnamedPlayers (unnamed_ids Sheet.int Sheet.names)
               | [], _ :: _ => NoScorePlayers []
               | [], [] => Finished
               end,
       d')
    /\ NoDup (map pl_discord_id (players d')).
Proof.
  destruct (import_fills_players 1000 Sheet.CHARACTERS Sheet.int Sheet.rounds
              Sheet.names
              [ (10, 1, 7, "Yoshi", 2); (20, 2, 7, "Peach", -1);
                (15, 12, 9, "Luigi", 4) ]%Z%string Sheet.store)
    as (d' & Hrun & Hnd & _).
  - repeat constructor.
  - reflexivity.
  - vm_compute. lia.
  - repeat (constructor; [do 3 eexists; split; reflexivity|]). constructor.
  - exists d'. split; [exact Hrun|exact Hnd].
Defined.

(* ------------------------------------------------------------------ *)
(** ** The indices that [update_difficulty_indices] stores *)

Lemma in_keys_get {V} (d : Py.dict Z V) (k : Z) :
  In k (Py.keys d) <-> exists v, Py.get Z.eqb d k = Some v.
Proof.
  induction d as [|[k0 v0] t IH]; simpl.
  - split; [contradiction|]. intros [v H]. discriminate.
  - destruct (Z.eqb_spec k0 k) as [->|Hne].
    + split; [intros _; now exists v0|now left].
    + rewrite <- IH. split; [intros [E|H]; [contradiction|exact H]|now right].
Qed.

Lemma in_dict_get {V} (d : Py.dict Z V) (k : Z) (v : V) :
  NoDup (Py.keys d) -> In (k, v) d -> Py.get Z.eqb d k = Some v.
Proof.
  induction d as [|[k0 v0] t IH]; simpl; intros Hnd Hin; [contradiction|].
  inversion Hnd as [|? ? Hout Hnd']; subst.
  destruct Hin as [E|Hin].
  - injection E as -> ->. now rewrite Z.eqb_refl.
  - destruct (Z.eqb_spec k0 k) as [->|_]; [|now apply IH].
    exfalso. apply Hout. unfold Py.keys. apply in_map_iff. now exists (k, v).
Qed.

Lemma in_keys_upd {V} (d : Py.dict Z V) (k x : Z) (f : option V -> V) :
  In x (Py.keys (Py.upd Z.eqb d k f)) <-> x = k \/ In x (Py.keys d).
Proof.
  rewrite !in_keys_get, get_upd.
  destruct (Z.eqb_spec k x) as [->|Hne].
  - split; [now left|]. intros _. now eexists.
  - split; [now right|]. intros [E|H]; [congruence|exact H].
Qed.

Lemma in_keys_group {A V} (kf : A -> Z) (vf : A -> V) (l : list A) (k : Z) :
  In k (Py.keys (group kf vf l [])) <-> exists x, In x l /\ kf x = k.
Proof.
  rewrite in_keys_get, get_group. cbn [Py.get].
  destruct (filter (fun x => (kf x =? k)%Z) l) as [|y t] eqn:E.
  - split; [intros [v H]; discriminate|].
    intros (x & Hx & Hk). exfalso.
    assert (Hin : In x (filter (fun x => (kf x =? k)%Z) l))
      by (apply filter_In; split; [exact Hx|now apply Z.eqb_eq]).
    rewrite E in Hin. contradiction.
  - split; [|intros _; now eexists]. intros _.
    assert (Hin : In y (filter (fun x => (kf x =? k)%Z) l))
      by (rewrite E; now left).
    apply filter_In in Hin as [Hy Hk]. exists y. split; [exact Hy|].
    now apply Z.eqb_eq.
Qed.

(** The courses of [course_averages_by_player] are those of the players'
    dictionaries. *)
Lemma in_keys_course_averages_by_player (averages : Py.dict Z (Py.dict Z Q))
      (course_id : Z) :
  In course_id (Py.keys (course_averages_by_player averages)) <->
  exists player_id course_averages,
    In (player_id, course_averages) averages
    /\ In course_id (Py.keys course_averages).
Proof.
  unfold course_averages_by_player.
  set (inner := fun (player_id : Z) (by_course : Py.dict Z (Py.dict Z Q))
                    (item' : Z * Q) =>
                  let '(cid, average_score) := item' in
                  Py.upd Z.eqb by_course cid
                    (fun o => Py.set Z.eqb (match o with Some m => m | None => [] end)
                                      player_id average_score)).
  assert (Hinner : forall pid ca acc,
             In course_id (Py.keys (fold_left (inner pid) ca acc)) <->
             In course_id (Py.keys acc) \/ In course_id (Py.keys ca)).
  { intros pid ca. induction ca as [|[cid avg] t IH]; intro acc; simpl.
    - tauto.
    - rewrite IH. unfold inner. rewrite in_keys_upd. intuition. }
  assert (Houter : forall l acc,
             In course_id
                (Py.keys (fold_left
                            (fun by_course (item : Z * Py.dict Z Q) =>
                               let '(player_id, course_averages) := item in
                               fold_left (inner player_id) course_averages by_course)
                            l acc)) <->
             In course_id (Py.keys acc)
             \/ exists pid ca, In (pid, ca) l /\ In course_id (Py.keys ca)).
  { induction l as [|[pid ca] t IH]; intro acc; simpl.
    - split; [now left|]. intros [H|(? & ? & [] & _)]. exact H.
    - rewrite IH, Hinner. split.
      + intros [[H|H]|(p & c & Hin & Hk)].
        * now left.
        * right. exists pid, ca. split; [now left|exact H].
        * right. exists p, c. split; [now right|exact Hk].
      + intros [H|(p & c & [E|Hin] & Hk)].
        * left. now left.
        * injection E as <- <-. left. now right.
        * right. now exists p, c. }
  etransitivity; [exact (Houter averages [])|]. simpl. tauto.
Qed.

(** The courses that get an index are the courses of the selected rows. *)
Lemma in_keys_averaged (rows : list (Z * Z * Z * Z)) (course_id : Z) :
  In course_id
     (Py.keys (course_averages_by_player
                 (map (fun item => (fst item, averages_by_course (snd item)))
                      (player_data rows)))) <->
  exists row, In row rows /\ snd (fst (fst row)) = course_id.
Proof.
  rewrite in_keys_course_averages_by_player.
  set (kf := fun r : Z * Z * Z * Z => fst (fst (fst r))).
  set (vf := fun r : Z * Z * Z * Z => (snd (fst (fst r)), snd (fst r), snd r)).
  set (sorted := Py.sort_by Z.ltb (fun r : Z * Z * Z * Z => snd (fst r)) rows).
  assert (Hget : forall pid,
             Py.get Z.eqb (player_data rows) pid =
             extend None (map vf (filter (fun x => (kf x =? pid)%Z) sorted))).
  { intro pid. rewrite player_data_group, get_group. reflexivity. }
  split.
  - intros (pid & m & Hin & Hk).
    apply in_map_iff in Hin as ([pid' rounds] & E & Hin). cbn [fst snd] in E.
    injection E as -> <-.
    unfold averages_by_course in Hk. rewrite keys_map_values in Hk.
    rewrite course_scores_group in Hk.
    apply in_keys_group in Hk as (round & Hround & Hc).
    apply (in_dict_get _ _ _ (player_data_NoDup rows)) in Hin.
    rewrite Hget in Hin.
    destruct (map vf (filter (fun x => (kf x =? pid)%Z) sorted)) as [|r0 rs] eqn:E;
      [discriminate|].
    cbn [extend] in Hin. injection Hin as <-. rewrite <- E in Hround.
    apply in_map_iff in Hround as (row & <- & Hrow).
    apply filter_In in Hrow as [Hrow _].
    exists row. split; [|exact Hc].
    unfold sorted in Hrow. now apply sort_by_In in Hrow.
  - intros (row & Hrow & Hc).
    assert (Hs : In row (filter (fun x => (kf x =? kf row)%Z) sorted)).
    { apply filter_In. split; [unfold sorted; now apply sort_by_In|].
      apply Z.eqb_refl. }
    apply (in_map vf) in Hs.
    destruct (map vf (filter (fun x => (kf x =? kf row)%Z) sorted))
      as [|r0 rs] eqn:E; [contradiction|].
    exists (kf row), (averages_by_course (r0 :: rs)). split.
    + apply in_map_iff. exists (kf row, r0 :: rs). split; [reflexivity|].
      apply dict_get_In. rewrite Hget, E. reflexivity.
    + unfold averages_by_course. rewrite keys_map_values, course_scores_group.
      apply in_keys_group. exists (vf row). split; [exact Hs|exact Hc].
Qed.

Lemma total_perm (l l' : list Q) : Permutation l l' -> total l == total l'.
Proof.
  induction 1 as [|x l l' _ IH|x y l|l l' l'' _ IH1 _ IH2]; simpl.
  - reflexivity.
  - now rewrite IH.
  - ring.
  - now rewrite IH1.
Qed.

Lemma find_get {V} (d : Py.dict Z V) (k : Z) :
  find (fun v : Z * V => (fst v =? k)%Z) d
  = option_map (fun v => (k, v)) (Py.get Z.eqb d k).
Proof.
  induction d as [|[k0 v0] t IH]; simpl; [reflexivity|].
  destruct (Z.eqb_spec k0 k) as [->|_]; [reflexivity|exact IH].
Qed.

(** With at least one selected score the calculator gives one index for each
    course of the selected scores, and no other; the indices sum to zero. *)
Lemma difficulty_indices_keys (rows : list (Z * Z * Z * Z)) :
  rows <> [] ->
  exists indices : Py.dict Z Q,
    difficulty_indices rows = Ok indices
    /\ NoDup (Py.keys indices)
    /\ (forall course_id,
           In course_id (Py.keys indices) <->
           exists row, In row rows /\ snd (fst (fst row)) = course_id)
    /\ total (Py.values indices) == 0.
Proof.
  intro Hne. unfold difficulty_indices.
  rewrite player_course_averages_ok. cbn [rbind].
  destruct (player_averages_shape rows Hne) as [Ha Hv].
  pose proof (in_keys_averaged rows) as Hkeys.
  set (averages := map _ (player_data rows)) in *.
  pose proof (course_averages_by_player_well_keyed averages) as Hwk.
  pose proof (course_averages_by_player_not_nil averages Ha Hv) as Hnn.
  rewrite (final_averages_ok _ Hwk). cbn [rbind].
  set (final := map _ (course_averages_by_player averages)).
  assert (Hfn : final <> []) by (intro E; apply map_eq_nil in E; contradiction).
  assert (Hfk : Py.keys final = Py.keys (course_averages_by_player averages))
    by (unfold final; apply keys_map_values).
  rewrite indices_of_averages_ok;
    [|exact Hfn|rewrite Hfk; apply Hwk].
  eexists. split; [reflexivity|].
  pose proof (keys_map_values
                (fun v => v - Py.sum (Py.values final) / Py.len final) final)
    as Hk.
  pose proof (values_map_values
                (fun v => v - Py.sum (Py.values final) / Py.len final) final)
    as Hvals.
  cbv beta in Hk, Hvals. rewrite Hk, Hvals, Hfk.
  split; [apply Hwk|]. split; [exact Hkeys|].
  assert (Hvn : Py.values final <> [])
    by (intro E; apply map_eq_nil in E; contradiction).
  assert (Hlen : Py.len final = Py.len (Py.values final))
    by (unfold Py.len, Py.values; now rewrite length_map).
  rewrite Hlen. now apply centered.
Qed.

(** X18. The indices that end up in the courses table.  On a roster with
    distinct course ids, not empty, and with an eligible player in the
    players table, [update_difficulty_indices] without storage failure
    returns and writes to the index column only; every course of the roster
    gets the index the calculator has for it, none keeps its old one; and
    when every score is on a course of the roster, the stored indices have
    mean zero. *)
Theorem update_difficulty_indices_stored (d : db) :
  NoDup (map co_course_id (courses d)) ->
  courses d <> [] ->
  (exists p, In p (players d) /\ eligible d (pl_discord_id p) = true) ->
  exists indices d',
    difficulty_indices (q_eligible_scores d) = Ok indices
    /\ run update_difficulty_indices no_faults d = (Ok tt, d')
    /\ pending_scores d' = pending_scores d
    /\ scores d' = scores d
    /\ players d' = players d
    /\ map (set_co_difficulty_index 0) (courses d')
       = map (set_co_difficulty_index 0) (courses d)
    /\ (forall c, In c (courses d') ->
          Py.get Z.eqb indices (co_course_id c) = Some (co_difficulty_index c))
    /\ (courses_known d -> mean (map co_difficulty_index (courses d')) == 0).
Proof.
  intros Hnd Hne (p & Hp & He).
  assert (Hplayed : forall c, In c (courses d) ->
             exists row, In row (q_eligible_scores d)
                         /\ snd (fst (fst row)) = co_course_id c).
  { intros c Hc.
    pose proof (proj1 (eligible_iff d (pl_discord_id p) Hnd) He c Hc) as Hr.
    unfold rounds_on, NUM_REQUIRED_SCORES in Hr.
    destruct (filter (fun s => ((sr_player_id s =? pl_discord_id p)
                                && (sr_course_id s =? co_course_id c))%Z)
                     (scores d)) as [|s rest] eqn:EF; [simpl in Hr; lia|].
    assert (Hs : In s (filter (fun s => ((sr_player_id s =? pl_discord_id p)
                                         && (sr_course_id s =? co_course_id c))%Z)
                              (scores d))) by (rewrite EF; now left).
    apply filter_In in Hs as [Hs Hpc]. apply andb_true_iff in Hpc as [Hpid Hcid].
    apply Z.eqb_eq in Hpid, Hcid.
    exists (sr_player_id s, sr_course_id s, sr_timestamp s, sr_score s).
    split; [|exact Hcid]. unfold q_eligible_scores.
    apply in_map_iff. exists s. split; [reflexivity|].
    apply filter_In. split; [exact Hs|]. apply existsb_exists.
    exists p. split; [exact Hp|]. now rewrite Hpid, Z.eqb_refl, He. }
  assert (Hrows : q_eligible_scores d <> []).
  { destruct (courses d) as [|c cs] eqn:Ec; [contradiction|].
    destruct (Hplayed c (or_introl eq_refl)) as (row & Hrow & _).
    intro E. rewrite E in Hrow. contradiction. }
  destruct (difficulty_indices_keys (q_eligible_scores d) Hrows)
    as (indices & Hd & Hk & Hin & Htot).
  exists indices, (q_update_difficulty_indices indices d).
  split; [exact Hd|]. split; [now rewrite update_difficulty_indices_run, Hd|].
  split; [reflexivity|]. split; [reflexivity|]. split; [reflexivity|].
  set (lookup := fun k => match Py.get Z.eqb indices k with
                          | Some v => v
                          | None => 0
                          end).
  assert (Hstored : forall c, In c (courses d) ->
             match find (fun v => (fst v =? co_course_id c)%Z) indices with
             | Some v => set_co_difficulty_index (snd v) c
             | None => c
             end = set_co_difficulty_index (lookup (co_course_id c)) c
             /\ Py.get Z.eqb indices (co_course_id c)
                = Some (lookup (co_course_id c))).
  { intros c Hc.
    assert (Hkey : In (co_course_id c) (Py.keys indices))
      by (apply Hin; now apply Hplayed).
    apply in_keys_get in Hkey as [v Hv].
    rewrite find_get. unfold lookup. rewrite Hv. now split. }
  unfold q_update_difficulty_indices, with_courses. cbn [courses].
  split; [|split].
  - rewrite map_map. apply map_ext. intro c. now destruct (find _ indices).
  - intros c' Hc'. apply in_map_iff in Hc' as (c & <- & Hc).
    destruct (Hstored c Hc) as [-> Hg]. exact Hg.
  - intro Hknown. unfold mean.
    assert (Hperm : Permutation (map co_course_id (courses d)) (Py.keys indices)).
    { apply NoDup_Permutation; [exact Hnd|exact Hk|]. intro x. split.
      - intro Hx. apply in_map_iff in Hx as (c & <- & Hc).
        apply Hin. now apply Hplayed.
      - intro Hx. apply Hin in Hx as (row & Hrow & <-).
        unfold q_eligible_scores in Hrow.
        apply in_map_iff in Hrow as (s & <- & Hs). apply filter_In in Hs as [Hs _].
        destruct (Hknown s Hs) as (c & Hc & Hid). cbn [fst snd]. rewrite <- Hid.
        now apply in_map. }
    assert (Hleft : map co_difficulty_index
                        (map (fun c =>
                                match find (fun v => (fst v =? co_course_id c)%Z)
                                        indices with
                                | Some v => set_co_difficulty_index (snd v) c
                                | None => c
                                end) (courses d))
                    = map lookup (map co_course_id (courses d))).
    { rewrite !map_map. apply map_ext_in. intros c Hc.
      destruct (Hstored c Hc) as [-> _]. reflexivity. }
    assert (Hright : Py.values indices = map lookup (Py.keys indices)).
    { unfold Py.values, Py.keys. rewrite map_map. apply map_ext_in.
      intros [k v] Hkv. unfold lookup. cbn [fst snd].
      now rewrite (in_dict_get indices k v Hk Hkv). }
    rewrite Hleft.
    rewrite (total_perm _ _ (Permutation_map lookup Hperm)).
    rewrite <- Hright, Htot. unfold Qdiv. ring.
Qed.

Lemma update_difficulty_indices_stored_witness :
  exists d',
    run update_difficulty_indices no_faults Sample.league = (Ok tt, d')
    /\ mean (map co_difficulty_index (courses d')) == 0.
Proof.
  destruct (update_difficulty_indices_stored Sample.league)
    as (indices & d' & _ & Hrun & _ & _ & _ & _ & _ & Hmean).
  - vm_compute. repeat constructor; simpl; intuition discriminate.
  - discriminate.
  - exists (PlayerRow 7 "ann" 1000). split; [now left|reflexivity].
  - exists d'. split; [exact Hrun|]. apply Hmean.
    intros s Hs.
    assert (Hc : sr_course_id s = 1%Z \/ sr_course_id s = 2%Z).
    { vm_compute in Hs. intuition (subst; auto). }
    destruct Hc as [E|E]; rewrite E.
    + exists (CourseRow 1 "Toad Highlands" "Front" 0). simpl. auto.
    + exists (CourseRow 2 "Toad Highlands" "Back" 0). simpl. auto.
Defined.

(* ------------------------------------------------------------------ *)
(** ** Running the ranking job again *)

Lemma update_adjusted_scores_indexed (d : db) (n : nat) :
  (forall s, In s (scores d) ->
             Py.index (q_difficulty_indices d) (sr_course_id s - 1) <> None) ->
  update_adjusted_scores (World d n no_faults) =
  (Ok tt,
   World (q_update_adjusted_scores
            (map (fun s => readjusted (q_difficulty_indices d)
                             (sr_round_id s, sr_course_id s, sr_score s,
                              sr_adjusted_score s))
                 (scores d)) d)
         (3 + n) no_faults).
Proof.
  intros Hknown.
  unfold update_adjusted_scores, get_difficulty_indices, bind, catch, select,
    execute, db_call, lift, no_faults. simpl.
  rewrite (mapM_ok _ (readjusted (q_difficulty_indices d))).
  - rewrite map_map. reflexivity.
  - intros [[[rid cid] sc] adj] Hin.
    apply in_map_iff in Hin as (s & Heq & Hs). injection Heq as <- <- <- <-.
    specialize (Hknown s Hs). unfold readjusted, index_or_raise.
    destruct (Py.index (q_difficulty_indices d) (sr_course_id s - 1));
      [reflexivity|contradiction].
Qed.

Lemma with_scores_same (d : db) : with_scores d (scores d) = d.
Proof. now destruct d. Qed.

Lemma map_fixed {A} (g : A -> A) (l : list A) :
  (forall x, In x l -> g x = x) -> map g l = l.
Proof.
  intro H. rewrite <- (map_id l) at 2. now apply map_ext_in.
Qed.

(** The ranking job as a function of the store, when nothing fails. *)
Lemma generate_rankings_table_run (INVALID_RATING : Q) (d : db) :
  (forall s, In s (scores d) ->
             Py.index (q_difficulty_indices d) (sr_course_id s - 1) <> None) ->
  let d1 := q_update_adjusted_scores
              (map (fun s => readjusted (q_difficulty_indices d)
                               (sr_round_id s, sr_course_id s, sr_score s,
                                sr_adjusted_score s))
                   (scores d)) d in
  let d2 := snd (run (update_player_ratings INVALID_RATING) no_faults d1) in
  run (generate_rankings_table INVALID_RATING) no_faults d =
  (Ok match rated_players INVALID_RATING (players d2) with
      | [] => None
      | _ :: _ => Some (rankings_sheet INVALID_RATING (players d2))
      end, d2).
Proof.
  intro Hknown. cbv zeta.
  unfold run, generate_rankings_table. unfold bind at 1.
  rewrite (update_adjusted_scores_indexed d 0 Hknown).
  unfold bind at 1. rewrite update_player_ratings_world.
  unfold bind, catch, select, db_call, ret, no_faults.
  cbn [store calls faults fst snd].
  now destruct (rated_players INVALID_RATING _).
Qed.

Lemma adjusted_after_ratings (INVALID_RATING : Q) (d : db) (pid : Z) :
  q_player_adjusted_scores pid
    (snd (run (update_player_ratings INVALID_RATING) no_faults d))
  = q_player_adjusted_scores pid d.
Proof.
  rewrite update_player_ratings_no_faults. cbv zeta. cbn [snd].
  rewrite !q_player_adjusted_scores_rounds.
  rewrite rounds_of_update_players, q_update_ratings_rounds, map_map.
  apply map_ext. intro s. now destruct (find _ _).
Qed.

(** On a store whose adjusted scores already are the scores minus the stored
    indices, the first half of the job changes nothing. *)
Lemma adjusted_again (d : db) :
  NoDup (map sr_round_id (scores d)) ->
  Forall (fun s =>
            sr_adjusted_score s =
            snd (readjusted (q_difficulty_indices d)
                   (sr_round_id s, sr_course_id s, sr_score s,
                    sr_adjusted_score s)))
         (scores d) ->
  q_update_adjusted_scores
    (map (fun s => readjusted (q_difficulty_indices d)
                     (sr_round_id s, sr_course_id s, sr_score s,
                      sr_adjusted_score s))
         (scores d)) d
  = d.
Proof.
  intros Hnd Hadj.
  pose proof (q_update_adjusted_scores_scores d Hnd) as Hs.
  unfold q_update_adjusted_scores in *. unfold with_scores in Hs at 1.
  cbn [scores] in Hs. rewrite Hs.
  rewrite map_fixed; [apply with_scores_same|].
  intros s Hin. rewrite Forall_forall in Hadj. rewrite <- (Hadj s Hin).
  now destruct s.
Qed.

(** On a store that carries the rating history of its adjusted scores, the
    second half of the job changes nothing. *)
Lemma ratings_again (INVALID_RATING : Q) (d : db) :
  NoDup (map sr_round_id (scores d)) ->
  (forall pid,
      map sr_rating (rounds_of d pid) =
      map (fun k => Some (calculate_player_rating INVALID_RATING
                            (firstn k (q_player_adjusted_scores pid d))))
          (seq 1 (length (rounds_of d pid)))) ->
  (forall p, In p (players d) ->
             q_player_adjusted_scores (pl_discord_id p) d <> [] ->
             pl_rating p = calculate_player_rating INVALID_RATING
                             (q_player_adjusted_scores (pl_discord_id p) d)) ->
  snd (run (update_player_ratings INVALID_RATING) no_faults d) = d.
Proof.
  intros Hnd Hhist Hpl.
  pose proof (update_player_ratings_players INVALID_RATING d) as Hplayers.
  rewrite update_player_ratings_no_faults in *. cbv zeta in *. cbn [snd] in *.
  set (flat := concat _) in *.
  set (current := map (fun item => snd (rated INVALID_RATING item)) _) in *.
  assert (Hs : scores (q_update_player_ratings current (q_update_ratings flat d))
               = scores d).
  { unfold q_update_player_ratings, with_players, q_update_ratings, with_scores.
    cbn [scores]. apply map_fixed. intros s Hs.
    assert (Hin : In s (rounds_of d (sr_player_id s))).
    { unfold rounds_of. apply sort_by_In. apply filter_In.
      split; [exact Hs|apply Z.eqb_refl]. }
    apply In_nth_error in Hin as [i Hi].
    unfold flat.
    rewrite (flattened_find INVALID_RATING d (sr_player_id s) i s Hnd Hi).
    cbn [re_rating set_re_rating].
    pose proof (f_equal (fun l => nth_error l i) (Hhist (sr_player_id s))) as Hn.
    cbv beta in Hn. rewrite !nth_error_map, Hi, nth_error_seq in Hn.
    assert (Hlt : (i <? length (rounds_of d (sr_player_id s)))%nat = true).
    { apply Nat.ltb_lt. apply nth_error_Some. congruence. }
    rewrite Hlt in Hn. cbn [option_map] in Hn.
    replace (i + 1)%nat with (1 + i)%nat by lia.
    injection Hn as Hn. destruct s. cbn [sr_rating] in Hn.
    cbn [set_sr_rating sr_round_id sr_timestamp sr_course_id sr_player_id
         sr_character sr_score sr_adjusted_score] in *.
    now rewrite Hn. }
  assert (Hp : players (q_update_player_ratings current (q_update_ratings flat d))
               = players d).
  { rewrite Hplayers. apply map_fixed. intros p Hin.
    specialize (Hpl p Hin).
    destruct (q_player_adjusted_scores (pl_discord_id p) d) as [|x l] eqn:E;
      [reflexivity|].
    rewrite <- Hpl by discriminate. now destruct p. }
  revert Hs Hp. unfold q_update_player_ratings, with_players, q_update_ratings,
    with_scores. cbn [scores players pending_scores courses next_round_id].
  intros -> ->. now destruct d.
Qed.

(** X19. The ranking job is idempotent.  On a ledger with distinct round
    ids, every score of which has a course id for which
    [indices[course_id - 1]] exists, a run of [generate_rankings_table]
    without storage failure returns, and a second run right after it
    publishes the same ranking and leaves the store exactly as the first
    run left it: adjusted scores and ratings are functions of the raw
    scores and the stored indices alone. *)
Theorem generate_rankings_table_idempotent (INVALID_RATING : Q) (d : db) :
  NoDup (map sr_round_id (scores d)) ->
  (forall s, In s (scores d) ->
             Py.index (q_difficulty_indices d) (sr_course_id s - 1) <> None) ->
  exists sheet d',
    run (generate_rankings_table INVALID_RATING) no_faults d = (Ok sheet, d')
    /\ run (generate_rankings_table INVALID_RATING) no_faults d' = (Ok sheet, d').
Proof.
  intros Hnd Hknown.
  rewrite (generate_rankings_table_run INVALID_RATING d Hknown). cbv zeta.
  set (d1 := q_update_adjusted_scores _ d).
  assert (E1 : scores d1 =
               map (fun s =>
                      set_sr_adjusted_score
                        (snd (readjusted (q_difficulty_indices d)
                                (sr_round_id s, sr_course_id s, sr_score s,
                                 sr_adjusted_score s))) s)
                   (scores d))
    by (apply q_update_adjusted_scores_scores; exact Hnd).
  assert (Hc1 : courses d1 = courses d) by reflexivity.
  assert (Hp1 : players d1 = players d) by reflexivity.
  assert (Hnd1 : NoDup (map sr_round_id (scores d1))).
  { rewrite E1, map_map. erewrite map_ext; [exact Hnd|]. intro s. now destruct s. }
  destruct (replayed_store INVALID_RATING d1 Hnd1) as (_ & Hc2 & _ & Hs2 & Hhist).
  pose proof (update_player_ratings_players INVALID_RATING d1) as Hpl2.
  pose proof (adjusted_after_ratings INVALID_RATING d1) as Hadj2.
  set (d2 := snd (run (update_player_ratings INVALID_RATING) no_faults d1)) in *.
  assert (Hidx : q_difficulty_indices d2 = q_difficulty_indices d)
    by (unfold q_difficulty_indices; now rewrite Hc2, Hc1).
  assert (Hnd2 : NoDup (map sr_round_id (scores d2))).
  { replace (map sr_round_id (scores d2))
      with (map sr_round_id (map forget_rating (scores d2)))
      by (rewrite map_map; apply map_ext; intro s; now destruct s).
    rewrite Hs2, map_map. erewrite map_ext; [exact Hnd1|].
    intro s. now destruct s. }
  assert (Hsame : Forall (fun s =>
                    sr_adjusted_score s =
                    snd (readjusted (q_difficulty_indices d)
                           (sr_round_id s, sr_course_id s, sr_score s,
                            sr_adjusted_score s))
                    /\ Py.index (q_difficulty_indices d) (sr_course_id s - 1)
                       <> None)
                   (scores d2)).
  { apply (Forall_forget_rating _ (scores d1)); [|exact Hs2|].
    - intro s. now destruct s.
    - rewrite E1, Forall_map. apply Forall_forall. intros s Hs.
      split; [now destruct s|]. specialize (Hknown s Hs). now destruct s. }
  assert (Hagain : snd (run (update_player_ratings INVALID_RATING) no_faults d2)
                   = d2).
  { apply ratings_again; [exact Hnd2|exact Hhist|].
    intros p' Hin Hne. rewrite Hpl2 in Hin.
    apply in_map_iff in Hin as (p & <- & Hp).
    destruct (q_player_adjusted_scores (pl_discord_id p) d1) as [|x l] eqn:E.
    - exfalso. apply Hne. now rewrite Hadj2, E.
    - cbn [pl_discord_id pl_rating set_pl_rating]. now rewrite Hadj2, E. }
  do 2 eexists. split; [reflexivity|].
  rewrite generate_rankings_table_run.
  - cbv zeta. rewrite Hidx, <- Hidx. rewrite adjusted_again.
    + now rewrite Hagain.
    + exact Hnd2.
    + rewrite Hidx. eapply Forall_impl; [|exact Hsame]. now intros s [H _].
  - intros s Hs. rewrite Hidx. rewrite Forall_forall in Hsame.
    now apply (Hsame s Hs).
Qed.

Lemma generate_rankings_table_idempotent_witness :
  exists sheet d',
    run (generate_rankings_table 1000) no_faults Sample.league = (Ok sheet, d')
    /\ run (generate_rankings_table 1000) no_faults d' = (Ok sheet, d').
Proof.
  apply (generate_rankings_table_idempotent 1000 Sample.league).
  - vm_compute. repeat constructor; simpl; intuition discriminate.
  - intros s Hs.
    assert (Hc : sr_course_id s = 1%Z \/ sr_course_id s = 2%Z).
    { vm_compute in Hs. intuition (subst; auto). }
    destruct Hc as [E|E]; rewrite E; discriminate.
Defined.

(* ------------------------------------------------------------------ *)
(** ** Verification and the ranking job *)

Lemma q_upsert_player_others (pid : Z) (name : string) (r : Q) (d : db)
      (pl : player_row) :
  In pl (players (q_upsert_player pid name r d)) ->
  pl_discord_id pl <> pid -> In pl (players d).
Proof.
  unfold q_upsert_player.
  destruct (existsb _ (players d)); cbn [players with_players]; intros Hin Hne.
  - apply in_map_iff in Hin as (p0 & <- & Hp0).
    destruct (Z.eqb_spec (pl_discord_id p0) pid) as [E|_]; [|exact Hp0].
    exfalso. apply Hne. now destruct p0.
  - apply in_app_iff in Hin as [Hin|[<-|[]]]; [exact Hin|].
    exfalso. now apply Hne.
Qed.

(** X20. Verification and the ranking job agree.  Take a store in which
    every adjusted score is the score minus the stored index of its course,
    every listed player with rounds carries the rating of their adjusted
    scores, and the round ids are distinct and below the next one.  After a
    verification that goes through, a run of [generate_rankings_table]
    without storage failure returns and leaves the players table exactly as
    the verification left it; it changes no pending row and no column of the
    scores other than ratings. *)
Theorem verify_score_agrees_with_rankings (INVALID_RATING : Q) (d : db)
        (hash : string) (p : pending_row) (difficulty_index : Q) :
  hd_error (q_pending_round hash d) = Some p ->
  index_or_raise (q_difficulty_indices d) (pr_course_id p - 1)
  = Ok difficulty_index ->
  NoDup (map sr_round_id (scores d)) ->
  (forall s, In s (scores d) -> (sr_round_id s < next_round_id d)%Z) ->
  (forall s, In s (scores d) ->
     exists index,
       Py.index (q_difficulty_indices d) (sr_course_id s - 1) = Some index
       /\ sr_adjusted_score s = inject_Z (sr_score s) - index) ->
  (forall pl, In pl (players d) ->
     q_player_adjusted_scores (pl_discord_id pl) d <> [] ->
     pl_rating pl = calculate_player_rating INVALID_RATING
                      (q_player_adjusted_scores (pl_discord_id pl) d)) ->
  exists d1 sheet d2,
    run (verify_score INVALID_RATING true hash) no_faults d
      = (Ok (Submitted hash), d1)
    /\ run (generate_rankings_table INVALID_RATING) no_faults d1 = (Ok sheet, d2)
    /\ players d2 = players d1
    /\ pending_scores d2 = pending_scores d1
    /\ map forget_rating (scores d2) = map forget_rating (scores d1).
Proof.
  intros Hp Hidx Hnd Hbelow Hadj Hpl.
  destruct (q_pending_round_nonempty hash d p Hp) as (Hne & _ & _).
  rewrite verify_score_run. unfold no_faults. cbn [orb].
  rewrite Hne, Hp, Hidx. cbv zeta.
  set (adj := inject_Z (pr_score p) - difficulty_index).
  set (d1 := q_insert_score _ _ _ _ _ _ d).
  set (d2 := q_delete_pending hash d1).
  set (rating := calculate_player_rating INVALID_RATING
                   (q_player_adjusted_scores (pr_player_id p) d2)).
  set (d3 := q_update_rating rating (pr_player_id p) (pr_timestamp p) d2).
  set (d4 := q_upsert_player (pr_player_id p) (pr_player_name p) rating d3).
  set (new := ScoreRow (next_round_id d) (pr_timestamp p) (pr_course_id p)
                (pr_player_id p) (pr_character p) (pr_score p) adj None).
  set (h := fun r => if ((sr_player_id r =? pr_player_id p)
                         && (sr_timestamp r =? pr_timestamp p))%Z
                     then set_sr_rating rating r else r).
  assert (Hh : forall r, forget_rating (h r) = forget_rating r).
  { intro r. unfold h. now destruct (_ && _); destruct r. }
  assert (Hs4 : scores d4 = map h (scores d ++ [new])).
  { unfold d4, q_upsert_player. now destruct (existsb _ _). }
  assert (Hc4 : courses d4 = courses d).
  { unfold d4, q_upsert_player. now destruct (existsb _ _). }
  assert (Hi4 : q_difficulty_indices d4 = q_difficulty_indices d)
    by (unfold q_difficulty_indices; now rewrite Hc4).
  assert (Hnd4 : NoDup (map sr_round_id (scores d4))).
  { rewrite Hs4, map_map.
    assert (Hid : forall r, sr_round_id (h r) = sr_round_id r)
      by (intro r; unfold h; destruct (_ && _); destruct r; reflexivity).
    rewrite (map_ext _ _ Hid), map_app. cbn [map sr_round_id new].
    apply NoDup_app; [exact Hnd|repeat constructor; intros []|].
    intros x Hx [<-|[]]. apply in_map_iff in Hx as (s & E & Hs).
    specialize (Hbelow s Hs). lia. }
  assert (Hadj4 : forall s, In s (scores d4) ->
             exists index,
               Py.index (q_difficulty_indices d) (sr_course_id s - 1) = Some index
               /\ sr_adjusted_score s = inject_Z (sr_score s) - index).
  { intros s' Hs'. rewrite Hs4 in Hs'. apply in_map_iff in Hs' as (s & <- & Hs).
    assert (H0 : exists index,
               Py.index (q_difficulty_indices d) (sr_course_id s - 1) = Some index
               /\ sr_adjusted_score s = inject_Z (sr_score s) - index).
    { apply in_app_iff in Hs as [Hs|[<-|[]]]; [now apply Hadj|].
      exists difficulty_index. split; [|reflexivity].
      cbn [sr_course_id new]. unfold index_or_raise in Hidx.
      destruct (Py.index (q_difficulty_indices d) (pr_course_id p - 1));
        [now injection Hidx as ->|discriminate]. }
    destruct H0 as (index & Hi & Ha). exists index.
    unfold h. now destruct (_ && _); destruct s. }
  assert (Hknown4 : forall s, In s (scores d4) ->
             Py.index (q_difficulty_indices d4) (sr_course_id s - 1) <> None).
  { intros s Hs. destruct (Hadj4 s Hs) as (index & Hi & _).
    rewrite Hi4, Hi. discriminate. }
  assert (Hq4 : forall pid,
             q_player_adjusted_scores pid d4 = q_player_adjusted_scores pid d2).
  { intro pid. transitivity (q_player_adjusted_scores pid d3).
    - unfold q_player_adjusted_scores. now rewrite Hs4.
    - apply q_update_rating_adjusted. }
  exists d4.
  pose proof (generate_rankings_table_run INVALID_RATING d4 Hknown4) as Hrun.
  cbv zeta in Hrun.
  rewrite adjusted_again in Hrun; [|exact Hnd4|].
  2:{ apply Forall_forall. intros s Hs. destruct (Hadj4 s Hs) as (index & Hi & Ha).
      rewrite Hi4. cbn [readjusted snd]. now rewrite Hi. }
  destruct (replayed_store INVALID_RATING d4 Hnd4) as (Hp5 & _ & _ & Hs5 & _).
  pose proof (update_player_ratings_players INVALID_RATING d4) as Hpl5.
  set (d5 := snd (run (update_player_ratings INVALID_RATING) no_faults d4)) in *.
  do 2 eexists. split; [reflexivity|]. split; [exact Hrun|].
  split; [|split; [exact Hp5|exact Hs5]].
  rewrite Hpl5. apply map_fixed. intros pl Hin.
  destruct (q_player_adjusted_scores (pl_discord_id pl) d4) as [|x l] eqn:E;
    [reflexivity|].
  rewrite <- E.
  destruct (Z.eq_dec (pl_discord_id pl) (pr_player_id p)) as [Eid|Hother].
  - destruct (q_upsert_player_has (pr_player_id p) (pr_player_name p) rating d3)
      as [_ Hall].
    rewrite Eid, Hq4. fold rating. rewrite <- (Hall pl Hin Eid). now destruct pl.
  - apply q_upsert_player_others in Hin; [|exact Hother].
    assert (Hsame : q_player_adjusted_scores (pl_discord_id pl) d4
                    = q_player_adjusted_scores (pl_discord_id pl) d).
    { rewrite Hq4. unfold q_player_adjusted_scores, d2, d1.
      cbn [scores q_delete_pending with_pending q_insert_score].
      rewrite filter_app. cbn [filter sr_player_id].
      destruct (Z.eqb_spec (pr_player_id p) (pl_discord_id pl)) as [E'|_];
        [congruence|]. now rewrite app_nil_r. }
    rewrite Hsame. rewrite <- (Hpl pl Hin); [now destruct pl|].
    rewrite <- Hsame, E. discriminate.
Qed.

Lemma verify_score_agrees_with_rankings_witness :
  exists d1 sheet d2,
    run (verify_score 1000 true Sample.round) no_faults Sample.store
      = (Ok (Submitted Sample.round), d1)
    /\ run (generate_rankings_table 1000) no_faults d1 = (Ok sheet, d2)
    /\ players d2 = players d1
    /\ pending_scores d2 = pending_scores d1
    /\ map forget_rating (scores d2) = map forget_rating (scores d1).
Proof.
  apply (verify_score_agrees_with_rankings 1000 Sample.store Sample.round
           Sample.pending (3 # 2)).
  - reflexivity.
  - reflexivity.
  - vm_compute. repeat constructor; simpl; intuition discriminate.
  - intros s Hs. vm_compute in Hs. intuition (subst; reflexivity).
  - intros s Hs. vm_compute in Hs.
    repeat (destruct Hs as [<-|Hs]; [eexists; split; reflexivity|]).
    contradiction.
  - intros pl Hin _. vm_compute in Hin. destruct Hin as [<-|[]]. reflexivity.
Defined.

(* ------------------------------------------------------------------ *)
(** ** The script: when the loop ends *)

Lemma rounds_on_le (d : db) (player_id course_id : Z) :
  (rounds_on d player_id course_id <= length (scores d))%nat.
Proof. unfold rounds_on. apply filter_length_le. Qed.

Lemma no_scores_beyond (n : nat) (d : db) :
  courses d <> [] -> (length (scores d) < n)%nat -> q_scores_with n d = [].
Proof.
  intros Hne Hn. unfold q_scores_with. rewrite filter_none; [reflexivity|].
  intros s _. apply not_true_is_false. intro H.
  apply existsb_exists in H as (p & _ & H). apply andb_true_iff in H as [_ H].
  unfold eligible_with in H.
  rewrite filter_none in H.
  - simpl in H. destruct (courses d); [contradiction|discriminate].
  - intros c _. apply Nat.leb_gt.
    pose proof (rounds_on_le d (pl_discord_id p) (co_course_id c)). lia.
Qed.

Lemma all_scores_without_courses (n : nat) (d : db) (s : score_row)
      (p : player_row) :
  courses d = [] -> In s (scores d) -> In p (players d) ->
  pl_discord_id p = sr_player_id s ->
  q_scores_with n d <> [].
Proof.
  intros Hc Hs Hp Hid E. unfold q_scores_with in E. apply map_eq_nil in E.
  assert (Hin : In s (filter (fun s0 =>
                 existsb (fun p0 => (pl_discord_id p0 =? sr_player_id s0)%Z
                                    && eligible_with n d (pl_discord_id p0))
                         (players d)) (scores d))).
  { apply filter_In. split; [exact Hs|]. apply existsb_exists.
    exists p. split; [exact Hp|]. rewrite Hid, Z.eqb_refl.
    unfold eligible_with. now rewrite Hc. }
  rewrite E in Hin. contradiction.
Qed.

Section ScriptFacts.
Variables COURSES NINES : list string.

Lemma scores_script_turn (fuel n : nat) (printed : list report) (w : world) :
  scores_script COURSES NINES (S fuel) n printed w =
  let w1 := World (store w) (S (calls w)) (faults w) in
  if faults w (calls w) then (Raise StorageError, w1)
  else
    match q_scores_with n (store w) with
    | [] => (Ok (Some printed), w1)
    | row :: rows =>
        match script_report COURSES NINES n (row :: rows) with
        | Raise e => (Raise e, w1)
        | Ok r => scores_script COURSES NINES fuel (S n) (printed ++ [r]) w1
        end
    end.
Proof.
  cbn [scores_script]. unfold bind, select, db_call, lift, ret. cbv zeta.
  destruct (faults w (calls w)); [reflexivity|].
  destruct (q_scores_with n (store w)) as [|row rows]; [reflexivity|].
  now destruct (script_report COURSES NINES n (row :: rows)).
Qed.

Lemma scores_script_ends (k : nat) :
  forall (n : nat) (printed : list report) (w : world),
    courses (store w) <> [] ->
    (length (scores (store w)) + 1 <= n + k)%nat ->
    match fst (scores_script COURSES NINES (S k) n printed w) with
    | Ok None => False
    | Ok (Some reports) =>
        (length reports <= length printed + k)%nat
        /\ map rp_required_scores reports
           = map rp_required_scores printed
             ++ seq n (length reports - length printed)
    | Raise _ => True
    end.
Proof.
  induction k as [|k IH]; intros n printed w Hne Hn;
    rewrite scores_script_turn; cbv zeta.
  - destruct (faults w (calls w)); [exact I|].
    rewrite no_scores_beyond by (try assumption; lia). cbn [fst].
    split; [lia|]. rewrite Nat.sub_diag. cbn [seq]. now rewrite app_nil_r.
  - destruct (faults w (calls w)); [exact I|].
    destruct (q_scores_with n (store w)) as [|row rows] eqn:Eq.
    + cbn [fst]. split; [lia|].
      rewrite Nat.sub_diag. cbn [seq]. now rewrite app_nil_r.
    + destruct (script_report COURSES NINES n (row :: rows)) as [r|e] eqn:Er;
        [|exact I].
      specialize (IH (S n) (printed ++ [r])
                     (World (store w) (S (calls w)) (faults w)) Hne).
      cbn [store] in IH. specialize (IH ltac:(lia)).
      destruct (fst (scores_script COURSES NINES (S k) (S n) (printed ++ [r])
                       (World (store w) (S (calls w)) (faults w))))
        as [[reports|]|e]; [|exact IH|exact I].
      destruct IH as [Hlen Hmap]. rewrite length_app in Hlen. cbn [length] in Hlen.
      split; [lia|].
      rewrite Hmap, map_app, length_app, <- app_assoc. cbn [map length app].
      f_equal.
      assert (Hr : rp_required_scores r = n).
      { unfold script_report in Er.
        destruct (calculate_average_scores _ _); [|discriminate]. cbn [rbind] in Er.
        destruct (py_div _ _); [|discriminate]. cbn [rbind] in Er.
        destruct (mapM _ _); [|discriminate]. cbn [rbind] in Er.
        now injection Er as <-. }
      rewrite Hr.
      destruct (Nat.le_gt_cases (length printed + 1) (length reports)) as [Hle|Hgt].
      * replace (length reports - length printed)%nat
          with (S (length reports - (length printed + 1)))%nat by lia.
        reflexivity.
      * exfalso. apply (f_equal (@length _)) in Hmap.
        rewrite !length_map, length_app, length_map, length_app, length_seq in Hmap.
        cbn [length] in Hmap. lia.
Qed.

Lemma scores_script_runs_on (fuel : nat) :
  forall (n : nat) (printed : list report) (w : world) (s : score_row)
         (p : player_row),
    courses (store w) = [] -> In s (scores (store w)) ->
    In p (players (store w)) -> pl_discord_id p = sr_player_id s ->
    forall reports,
      fst (scores_script COURSES NINES fuel n printed w) <> Ok (Some reports).
Proof.
  induction fuel as [|fuel IH]; intros n printed w s p Hc Hs Hp Hid reports.
  - cbn. discriminate.
  - rewrite scores_script_turn. cbv zeta.
    destruct (faults w (calls w)); [cbn; discriminate|].
    pose proof (all_scores_without_courses n (store w) s p Hc Hs Hp Hid) as Hq.
    destruct (q_scores_with n (store w)) as [|row rows]; [contradiction|].
    destruct (script_report COURSES NINES n (row :: rows)) as [r|e];
      [|cbn; discriminate].
    apply (IH (S n) (printed ++ [r])
              (World (store w) (S (calls w)) (faults w)) s p); assumption.
Qed.

End ScriptFacts.

(** X21. When the script's loop ends.  With at least one row in the courses
    table the loop is over after at most as many turns as there are scores,
    plus one, whatever the storage does: it has left through [break] or an
    exception has ended it; what it has printed by then is one report per
    turn, for 1, 2, 3, ... required scores, at most as many as there are
    scores.  With no row in the courses table and a score of a listed player,
    every listed player passes the query for every number of required
    scores, and the loop never leaves through [break]. *)
Theorem scores_script_termination (COURSES NINES : list string) (d : db)
        (f : nat -> bool) :
  (courses d <> [] ->
   match fst (run (scores_script COURSES NINES (length (scores d) + 1) 1 []) f d)
   with
   | Ok None => False
   | Ok (Some reports) =>
       (length reports <= length (scores d))%nat
       /\ map rp_required_scores reports = seq 1 (length reports)
   | Raise _ => True
   end)
  /\
  (courses d = [] ->
   (exists s p, In s (scores d) /\ In p (players d)
                /\ pl_discord_id p = sr_player_id s) ->
   forall fuel reports,
     fst (run (scores_script COURSES NINES fuel 1 []) f d) <> Ok (Some reports)).
Proof.
  split.
  - intro Hne.
    pose proof (scores_script_ends COURSES NINES (length (scores d)) 1 []
                  (World d 0 f) Hne) as H.
    cbn [store length] in H. specialize (H ltac:(lia)).
    unfold run. rewrite Nat.add_1_r.
    destruct (scores_script COURSES NINES (S (length (scores d))) 1 []
                (World d 0 f)) as [r w].
    cbn [fst] in *. destruct r as [[reports|]|e]; [|exact H|exact I].
    cbn [map app length] in H. now rewrite Nat.sub_0_r in H.
  - intros Hc (s & p & Hs & Hp & Hid) fuel reports.
    pose proof (scores_script_runs_on COURSES NINES fuel 1 [] (World d 0 f) s p
                  Hc Hs Hp Hid reports) as H.
    unfold run.
    destruct (scores_script COURSES NINES fuel 1 [] (World d 0 f)) as [r w].
    exact H.
Qed.

Lemma scores_script_termination_witness :
  match fst (run (scores_script ["Toad Highlands"]%string
                    ["Front"; "Back"]%string
                    (length (scores Sample.league) + 1) 1 [])
                 no_faults Sample.league)
  with
  | Ok None => False
  | Ok (Some reports) =>
      (length reports <= length (scores Sample.league))%nat
      /\ map rp_required_scores reports = seq 1 (length reports)
  | Raise _ => True
  end
  /\
  forall fuel reports,
    fst (run (scores_script [] [] fuel 1 []) no_faults
             (with_courses Sample.league [])) <> Ok (Some reports).
Proof.
  split.
  - apply (proj1 (scores_script_termination ["Toad Highlands"]%string
                    ["Front"; "Back"]%string Sample.league no_faults)).
    discriminate.
  - apply (proj2 (scores_script_termination [] [] (with_courses Sample.league [])
                    no_faults)).
    + reflexivity.
    + exists (ScoreRow 17 5 1 9 "Luigi" 4 4 None), (PlayerRow 9 "bob" 1000).
      split; [|split; [|reflexivity]].
      * vm_compute. tauto.
      * vm_compute. tauto.
Defined.

(* ------------------------------------------------------------------ *)
(** ** The tables posted on request *)

Lemma sorted_apart {A} (R : A -> A -> Prop) (l1 l2 : list A) :
  StronglySorted R (l1 ++ l2) ->
  forall x y, In x l1 -> In y l2 -> R x y.
Proof.
  induction l1 as [|a t IH]; intros Hs x y Hx Hy; [contradiction|].
  simpl in Hs. inversion Hs as [|? ? Hs' Ha]; subst.
  destruct Hx as [->|Hx]; [|now apply IH].
  rewrite Forall_forall in Ha. apply Ha. apply in_or_app. now right.
Qed.

Lemma sort_by_rating_sorted (l : list (string * Q)) :
  StronglySorted (fun x y => snd x <= snd y) (Py.sort_by Qlt_bool snd l).
Proof.
  pose proof (sort_by_sorted Qlt_bool (@snd string Q) Qlt_bool_asym
                Qlt_bool_trans l) as H.
  induction H as [|x t Hs IH Hx]; constructor; [exact IH|].
  eapply Forall_impl; [|exact Hx]. intros y Hy.
  now apply Qlt_bool_false_iff.
Qed.

(** X22. [get_top_10_table] shows the first ten rows of the ranking that
    [generate_rankings_table] publishes from the same players table, the
    ratings to two decimals.  It never changes the store; if the players
    cannot be read nothing is answered; if no player is rated it says so.
    No rated player left out of the table has a lower rating than one in
    it. *)
Theorem get_top_10_table_rows (INVALID_RATING : Q) (two_decimals : Q -> string)
        (f : nat -> bool) (d : db) :
  let sheet := rankings_sheet INVALID_RATING (players d) in
  run (get_top_10_table INVALID_RATING two_decimals) f d =
  (Ok (if f 0%nat then NoAnswer
       else match sheet with
            | [] => NoRankedPlayers
            | _ :: _ =>
                RankingTable
                  (map (fun row => (fst (fst row), snd (fst row),
                                    two_decimals (snd row)))
                       (firstn 10 sheet))
            end), d)
  /\ (length (firstn 10 sheet) = Nat.min 10 (length sheet))
  /\ forall listed unlisted,
       In listed (firstn 10 sheet) -> In unlisted (skipn 10 sheet) ->
       snd listed <= snd unlisted.
Proof.
  cbv zeta. split; [|split].
  - unfold run, get_top_10_table, bind, catch, select, db_call, ret.
    cbn [store calls faults]. destruct (f 0%nat); [reflexivity|].
    cbn [store calls faults]. unfold rankings_sheet, rated_players.
    set (rated := map _ (filter _ (players d))).
    assert (Hnil : Py.sort_by Qlt_bool snd rated = [] <-> rated = []).
    { split; intro H; [|now rewrite H].
      apply (f_equal (@length _)) in H. rewrite sort_by_length in H.
      now destruct rated. }
    destruct rated as [|x rest] eqn:Er.
    + reflexivity.
    + rewrite <- Er in *.
      destruct (Py.sort_by Qlt_bool snd rated) as [|y more] eqn:Es.
      * exfalso. destruct Hnil as [H _]. specialize (H eq_refl). congruence.
      * cbn [store]. do 2 f_equal.
        rewrite <- firstn_map, map_map. reflexivity.
  - apply length_firstn.
  - intros listed unlisted Hl Hu.
    assert (Hs : StronglySorted (fun x y : nat * string * Q => snd x <= snd y)
                   (rankings_sheet INVALID_RATING (players d))).
    { unfold rankings_sheet.
      set (sorted := Py.sort_by Qlt_bool snd _).
      pose proof (sort_by_rating_sorted
                    (rated_players INVALID_RATING (players d))) as H.
      fold sorted in H.
      assert (Hgen : forall start,
                 StronglySorted (fun x y : nat * string * Q => snd x <= snd y)
                   (map (fun x : nat * (string * Q) =>
                           (fst x, fst (snd x), snd (snd x)))
                        (combine (seq start (length sorted)) sorted))).
      { induction H as [|x t Hst IH Hx]; intro start; cbn; constructor.
        - apply IH.
        - rewrite Forall_map, Forall_forall. intros [n y] Hy.
          cbn [fst snd]. rewrite Forall_forall in Hx. apply Hx.
          apply in_combine_r in Hy. exact Hy. }
      apply Hgen. }
    rewrite <- (firstn_skipn 10 (rankings_sheet INVALID_RATING (players d))) in Hs.
    now apply (sorted_apart _ _ _ Hs).
Qed.

Lemma mapM_index_error {A B} (g : A -> result B) (l : list A) (x : A) :
  (forall y e, g y = Raise e -> e = IndexError) ->
  In x l -> g x = Raise IndexError -> mapM g l = Raise IndexError.
Proof.
  intros Hall Hin Hx. apply mapM_raise.
  - intros y e _. apply Hall.
  - now exists x.
Qed.

(** X23. The table of [get_difficulty_indices_table] against the sheet of
    [generate_difficulty_indices_sheet].  With at least two rows in the
    courses table per course of [COURSES] and no storage failure, both
    return without changing the store, and the table shows, course by
    course, the course's name and the two indices of the sheet's row, to two
    decimals.  The command reads the indices through
    [get_difficulty_indices], which answers a failed read with the empty
    list: with a course in [COURSES], a failed read comes out of the command
    as [IndexError]. *)
Theorem difficulty_indices_table_agrees (COURSES : list string)
        (two_decimals : Q -> string) (d : db) :
  ((2 * length COURSES <= length (courses d))%nat ->
   exists table sheet,
     run (get_difficulty_indices_table COURSES two_decimals) no_faults d
       = (Ok table, d)
     /\ run (generate_difficulty_indices_sheet COURSES) no_faults d
        = (Ok sheet, d)
     /\ length table = length COURSES
     /\ forall ci course,
          nth_error COURSES ci = Some course ->
          exists front_index back_index,
            nth_error sheet ci = Some [front_index; back_index]
            /\ nth_error table ci
               = Some (course, two_decimals front_index,
                       two_decimals back_index))
  /\
  (COURSES <> [] ->
   forall f, f 0%nat = true ->
   run (get_difficulty_indices_table COURSES two_decimals) f d
   = (Raise IndexError, d)).
Proof.
  split.
  - intro Hrows.
    set (ix := fun i : nat => nth i (q_difficulty_indices d) 0).
    set (name := fun i : nat => nth i COURSES EmptyString).
    assert (Hlen : length (q_difficulty_indices d) = length (courses d))
      by (unfold q_difficulty_indices; now rewrite length_map, sort_by_length).
    assert (Hix : forall i, (i < length (courses d))%nat ->
              index_or_raise (q_difficulty_indices d) (Z.of_nat i) = Ok (ix i)).
    { intros i Hi. apply index_nth, nth_error_nth'. lia. }
    assert (Hname : forall i, (i < length COURSES)%nat ->
              index_or_raise COURSES (Z.of_nat i) = Ok (name i)).
    { intros i Hi. apply index_nth, nth_error_nth'. lia. }
    exists (map (fun ci => (name ci, two_decimals (ix (ci * 2)%nat),
                            two_decimals (ix (ci * 2 + 1)%nat)))
                (seq 0 (length COURSES))),
           (map (fun ci => [ix (ci * 2)%nat; ix (ci * 2 + 1)%nat])
                (seq 0 (length COURSES))).
    split; [|split; [|split]].
    + unfold run, get_difficulty_indices_table, get_difficulty_indices, bind,
        catch, select, db_call, lift, no_faults. cbn [store calls faults].
      rewrite (mapM_ok _ (fun ci => (name ci, two_decimals (ix (ci * 2)%nat),
                                     two_decimals (ix (ci * 2 + 1)%nat))));
        [reflexivity|].
      intros ci Hci. apply in_seq in Hci.
      replace (Z.of_nat ci * 2)%Z with (Z.of_nat (ci * 2)) by lia.
      replace (Z.of_nat (ci * 2) + 1)%Z with (Z.of_nat (ci * 2 + 1)) by lia.
      rewrite Hname, !Hix by lia. reflexivity.
    + unfold run, generate_difficulty_indices_sheet, bind, select, db_call, lift,
        no_faults. cbn [store calls faults].
      rewrite (mapM_ok _ (fun ci => [ix (ci * 2)%nat; ix (ci * 2 + 1)%nat]));
        [reflexivity|].
      intros ci Hci. apply in_seq in Hci.
      replace (Z.of_nat ci * 2)%Z with (Z.of_nat (ci * 2)) by lia.
      replace (Z.of_nat (ci * 2) + 1)%Z with (Z.of_nat (ci * 2 + 1)) by lia.
      rewrite !Hix by lia. reflexivity.
    + now rewrite length_map, length_seq.
    + intros ci course Hc.
      assert (Hci : (ci < length COURSES)%nat)
        by (apply nth_error_Some; congruence).
      exists (ix (ci * 2)%nat), (ix (ci * 2 + 1)%nat).
      rewrite !nth_error_map, nth_error_seq.
      apply Nat.ltb_lt in Hci. rewrite Hci. cbn [option_map Nat.add].
      split; [reflexivity|]. do 3 f_equal. unfold name.
      now apply nth_error_nth.
  - intros Hne f Hf.
    unfold run, get_difficulty_indices_table, get_difficulty_indices, bind,
      catch, select, db_call, lift, ret. cbn [store calls faults]. rewrite Hf.
    cbn [store calls faults].
    rewrite (mapM_index_error _ _ 0%nat); [reflexivity| | |].
    + intros ci e.
      destruct (index_or_raise COURSES (Z.of_nat ci)) as [c|e0] eqn:E0;
        cbn [rbind].
      * replace (Z.of_nat ci * 2)%Z with (Z.of_nat (ci * 2)) by lia.
        rewrite (index_out_of_range (@nil Q) (ci * 2)%nat) by (cbn; lia).
        cbn [rbind]. congruence.
      * unfold index_or_raise in E0. destruct (Py.index _ _); [discriminate|].
        congruence.
    + apply in_seq. destruct COURSES; [contradiction|]. cbn [length]. lia.
    + destruct COURSES as [|c cs]; [contradiction|]. reflexivity.
Qed.

Lemma difficulty_indices_table_agrees_witness :
  (exists table sheet,
     run (get_difficulty_indices_table ["Toad Highlands"]%string
            (fun _ => "0.00"%string)) no_faults Sample.store = (Ok table, Sample.store)
     /\ run (generate_difficulty_indices_sheet ["Toad Highlands"]%string)
            no_faults Sample.store = (Ok sheet, Sample.store)
     /\ length table = 1%nat
     /\ nth_error sheet 0 = Some [0; 3 # 2])
  /\
  run (get_difficulty_indices_table ["Toad Highlands"]%string
         (fun _ => "0.00"%string)) (fault_at 0) Sample.store
  = (Raise IndexError, Sample.store).
Proof.
  split.
  - destruct (proj1 (difficulty_indices_table_agrees ["Toad Highlands"]%string
                       (fun _ => "0.00"%string) Sample.store))
      as (table & sheet & Ht & Hs & Hl & Hrows).
    + cbn. lia.
    + exists table, sheet. split; [exact Ht|]. split; [exact Hs|].
      split; [exact Hl|].
      assert (H : run (generate_difficulty_indices_sheet ["Toad Highlands"]%string)
                      no_faults Sample.store
                  = (Ok [[0; 3 # 2]], Sample.store)) by reflexivity.
      rewrite Hs in H. injection H as ->. reflexivity.
  - apply (proj2 (difficulty_indices_table_agrees ["Toad Highlands"]%string
                    (fun _ => "0.00"%string) Sample.store)).
    + discriminate.
    + reflexivity.
Defined.

(* ------------------------------------------------------------------ *)
(** ** The profile *)

Lemma Zgtb_asym (a b : Z) : (a >? b)%Z = true -> (b >? a)%Z = false.
Proof. rewrite !Z.gtb_ltb. intro H. apply Z.ltb_lt in H. apply Z.ltb_ge. lia. Qed.

Lemma Zgtb_trans (a b c : Z) :
  (b >? a)%Z = false -> (c >? b)%Z = false -> (c >? a)%Z = false.
Proof. rewrite !Z.gtb_ltb, !Z.ltb_ge. lia. Qed.

Lemma Qgt_bool_asym (a b : Q) : Qlt_bool b a = true -> Qlt_bool a b = false.
Proof. apply Qlt_bool_asym. Qed.

Lemma Qgt_bool_trans (a b c : Q) :
  Qlt_bool a b = false -> Qlt_bool b c = false -> Qlt_bool a c = false.
Proof. intros H1 H2. exact (Qlt_bool_trans c b a H2 H1). Qed.

(** Dictionaries keyed by strings. *)
Section StringKeys.
Context {V : Type}.
Implicit Types (d : Py.dict string V) (k : string) (f : option V -> V).

Lemma get_upd_string d k k' f :
  Py.get String.eqb (Py.upd String.eqb d k f) k' =
  if String.eqb k k' then Some (f (Py.get String.eqb d k))
  else Py.get String.eqb d k'.
Proof.
  induction d as [|[k0 v0] t IH]; simpl.
  - now destruct (String.eqb k k').
  - destruct (String.eqb_spec k0 k) as [->|Hne]; simpl.
    + now destruct (String.eqb k k').
    + rewrite IH. destruct (String.eqb_spec k k') as [->|Hne'].
      * destruct (String.eqb_spec k0 k'); [contradiction|reflexivity].
      * reflexivity.
Qed.

Lemma in_keys_get_string d k :
  In k (Py.keys d) <-> exists v, Py.get String.eqb d k = Some v.
Proof.
  induction d as [|[k0 v0] t IH]; simpl.
  - split; [contradiction|]. intros [v H]. discriminate.
  - destruct (String.eqb_spec k0 k) as [->|Hne].
    + split; [intros _; now exists v0|now left].
    + rewrite <- IH. split; [intros [E|H]; [contradiction|exact H]|now right].
Qed.

Lemma NoDup_keys_upd_string d k f :
  NoDup (Py.keys d) -> NoDup (Py.keys (Py.upd String.eqb d k f)).
Proof.
  induction d as [|[k0 v0] t IH]; simpl; intro H.
  - repeat constructor. intros [].
  - inversion H as [|? ? Hout Hnd]; subst.
    destruct (String.eqb_spec k0 k) as [->|Hne]; simpl.
    + now constructor.
    + constructor; [|now apply IH].
      intro Hin. apply in_keys_get_string in Hin as [v Hv].
      rewrite get_upd_string in Hv.
      destruct (String.eqb_spec k k0) as [E|_]; [congruence|].
      apply Hout. apply in_keys_get_string. now exists v.
Qed.

Lemma in_dict_get_string d k (v : V) :
  NoDup (Py.keys d) -> In (k, v) d -> Py.get String.eqb d k = Some v.
Proof.
  induction d as [|[k0 v0] t IH]; simpl; intros Hnd Hin; [contradiction|].
  inversion Hnd as [|? ? Hout Hnd']; subst.
  destruct Hin as [E|Hin].
  - injection E as -> ->. now rewrite String.eqb_refl.
  - destruct (String.eqb_spec k0 k) as [->|_]; [|now apply IH].
    exfalso. apply Hout. unfold Py.keys. apply in_map_iff. now exists (k, v).
Qed.

End StringKeys.

(** The number of rows of a result with a given character. *)
Lemma character_stats_get (result : list (Z * string * Z)) (c : string) :
  NoDup (Py.keys (character_stats result))
  /\ Py.get String.eqb (character_stats result) c =
     match length (filter (fun r => String.eqb (snd (fst r)) c) result) with
     | O => None
     | S n => Some (S n)
     end.
Proof.
  unfold character_stats.
  set (step := fun (stats : Py.dict string nat) (row : Z * string * Z) =>
                 let '(_, character, _) := row in
                 Py.upd String.eqb stats character
                   (fun o => (match o with Some n => n | None => O end + 1)%nat)).
  assert (H : forall l st0,
             NoDup (Py.keys st0) ->
             NoDup (Py.keys (fold_left step l st0))
             /\ Py.get String.eqb (fold_left step l st0) c =
                match length (filter (fun r => String.eqb (snd (fst r)) c) l),
                      Py.get String.eqb st0 c with
                | O, o => o
                | S n, Some m => Some (m + S n)%nat
                | S n, None => Some (S n)
                end).
  { induction l as [|[[cid ch] sc] t IH]; intros st0 Hnd.
    - split; [exact Hnd|]. cbn. now destruct (Py.get String.eqb st0 c).
    - cbn [fold_left]. destruct (IH (step st0 (cid, ch, sc))) as [IH1 IH2].
      { unfold step. now apply NoDup_keys_upd_string. }
      split; [exact IH1|].
      assert (Hstep : Py.get String.eqb (step st0 (cid, ch, sc)) c =
                      if String.eqb ch c
                      then Some (match Py.get String.eqb st0 ch with
                                 | Some n => n
                                 | None => O
                                 end + 1)%nat
                      else Py.get String.eqb st0 c)
        by (unfold step; rewrite get_upd_string; reflexivity).
      rewrite IH2, Hstep. clear IH IH1 IH2 Hstep. cbn [filter fst snd].
      destruct (String.eqb_spec ch c) as [->|Hne]; [|reflexivity].
      cbn [length].
      destruct (length (filter (fun r => String.eqb (snd (fst r)) c) t)),
               (Py.get String.eqb st0 c); f_equal; lia. }
  destruct (H result [] (NoDup_nil _)) as [H1 H2]. split; [exact H1|].
  rewrite H2. cbn. now destruct (length _).
Qed.

Lemma upd_absent {V} (d : Py.dict Z V) (k : Z) (f g : option V -> V) :
  Py.get Z.eqb d k = None -> f None = g None ->
  Py.upd Z.eqb d k f = Py.upd Z.eqb d k g.
Proof.
  intros Hget Hfg.
  assert (Hout : ~ In k (Py.keys d)).
  { intro Hin. apply in_keys_get in Hin as [v Hv]. congruence. }
  now rewrite !upd_fresh, Hfg by exact Hout.
Qed.

Lemma scores_dict_group (result : list (Z * string * Z)) :
  scores_dict result = group (fun r => fst (fst r)) snd result [].
Proof.
  unfold scores_dict, group. apply fold_left_ext.
  intros dct [[cid ch] sc]. cbn [fst snd].
  destruct (Py.get Z.eqb dct cid) eqn:E; [reflexivity|].
  unfold Py.set, Py.append_to. now apply upd_absent.
Qed.

(** What [scores_dict] holds for a course: the player's scores on it. *)
Lemma scores_dict_get (d : db) (player_id course_id : Z) :
  Py.get Z.eqb (scores_dict (q_profile_scores player_id d)) course_id =
  match profile_scores_on d player_id course_id with
  | [] => None
  | score :: scores => Some (score :: scores)
  end.
Proof.
  rewrite scores_dict_group, get_group. cbn [Py.get].
  replace (map snd (filter (fun x : Z * string * Z => (fst (fst x) =? course_id)%Z)
                           (q_profile_scores player_id d)))
    with (profile_scores_on d player_id course_id).
  - now destruct (profile_scores_on d player_id course_id).
  - unfold q_profile_scores, profile_scores_on.
    rewrite filter_map_comm, map_map. cbn [fst snd].
    rewrite (filter_sort_by Z.gtb sr_timestamp Zgtb_asym Zgtb_trans).
    now rewrite filter_filter.
Qed.

Section ProfileFacts.
Variable INVALID_RATING : Q.
Variables COURSES NINES : list string.
Variable two_decimals : Q -> string.
Variable plus_minus : string.

Lemma average_str_ok (scores : list Z) :
  scores <> [] ->
  exists shown_average,
    average_str two_decimals plus_minus scores = Ok shown_average.
Proof.
  intro Hne. unfold average_str, py_div.
  rewrite py_len_not_zero by exact Hne. cbn [rbind]. now eexists.
Qed.

(** [average_dict] after the loop over [scores_dict]. *)
Lemma average_dict_ok (result : list (Z * string * Z)) :
  let shown_average := fun scores =>
        match average_str two_decimals plus_minus scores with
        | Ok s => s
        | Raise _ => EmptyString
        end in
  foldM (fun averages (item : Z * list Z) =>
           let '(course_id, scores) := item in
           average <~ average_str two_decimals plus_minus scores ;;
           Ok (Py.set Z.eqb averages course_id average))
        (scores_dict result) []
  = Ok (map (fun item => (fst item, shown_average (snd item)))
            (scores_dict result)).
Proof.
  cbv zeta.
  set (g := fun scores => match average_str two_decimals plus_minus scores with
                          | Ok s => s
                          | Raise _ => EmptyString
                          end).
  change (foldM _ (scores_dict result) [])
    with (foldM (fill (average_str two_decimals plus_minus))
                (scores_dict result) []).
  rewrite (foldM_fill (average_str two_decimals plus_minus) g).
  - reflexivity.
  - cbn [Py.keys map app]. rewrite scores_dict_group.
    apply NoDup_keys_group. constructor.
  - intros k v Hin.
    assert (Hv : v <> []).
    { pose proof (group_values_not_nil
                    (fun r : Z * string * Z => fst (fst r)) snd result []
                    (Forall_nil _)) as H.
      rewrite <- scores_dict_group in H. rewrite Forall_forall in H.
      apply H. unfold Py.values. apply in_map_iff. now exists (k, v). }
    destruct (average_str_ok v Hv) as [s Hs]. unfold g. now rewrite Hs.
Qed.

End ProfileFacts.

Lemma NoDup_firstn {A} (n : nat) (l : list A) : NoDup l -> NoDup (firstn n l).
Proof.
  intro H. rewrite <- (firstn_skipn n l) in H.
  now apply NoDup_app_remove_r in H.
Qed.

Lemma profile_scores_length (d : db) (player_id : Z) :
  length (q_profile_scores player_id d)
  = length (filter (fun s => (sr_player_id s =? player_id)%Z) (scores d)).
Proof. unfold q_profile_scores. now rewrite length_map, sort_by_length. Qed.

Lemma profile_scores_with (d : db) (player_id : Z) (character : string) :
  length (filter (fun r : Z * string * Z => String.eqb (snd (fst r)) character)
                 (q_profile_scores player_id d))
  = length (filter (fun s => (sr_player_id s =? player_id)%Z
                             && String.eqb (sr_character s) character)
                   (scores d)).
Proof.
  unfold q_profile_scores. rewrite filter_map_comm, length_map. cbn [fst snd].
  rewrite (filter_sort_by Z.gtb sr_timestamp Zgtb_asym Zgtb_trans).
  now rewrite sort_by_length, filter_filter.
Qed.

Lemma descending_sorted {A} (key : A -> Q) (l : list A) :
  StronglySorted (Py.in_order (fun a b => Qlt_bool b a) key) l ->
  StronglySorted (fun x y => key y <= key x) l.
Proof.
  induction 1 as [|x t Hs IH Hx]; constructor; [exact IH|].
  eapply Forall_impl; [|exact Hx]. intros y Hy.
  unfold Py.in_order in Hy. now apply Qlt_bool_false_iff in Hy.
Qed.

(** The three characters of the profile: the most used ones, with their
    shares. *)
Lemma top_characters_are_most_used (d : db) (player_id : Z) :
  let result := q_profile_scores player_id d in
  let played := fun c => exists s, In s (scores d) /\ sr_player_id s = player_id
                                   /\ sr_character s = c in
  exists percentages chars,
    character_percentages (character_stats result) (length result)
    = Ok percentages
    /\ top_characters percentages
       = map (fun c => (c, usage d player_id c)) chars
    /\ NoDup chars
    /\ (length chars <= 3)%nat
    /\ (forall c, In c chars -> played c)
    /\ (forall c, played c ->
          In c chars
          \/ (length chars = 3%nat
              /\ forall c0, In c0 chars ->
                   usage d player_id c <= usage d player_id c0)).
Proof.
  cbv zeta.
  set (result := q_profile_scores player_id d).
  set (stats := character_stats result).
  assert (Hcount : forall c k, In (c, k) stats ->
             k = length (filter (fun s => (sr_player_id s =? player_id)%Z
                                          && String.eqb (sr_character s) c)
                                (scores d))
             /\ (1 <= k)%nat).
  { intros c k Hin. destruct (character_stats_get result c) as [Hnd Hget].
    fold stats in Hnd, Hget.
    rewrite (in_dict_get_string stats c k Hnd Hin) in Hget.
    unfold result in Hget. rewrite profile_scores_with in Hget.
    destruct (length _); [discriminate|]. injection Hget as ->. split; lia. }
  assert (Hkeys : forall c,
             In c (Py.keys stats) <->
             exists s, In s (scores d) /\ sr_player_id s = player_id
                       /\ sr_character s = c).
  { intro c. rewrite in_keys_get_string.
    destruct (character_stats_get result c) as [_ Hget]. fold stats in Hget.
    rewrite Hget. unfold result. rewrite profile_scores_with.
    destruct (filter _ (scores d)) as [|s rest] eqn:EF; cbn [length].
    - split; [intros [v Hv]; discriminate|].
      intros (s & Hs & Hp & Hc). exfalso.
      assert (Hin : In s (filter (fun s => (sr_player_id s =? player_id)%Z
                                           && String.eqb (sr_character s) c)
                                 (scores d))).
      { apply filter_In. split; [exact Hs|].
        now rewrite Hp, Hc, Z.eqb_refl, String.eqb_refl. }
      rewrite EF in Hin. contradiction.
    - split; [|intros _; now eexists]. intros _.
      assert (Hin : In s (filter (fun s => (sr_player_id s =? player_id)%Z
                                           && String.eqb (sr_character s) c)
                                 (scores d))) by (rewrite EF; now left).
      apply filter_In in Hin as [Hs Hpc]. apply andb_true_iff in Hpc as [Hp Hc].
      exists s. split; [exact Hs|].
      split; [now apply Z.eqb_eq|now apply String.eqb_eq]. }
  assert (Hpct : character_percentages stats (length result)
                 = Ok (map (fun c => (c, usage d player_id c)) (Py.keys stats))).
  { unfold character_percentages, Py.keys. rewrite map_map.
    apply mapM_ok. intros [c k] Hin. cbn [fst].
    destruct (Hcount c k Hin) as [Hk Hpos].
    assert (Hres : result <> []).
    { intro E. unfold stats in Hin. rewrite E in Hin. contradiction. }
    unfold py_div. change (inject_Z (Z.of_nat (length result)))
      with (Py.len result).
    rewrite (py_len_not_zero result Hres). cbn [rbind]. unfold usage.
    unfold Py.len, result. rewrite profile_scores_length, Hk. reflexivity. }
  set (sorted := Py.sort_by (fun a b => Qlt_bool b a) (usage d player_id)
                            (Py.keys stats)).
  assert (Hperm : Permutation sorted (Py.keys stats)) by apply sort_by_perm.
  assert (Hsorted : StronglySorted
                      (fun x y => usage d player_id y <= usage d player_id x)
                      sorted).
  { apply descending_sorted.
    apply (sort_by_sorted (fun a b => Qlt_bool b a) (usage d player_id)
             Qgt_bool_asym Qgt_bool_trans). }
  exists (map (fun c => (c, usage d player_id c)) (Py.keys stats)),
         (firstn 3 sorted).
  split; [exact Hpct|]. split; [|split; [|split; [|split]]].
  - unfold top_characters.
    rewrite (sort_by_map_keys (fun a b => Qlt_bool b a) (usage d player_id) snd)
      by reflexivity.
    fold sorted. apply firstn_map.
  - apply NoDup_firstn. eapply Permutation_NoDup; [symmetry; exact Hperm|].
    apply character_stats_get. exact EmptyString.
  - rewrite length_firstn. lia.
  - intros c Hc. apply Hkeys. eapply Permutation_in; [exact Hperm|].
    rewrite <- (firstn_skipn 3 sorted). apply in_or_app. now left.
  - intros c Hplayed. apply Hkeys in Hplayed.
    eapply Permutation_in in Hplayed; [|symmetry; exact Hperm].
    rewrite <- (firstn_skipn 3 sorted) in Hplayed, Hsorted.
    apply in_app_or in Hplayed as [Hin|Hin]; [now left|right]. split.
    + rewrite length_firstn.
      assert (Hlen : (3 < length sorted)%nat).
      { destruct (Nat.le_gt_cases (length sorted) 3) as [Hle|Hgt]; [|exact Hgt].
        rewrite skipn_all2 in Hin by exact Hle. contradiction. }
      lia.
    + intros c0 Hc0. exact (sorted_apart _ _ _ Hsorted c0 c Hc0 Hin).
Qed.

Lemma combine_map_r {A B C} (h : B -> C) (l : list A) (l' : list B) :
  combine l (map h l') = map (fun x => (fst x, h (snd x))) (combine l l').
Proof.
  revert l'. induction l as [|a t IH]; intros [|b t']; simpl; [reflexivity..|].
  now rewrite IH.
Qed.

(** X24. What a profile shows.  For a player with a row in the players
    table, [NINES] having two entries and no storage failure, the command
    returns without changing the store.  It shows the player's name, and the
    rating to two decimals, or "NR" when the rating is the sentinel.  It
    lists at most three characters, each once, numbered from 1, with their
    share of the player's rounds in percent; they are characters the player
    has used, and a character the player has used is either listed or used
    no more than any of the three listed.  The table has a row per course of
    [COURSES]: the name, then for the course ids [2 ci + 1] and [2 ci + 2]
    either "--" when the player has no round on it, or the signed average of
    all the player's scores on it. *)
Theorem get_player_profile_shows (INVALID_RATING : Q)
        (COURSES NINES : list string) (two_decimals : Q -> string)
        (plus_minus : string) (request : requested) (author_id : Z) (d : db)
        (player_name : string) (player_rating : Q) :
  request <> NotDigits ->
  hd_error (q_player (match request with Digits n => n | _ => author_id end) d)
  = Some (player_name, player_rating) ->
  length NINES = 2%nat ->
  let player_id := match request with Digits n => n | _ => author_id end in
  let played := fun c => exists s, In s (scores d) /\ sr_player_id s = player_id
                                   /\ sr_character s = c in
  let cell := fun course_id shown_average =>
                match profile_scores_on d player_id course_id with
                | [] => shown_average = "--"%string
                | score :: scores =>
                    average_str two_decimals plus_minus (score :: scores)
                    = Ok shown_average
                end in
  exists chars rows,
    run (get_player_profile INVALID_RATING COURSES NINES two_decimals plus_minus
           request author_id) no_faults d
    = (Ok (Profile player_name
             (if Qeq_bool player_rating INVALID_RATING then "NR"%string
              else two_decimals player_rating)
             (map (fun x => ((fst x + 1)%nat, snd x,
                             two_decimals (usage d player_id (snd x))))
                  (combine (seq 0 (length chars)) chars))
             rows), d)
    /\ NoDup chars
    /\ (length chars <= 3)%nat
    /\ (forall c, In c chars -> played c)
    /\ (forall c, played c ->
          In c chars
          \/ (length chars = 3%nat
              /\ forall c0, In c0 chars ->
                   usage d player_id c <= usage d player_id c0))
    /\ length rows = length COURSES
    /\ forall ci course,
         nth_error COURSES ci = Some course ->
         exists front back,
           nth_error rows ci = Some [course; front; back]
           /\ cell (profile_course_id (Z.of_nat ci) 0) front
           /\ cell (profile_course_id (Z.of_nat ci) 1) back.
Proof.
  intros Hreq Hrow H2. cbv zeta.
  set (pid := match request with Digits n => n | _ => author_id end) in *.
  assert (Hsame : get_player_profile INVALID_RATING COURSES NINES two_decimals
                    plus_minus request author_id
                  = get_player_profile INVALID_RATING COURSES NINES two_decimals
                      plus_minus (Digits pid) author_id)
    by (destruct request; [reflexivity|contradiction|reflexivity]).
  rewrite Hsame. clear Hsame.
  destruct (top_characters_are_most_used d pid)
    as (percentages & chars & Hpct & Htop & Hnd & Hlen & Hplayed & Hmost).
  set (result := q_profile_scores pid d) in *.
  pose proof (average_dict_ok two_decimals plus_minus result) as Hdict.
  cbv zeta in Hdict.
  set (g := fun scores => match average_str two_decimals plus_minus scores with
                          | Ok s => s
                          | Raise _ => EmptyString
                          end) in *.
  set (average_dict := map (fun item : Z * list Z => (fst item, g (snd item)))
                           (scores_dict result)) in *.
  set (row := fun ci : nat =>
                [nth ci COURSES EmptyString;
                 shown average_dict (profile_course_id (Z.of_nat ci) 0);
                 shown average_dict (profile_course_id (Z.of_nat ci) 1)]).
  assert (Hrows : profile_rows COURSES NINES average_dict
                  = Ok (map row (seq 0 (length COURSES)))).
  { unfold profile_rows. rewrite H2. apply mapM_ok.
    intros ci Hci. apply in_seq in Hci.
    rewrite (index_nth COURSES ci (nth ci COURSES EmptyString)).
    - cbn [rbind]. now apply profile_entry.
    - apply nth_error_nth'. lia. }
  assert (Hcell : forall course_id,
             match profile_scores_on d pid course_id with
             | [] => shown average_dict course_id = "--"%string
             | score :: scores =>
                 average_str two_decimals plus_minus (score :: scores)
                 = Ok (shown average_dict course_id)
             end).
  { intro cid. unfold shown, average_dict.
    rewrite get_map_values. unfold result. rewrite scores_dict_get.
    destruct (profile_scores_on d pid cid) as [|s l]; [reflexivity|].
    cbn [option_map]. destruct (average_str_ok two_decimals plus_minus (s :: l))
      as [a Ha]; [discriminate|].
    unfold g. now rewrite Ha. }
  exists chars, (map row (seq 0 (length COURSES))).
  split; [|split; [exact Hnd|split; [exact Hlen|split; [exact Hplayed|
          split; [exact Hmost|split]]]]].
  - unfold run, get_player_profile, bind, select, db_call, lift, ret, no_faults.
    cbn [store calls faults].
    destruct (q_player pid d) as [|[name rating] others]; [discriminate|].
    injection Hrow as -> ->.
    cbn [store calls faults]. fold result. rewrite Hpct.
    cbn [store calls faults]. rewrite Hdict. cbn [store calls faults].
    fold average_dict. rewrite Hrows. cbn [store calls faults].
    do 2 f_equal. f_equal.
    + now destruct (Qeq_bool player_rating INVALID_RATING).
    + rewrite Htop, length_map, combine_map_r, map_map. reflexivity.
  - now rewrite length_map, length_seq.
  - intros ci course Hc.
    assert (Hlt : (ci < length COURSES)%nat)
      by (apply nth_error_Some; congruence).
    exists (shown average_dict (profile_course_id (Z.of_nat ci) 0)),
           (shown average_dict (profile_course_id (Z.of_nat ci) 1)).
    split; [|split; apply Hcell].
    rewrite nth_error_map, nth_error_seq.
    apply Nat.ltb_lt in Hlt. rewrite Hlt. cbn [option_map Nat.add].
    unfold row. now rewrite (nth_error_nth _ _ _ Hc).
Qed.

Lemma get_player_profile_shows_witness :
  exists chars rows,
    run (get_player_profile 1000 ["Toad Highlands"]%string
           ["Front"; "Back"]%string (fun _ => "0.00"%string) "~"%string
           NotGiven 7) no_faults Sample.store
    = (Ok (Profile "ann" "NR"
             (map (fun x => ((fst x + 1)%nat, snd x, "0.00"%string))
                  (combine (seq 0 (length chars)) chars))
             rows), Sample.store)
    /\ NoDup chars
    /\ length rows = 1%nat.
Proof.
  destruct (get_player_profile_shows 1000 ["Toad Highlands"]%string
              ["Front"; "Back"]%string (fun _ => "0.00"%string) "~"%string
              NotGiven 7 Sample.store "ann"%string 1000)
    as (chars & rows & Hrun & Hnd & _ & _ & _ & Hlen & _).
  - discriminate.
  - reflexivity.
  - reflexivity.
  - exists chars, rows. split; [exact Hrun|]. split; [exact Hnd|exact Hlen].
Defined.

(* ------------------------------------------------------------------ *)
(** ** The table of recent scores *)

Lemma outcomes_total {A B} (f : A -> outcome B) (l : list A) :
  Forall (fun x => exists y, f x = Returns y) l ->
  exists ys, outcomes f l = Returns ys
             /\ Forall2 (fun x y => f x = Returns y) l ys.
Proof.
  induction 1 as [|x t (y & Hy) _ (ys & Hys & Hall)]; simpl.
  - exists []. split; [reflexivity|constructor].
  - rewrite Hy, Hys. exists (y :: ys). split; [reflexivity|now constructor].
Qed.

Lemma outcomes_throws {A B} (f : A -> outcome B) (l : list A) (x : A)
      (e : exception) :
  In x l -> f x = Throws e -> exists e', outcomes f l = Throws e'.
Proof.
  induction l as [|y t IH]; intros Hin Hx; [contradiction|]. simpl.
  destruct (f y) as [b|e0] eqn:E; [|now eexists].
  destruct Hin as [->|Hin]; [congruence|].
  destruct (IH Hin Hx) as [e' He']. rewrite He'. now eexists.
Qed.

Lemma descending_by_time {A} (key : A -> Z) (l : list A) :
  StronglySorted (fun x y => (key y <= key x)%Z) (Py.sort_by Z.gtb key l).
Proof.
  pose proof (sort_by_sorted Z.gtb key Zgtb_asym Zgtb_trans l) as H.
  induction H as [|x t Hs IH Hx]; constructor; [exact IH|].
  eapply Forall_impl; [|exact Hx]. intros y Hy.
  unfold Py.in_order in Hy. rewrite Z.gtb_ltb in Hy. now apply Z.ltb_ge in Hy.
Qed.

Section RecentFacts.
Variable INVALID_RATING : Q.
Variables COURSES NINES : list string.
Variable two_decimals : Q -> string.
Variable str_int : Z -> string.
Variable plus_minus : string.
Variable formatted_date : Z -> string.

Lemma recent_entry_shown (row : recent_row) :
  length NINES = 2%nat -> shown_round COURSES row ->
  exists entry,
    recent_entry INVALID_RATING COURSES NINES two_decimals str_int plus_minus
                 formatted_date row = Returns entry.
Proof.
  intros H2 [Hrating Hid]. unfold recent_entry.
  set (ci := ((rr_course_id row - 1) / 2)%Z).
  set (ni := ((rr_course_id row - 1) mod 2)%Z).
  assert (Hni : (0 <= ni <= 1)%Z)
    by (unfold ni; Z.to_euclidean_division_equations; lia).
  assert (Hci : (0 <= ci < Z.of_nat (length COURSES))%Z)
    by (unfold ci; Z.to_euclidean_division_equations; lia).
  assert (Hcid : rr_course_id row = profile_course_id ci ni).
  { unfold profile_course_id, ci, ni.
    Z.to_euclidean_division_equations. lia. }
  assert (Hnine : exists nine, nine_label NINES (rr_course_id row) = Ok nine).
  { unfold nine_label. fold ni.
    destruct (nth_error NINES (Z.to_nat ni)) as [nine|] eqn:E.
    - exists nine. rewrite <- (Z2Nat.id ni) by lia. now apply index_nth.
    - apply nth_error_None in E. lia. }
  assert (Hcourse : exists course,
             course_label COURSES NINES (rr_course_id row) = Ok course).
  { unfold course_label, py_div, Py.len. rewrite H2.
    change (Qeq_bool (inject_Z (Z.of_nat 2)) 0) with false.
    cbn [rbind]. change (Z.of_nat 2) with 2%Z.
    rewrite Hcid, ceil_half by exact Hni.
    destruct (nth_error COURSES (Z.to_nat ci)) as [course|] eqn:E.
    - exists course. rewrite <- (Z2Nat.id ci) by lia. now apply index_nth.
    - apply nth_error_None in E. lia. }
  destruct Hnine as [nine ->]. destruct Hcourse as [course ->].
  destruct (rr_rating row); [now eexists|contradiction].
Qed.

Lemma recent_entry_unrated (row : recent_row) :
  rr_rating row = None ->
  exists e,
    recent_entry INVALID_RATING COURSES NINES two_decimals str_int plus_minus
                 formatted_date row = Throws e.
Proof.
  intro H. unfold recent_entry.
  destruct (nine_label NINES (rr_course_id row)); [|now eexists].
  destruct (course_label COURSES NINES (rr_course_id row)); [|now eexists].
  rewrite H. now eexists.
Qed.

Lemma get_recent_score_table_run (player_id : Z) (author_id : Z)
      (f : nat -> bool) (d : db) :
  c_run (get_recent_score_table INVALID_RATING COURSES NINES two_decimals
           str_int plus_minus formatted_date (Digits player_id) author_id) f d =
  if f 0%nat then (Throws (Builtin StorageError), d)
  else
    match q_player_name player_id d with
    | [] => (Returns RecentPlayerNotFound, d)
    | player_name :: _ =>
        if f 1%nat then (Throws (Builtin StorageError), d)
        else
          match outcomes (recent_entry INVALID_RATING COURSES NINES two_decimals
                            str_int plus_minus formatted_date)
                         (firstn 40 (Py.sort_by Z.gtb rr_timestamp
                                       (q_recent player_id d))) with
          | Returns rows => (Returns (RecentTable player_name rows), d)
          | Throws e => (Throws e, d)
          end
    end.
Proof.
  unfold c_run, get_recent_score_table, c_bind, of_M, of_outcome, select,
    db_call, c_ret. cbn [store calls faults].
  destruct (f 0%nat); [reflexivity|]. cbn [store calls faults].
  destruct (q_player_name player_id d) as [|name rest]; [reflexivity|].
  cbn [store calls faults]. destruct (f 1%nat); [reflexivity|].
  cbn [store calls faults]. now destruct (outcomes _ _).
Qed.

End RecentFacts.

(** X25. The table of recent scores.  The command never changes the store.
    For a player with a row in the players table, [NINES] having two
    entries and no storage failure: the rounds considered are those of the
    player joined with their course, newest first, at most 40 of them; when
    each of these has a rating and a course id from 1 to twice the number
    of [COURSES], the table has one row per such round, in that order, and
    no round left out is newer than a round shown; when one of them has no
    rating (a round whose verification stopped before the rating was
    written), the command raises and posts nothing. *)
Theorem get_recent_score_table_shows (INVALID_RATING : Q)
        (COURSES NINES : list string) (two_decimals : Q -> string)
        (str_int : Z -> string) (plus_minus : string)
        (formatted_date : Z -> string)
        (request : requested) (author_id : Z) (d : db) (player_name : string) :
  request <> NotDigits ->
  hd_error (q_player_name (match request with Digits n => n | _ => author_id end)
                          d) = Some player_name ->
  length NINES = 2%nat ->
  let player_id := match request with Digits n => n | _ => author_id end in
  let command := get_recent_score_table INVALID_RATING COURSES NINES
                   two_decimals str_int plus_minus formatted_date
                   request author_id in
  let entry := recent_entry INVALID_RATING COURSES NINES two_decimals str_int
                            plus_minus formatted_date in
  let sorted := Py.sort_by Z.gtb rr_timestamp (q_recent player_id d) in
  let newest := firstn 40 sorted in
  (forall f, snd (c_run command f d) = d)
  /\ (Forall (shown_round COURSES) newest ->
      exists rows,
        c_run command no_faults d = (Returns (RecentTable player_name rows), d)
        /\ Forall2 (fun row shown => entry row = Returns shown) newest rows
        /\ length rows = Nat.min 40 (length (q_recent player_id d)))
  /\ (forall shown left_out,
        In shown newest -> In left_out (skipn 40 sorted) ->
        (rr_timestamp left_out <= rr_timestamp shown)%Z)
  /\ (forall row, In row newest -> rr_rating row = None ->
        exists e, c_run command no_faults d = (Throws e, d)).
Proof.
  intros Hreq Hname H2. cbv zeta.
  set (pid := match request with Digits n => n | _ => author_id end) in *.
  assert (Hsame : get_recent_score_table INVALID_RATING COURSES NINES
                    two_decimals str_int plus_minus formatted_date
                    request author_id
                  = get_recent_score_table INVALID_RATING COURSES NINES
                      two_decimals str_int plus_minus formatted_date
                      (Digits pid) author_id)
    by (destruct request; [reflexivity|contradiction|reflexivity]).
  rewrite Hsame. clear Hsame.
  set (sorted := Py.sort_by Z.gtb rr_timestamp (q_recent pid d)).
  destruct (q_player_name pid d) as [|name rest] eqn:En; [discriminate|].
  injection Hname as ->.
  split; [|split; [|split]].
  - intro f. rewrite get_recent_score_table_run, En. fold sorted.
    destruct (f 0%nat); [reflexivity|]. destruct (f 1%nat); [reflexivity|].
    now destruct (outcomes _ _).
  - intro Hshown.
    destruct (outcomes_total
                (recent_entry INVALID_RATING COURSES NINES two_decimals str_int
                              plus_minus formatted_date)
                (firstn 40 sorted)) as (rows & Hrows & Hall).
    { eapply Forall_impl; [|exact Hshown]. intros row Hrow.
      now apply recent_entry_shown. }
    exists rows. rewrite get_recent_score_table_run, En. fold sorted.
    unfold no_faults. rewrite Hrows. split; [reflexivity|]. split; [exact Hall|].
    rewrite <- (Forall2_length Hall), length_firstn. unfold sorted.
    now rewrite sort_by_length.
  - intros shown left_out Hs Hl.
    pose proof (descending_by_time rr_timestamp (q_recent pid d)) as Hsorted.
    fold sorted in Hsorted. rewrite <- (firstn_skipn 40 sorted) in Hsorted.
    exact (sorted_apart _ _ _ Hsorted shown left_out Hs Hl).
  - intros row Hin Hnone.
    destruct (recent_entry_unrated INVALID_RATING COURSES NINES two_decimals
                str_int plus_minus formatted_date row Hnone) as [e He].
    destruct (outcomes_throws _ _ row e Hin He) as [e' He'].
    exists e'. rewrite get_recent_score_table_run, En. fold sorted.
    unfold no_faults. now rewrite He'.
Qed.

Lemma get_recent_score_table_shows_witness :
  exists rows,
    c_run (get_recent_score_table 1000 ["Toad Highlands"]%string
             ["Front"; "Back"]%string (fun _ => "0.00"%string)
             (fun _ => "0"%string) "~"%string (fun _ => "2023-01-01"%string)
             NotGiven 7) no_faults Sample.store
    = (Returns (RecentTable "ann" rows), Sample.store)
    /\ length rows = 5%nat.
Proof.
  destruct (get_recent_score_table_shows 1000 ["Toad Highlands"]%string
              ["Front"; "Back"]%string (fun _ => "0.00"%string)
              (fun _ => "0"%string) "~"%string (fun _ => "2023-01-01"%string)
              NotGiven 7 Sample.store "ann"%string)
    as (_ & Hshown & _).
  - discriminate.
  - reflexivity.
  - reflexivity.
  - destruct Hshown as (rows & Hrun & _ & Hlen).
    + vm_compute. repeat constructor; try discriminate.
    + exists rows. split; [exact Hrun|exact Hlen].
Defined.
